(** * Codraw: the room-scoped operation log and the room registry

    A shallow embedding of [server/drawing-state.js] and [server/rooms.js],
    and the properties of the operation log, of its validator and of the room
    registry.

    - JavaScript values are an inductive type; numbers are IEEE-754 doubles
      ([spec_float] of the Standard Library), so [NaN] and the infinities are
      there and comparisons are the ones of the language.
    - The arrays [operations] and [redoStack] live in a store of arrays and a
      [DrawingState] holds references into it: [push], [pop] and
      [length = 0] update an array in place, [= []] allocates a new one.
      [getSnapshot] hands out the reference it holds.
    - The data of an event is a JSON value ([json]): socket.io carries
      neither NaN nor an infinity.
    - Methods are written in a state monad with exceptions; a [throw] leaves
      the store as it is at that point.
    - [version] is a JavaScript number that only ever counts up from 0 by 1;
      it is modelled as an integer of [Z] (doubles are exact on integers
      below 2^53). *)

From Stdlib Require Import ZArith Lia String List.
From Stdlib Require Import Floats.SpecFloat.
From stdpp Require Import base option list gmap strings pretty.

Set Warnings "-register-all".
Local Open Scope Z_scope.

(** ** JavaScript values *)

Inductive value :=
| VUndefined
| VNull
| VBool (b : bool)
| VNum (n : spec_float)
| VStr (s : string)
| VArr (elems : list value)
| VObj (props : gmap string value).

(** The number literal [0] and integer literals. *)
Definition zero : spec_float := S754_zero false.
Definition js_int (z : Z) : spec_float := binary_normalize 53 1024 z 0 false.

(** [a <= b] and [a > b] on numbers; both are false when an operand is NaN. *)
Definition js_le (a b : spec_float) : bool := SFleb a b.
Definition js_gt (a b : spec_float) : bool := SFltb b a.

(** [typeof v === "number"], [typeof v === "string"], [Array.isArray(v)]. *)
Definition is_number (v : value) : bool :=
  match v with VNum _ => true | _ => false end.
Definition is_string (v : value) : bool :=
  match v with VStr _ => true | _ => false end.
Definition isArray (v : value) : bool :=
  match v with VArr _ => true | _ => false end.

(** [!!v]: the falsy values are undefined, null, false, 0, -0, NaN and the
    empty string. *)
Definition truthy (v : value) : bool :=
  match v with
  | VUndefined | VNull => false
  | VBool b => b
  | VNum (S754_zero _) | VNum S754_nan => false
  | VNum _ => true
  | VStr s => negb (bool_decide (s = ""%string))
  | VArr _ | VObj _ => true
  end.

(** [v === s] for a string [s]: only the same string is strictly equal. *)
Definition strict_eq_str (v : value) (s : string) : bool :=
  match v with VStr t => bool_decide (t = s) | _ => false end.

(** [typeof v === "number" && v > 0] and [typeof v !== "number" || v <= 0]. *)
Definition number_gt_zero (v : value) : bool :=
  match v with VNum n => js_gt n zero | _ => false end.
Definition not_number_or_le_zero (v : value) : bool :=
  match v with VNum n => js_le n zero | _ => true end.

(** What [v.k] evaluates to when it does not throw.  None of the property
    names the server reads ([type], [points], [size], [color], [composite],
    [shape], [x], [y], [width], [height], [targetId], [userId]) is defined
    on a prototype, so only an object's own properties are found. *)
Definition field (v : value) (k : string) : value :=
  match v with
  | VObj props => default VUndefined (props !! k)
  | _ => VUndefined
  end.

(** ** Exceptions *)

Inductive error :=
| Error (message : string)
| TypeError (message : string).

Inductive outcome (A : Type) :=
| Return (a : A)
| Throw (e : error).
Arguments Return {A} a.
Arguments Throw {A} e.

#[global] Instance outcome_ret : MRet outcome := @Return.
#[global] Instance outcome_bind : MBind outcome := fun A B f m =>
  match m with Return a => f a | Throw e => Throw e end.

Definition returned {A} (o : outcome A) : bool :=
  match o with Return _ => true | Throw _ => false end.

(** [v.k]: reading a property of undefined or null throws a TypeError. *)
Definition prop (v : value) (k : string) : outcome value :=
  match v with
  | VUndefined | VNull => Throw (TypeError "Cannot read properties of undefined or null")
  | _ => Return (field v k)
  end.

(** [if (c) throw new Error(msg)]. *)
Definition throw_if (c : bool) (msg : string) : outcome unit :=
  if c then Throw (Error msg) else Return tt.

(** ** [validateOperation] *)

(** [new Set(["circle", "square", "triangle"])] and [allowed.has(v)]. *)
Definition allowed : gset string :=
  {[ "circle"%string; "square"%string; "triangle"%string ]}.
Definition Set_has (s : gset string) (v : value) : bool :=
  match v with VStr t => bool_decide (t ∈ s) | _ => false end.

Definition array_length (v : value) : Z :=
  match v with VArr l => Z.of_nat (length l) | _ => 0 end.
Definition string_length (v : value) : Z :=
  match v with VStr s => Z.of_nat (String.length s) | _ => 0 end.

Definition validate_stroke (op : value) : outcome unit :=
  points ← prop op "points";
  throw_if (negb (isArray points) || (array_length points <? 2))
           "Stroke must contain at least two points";;
  size ← prop op "size";
  throw_if (not_number_or_le_zero size) "Invalid stroke size";;
  color ← prop op "color";
  throw_if (negb (is_string color)) "Invalid color";;
  composite ← prop op "composite";
  throw_if (negb (strict_eq_str composite "source-over")
            && negb (strict_eq_str composite "destination-out"))
           "Invalid composite mode".

Definition validate_shape (op : value) : outcome unit :=
  shape ← prop op "shape";
  throw_if (negb (Set_has allowed shape)) "Invalid shape type";;
  x ← prop op "x";
  y ← prop op "y";
  throw_if (negb (is_number x) || negb (is_number y)) "Invalid shape position";;
  size ← prop op "size";
  width ← prop op "width";
  height ← prop op "height";
  let hasLegacySize := number_gt_zero size in
  let hasWH := number_gt_zero width && number_gt_zero height in
  throw_if (negb hasLegacySize && negb hasWH) "Invalid shape dimensions";;
  color ← prop op "color";
  throw_if (negb (is_string color)) "Invalid color".

Definition validate_shape_update (op : value) : outcome unit :=
  targetId ← prop op "targetId";
  throw_if (negb (is_string targetId) || (string_length targetId =? 0))
           "Missing targetId";;
  x ← prop op "x";
  y ← prop op "y";
  width ← prop op "width";
  height ← prop op "height";
  color ← prop op "color";
  let hasPos := is_number x && is_number y in
  let hasWH := number_gt_zero width && number_gt_zero height in
  let hasColor := is_string color in
  throw_if (negb hasPos && negb hasWH && negb hasColor) "Empty shape update".

Definition validateOperation (op : value) : outcome unit :=
  throw_if (negb (truthy op)) "Empty operation";;
  type ← prop op "type";
  if strict_eq_str type "stroke" then validate_stroke op
  else if strict_eq_str type "shape" then validate_shape op
  else if strict_eq_str type "shape:update" then validate_shape_update op
  else Throw (Error "Unsupported operation type").

(** ** The store of arrays *)

(** A reference to a JavaScript array, and the store the references point
    into.  Arrays are never freed; a new array gets the next reference. *)
Abbreviation ref := nat (only parsing).
Abbreviation heap := (list (list value)) (only parsing).

Definition read (h : heap) (r : ref) : list value := default [] (h !! r).
Definition write (h : heap) (r : ref) (l : list value) : heap := <[r := l]> h.
Arguments read : simpl never.
Arguments write : simpl never.

(** ** [class DrawingState] *)

Record DrawingState := mkDrawingState {
  operations : ref;
  redoStack : ref;
  version : Z
}.

Record store := mkStore {
  arrays : heap;
  this : DrawingState
}.

(** A method body: it runs on the store, returns or throws, and leaves a
    store behind in both cases. *)
Definition M (A : Type) : Type := store → outcome A * store.

#[global] Instance M_ret : MRet M := fun A a s => (Return a, s).
#[global] Instance M_bind : MBind M := fun A B f m s =>
  match m s with
  | (Return a, s') => f a s'
  | (Throw e, s') => (Throw e, s')
  end.

(** A pure computation that may throw, run inside a method. *)
Definition pure {A} (o : outcome A) : M A := fun s => (o, s).

(** Reading and assigning the fields of [this]. *)
Definition this_operations : M ref := fun s => (Return (operations (this s)), s).
Definition this_redoStack : M ref := fun s => (Return (redoStack (this s)), s).
Definition this_version : M Z := fun s => (Return (version (this s)), s).

Definition set_operations (r : ref) : M unit := fun s =>
  (Return tt,
   mkStore (arrays s) (mkDrawingState r (redoStack (this s)) (version (this s)))).
Definition set_redoStack (r : ref) : M unit := fun s =>
  (Return tt,
   mkStore (arrays s) (mkDrawingState (operations (this s)) r (version (this s)))).
Definition set_version (v : Z) : M unit := fun s =>
  (Return tt,
   mkStore (arrays s) (mkDrawingState (operations (this s)) (redoStack (this s)) v)).

(** [this.version += 1]. *)
Definition bump_version : M unit := v ← this_version; set_version (v + 1).

(** The array primitives the methods use. *)

(** [[]]: a new, empty array. *)
Definition new_array : M ref := fun s =>
  (Return (length (arrays s)), mkStore (arrays s ++ [[]]) (this s)).

Definition elements (r : ref) : M (list value) := fun s =>
  (Return (read (arrays s) r), s).

(** [a.length]. *)
Definition arr_length (r : ref) : M Z :=
  l ← elements r; mret (Z.of_nat (length l)).

(** [a.push(v)]. *)
Definition push (r : ref) (v : value) : M unit := fun s =>
  (Return tt, mkStore (write (arrays s) r (read (arrays s) r ++ [v])) (this s)).

(** [a.pop()]: removes and returns the last element, undefined on an empty
    array. *)
Definition pop (r : ref) : M value := fun s =>
  let l := read (arrays s) r in
  (Return (default VUndefined (last l)),
   mkStore (write (arrays s) r (removelast l)) (this s)).

(** [a.length = 0]: empties the array in place. *)
Definition truncate (r : ref) : M unit := fun s =>
  (Return tt, mkStore (write (arrays s) r []) (this s)).

(** [for (const x of xs) body(x)], for a body that does not touch the array
    it iterates. *)
Fixpoint for_of (xs : list value) (body : value → M unit) : M unit :=
  match xs with
  | [] => mret tt
  | x :: rest => body x;; for_of rest body
  end.

(** [constructor()]: two new arrays and version 0. *)
Definition DrawingState_new (h : heap) : DrawingState * heap :=
  (mkDrawingState (length h) (S (length h)) 0, h ++ [[]; []]).

(** [addOperation(op)] *)
Definition addOperation (op : value) : M unit :=
  pure (validateOperation op);;
  ops ← this_operations;
  push ops op;;
  redo ← this_redoStack;
  truncate redo;;
  bump_version.

(** [undo()] *)
Definition undo : M bool :=
  ops ← this_operations;
  n ← arr_length ops;
  if n =? 0 then mret false else
  op ← pop ops;
  redo ← this_redoStack;
  push redo op;;
  bump_version;;
  mret true.

(** [redo()] *)
Definition redo : M bool :=
  stack ← this_redoStack;
  n ← arr_length stack;
  if n =? 0 then mret false else
  op ← pop stack;
  ops ← this_operations;
  push ops op;;
  bump_version;;
  mret true.

(** [getSnapshot()]: the version number and the [operations] reference. *)
Record snapshot := mkSnapshot {
  snap_version : Z;
  snap_operations : ref
}.

Definition getSnapshot : M snapshot :=
  v ← this_version;
  ops ← this_operations;
  mret (mkSnapshot v ops).

(** What [removeByUser] returns: [false], or the number removed. *)
Inductive removed_result :=
| ReturnedFalse
| Removed (n : Z).

(** The body of the loop of [removeByUser]:
    [if (op.userId !== userId) remaining.push(op)]. *)
Definition push_unless_author (userId : string) (remaining : ref) (op : value) : M unit :=
  author ← pure (prop op "userId");
  if negb (strict_eq_str author userId) then push remaining op else mret tt.

(** [removeByUser(userId)], for a string [userId] (the server passes the
    identity it minted with [nanoid]). *)
Definition removeByUser (userId : string) : M removed_result :=
  if negb (truthy (VStr userId)) then mret ReturnedFalse else
  ops ← this_operations;
  before ← arr_length ops;
  remaining ← new_array;
  xs ← elements ops;
  for_of xs (push_unless_author userId remaining);;
  kept ← arr_length remaining;
  let removed := before - kept in
  set_operations remaining;;
  stack ← this_redoStack;
  truncate stack;;
  if 0 <? removed then bump_version;; mret (Removed removed)
  else mret (Removed 0).

(** [clearAll()] *)
Definition clearAll : M Z :=
  ops ← this_operations;
  removed ← arr_length ops;
  fresh_ops ← new_array;
  set_operations fresh_ops;;
  fresh_redo ← new_array;
  set_redoStack fresh_redo;;
  (if 0 <? removed then bump_version else mret tt);;
  mret removed.

(** The log as its callers see it: the contents of the two arrays and the
    version. *)
Definition ops_of (s : store) : list value := read (arrays s) (operations (this s)).
Definition redo_of (s : store) : list value := read (arrays s) (redoStack (this s)).
Definition version_of (s : store) : Z := version (this s).

(** The operations a snapshot shows when it is read in store [s]. *)
Definition snapshot_ops (sn : snapshot) (s : store) : list value :=
  read (arrays s) (snap_operations sn).

(** ** [class RoomManager] *)

(** The identity a connection gets: [{ userId, displayName, color }]. *)
Record user := mkUser {
  userId : string;
  displayName : string;
  color : string
}.

(** [Map<socketId, user>]: a map that keeps the order of insertion. *)
Definition users_map := list (string * user).

Fixpoint Map_set (m : users_map) (k : string) (u : user) : users_map :=
  match m with
  | [] => [(k, u)]
  | (k', u') :: rest =>
      if bool_decide (k' = k) then (k, u) :: rest else (k', u') :: Map_set rest k u
  end.

Definition Map_delete (m : users_map) (k : string) : users_map :=
  filter (fun e => fst e ≠ k) m.

Definition Map_values (m : users_map) : list user := map snd m.

(** A room record: [{ state: DrawingState, users: Map }]. *)
Record Room := mkRoom {
  state : DrawingState;
  users : users_map
}.

(** The manager: [rooms], a map from roomId to room record, and the store
    the drawing states of the rooms point into. *)
Record RoomManager := mkRoomManager {
  room_arrays : heap;
  rooms : gmap string Room
}.

(** [constructor()] *)
Definition RoomManager_new : RoomManager := mkRoomManager [] ∅.

(** [ensureRoom(roomId)] *)
Definition ensureRoom (roomId : string) (rm : RoomManager) : RoomManager :=
  if negb (bool_decide (is_Some (rooms rm !! roomId))) then
    let '(st, h) := DrawingState_new (room_arrays rm) in
    mkRoomManager h (<[roomId := mkRoom st []]> (rooms rm))
  else rm.

(** [this.rooms.get(roomId).f]: a TypeError when there is no such room. *)
Definition room_get (roomId : string) (rm : RoomManager) : outcome Room :=
  match rooms rm !! roomId with
  | Some room => Return room
  | None => Throw (TypeError "Cannot read properties of undefined")
  end.

(** [join(socket, roomId, user)]; the socket is its [id], and attaching it
    to the transport's group is the transport's business. *)
Definition join (socket : string) (roomId : string) (u : user)
    (rm : RoomManager) : outcome unit * RoomManager :=
  let rm := ensureRoom roomId rm in
  match room_get roomId rm with
  | Return room =>
      (Return tt,
       mkRoomManager (room_arrays rm)
         (<[roomId := mkRoom (state room) (Map_set (users room) socket u)]> (rooms rm)))
  | Throw e => (Throw e, rm)
  end.

(** [leave(socket, roomId)] *)
Definition leave (socket : string) (roomId : string) (rm : RoomManager) : RoomManager :=
  match rooms rm !! roomId with
  | None => rm
  | Some room =>
      mkRoomManager (room_arrays rm)
        (<[roomId := mkRoom (state room) (Map_delete (users room) socket)]> (rooms rm))
  end.

(** [getState(roomId)] *)
Definition getState (roomId : string) (rm : RoomManager)
    : outcome DrawingState * RoomManager :=
  let rm := ensureRoom roomId rm in
  (room ← room_get roomId rm; mret (state room), rm).

(** [getUsers(roomId)] *)
Definition getUsers (roomId : string) (rm : RoomManager)
    : outcome (list user) * RoomManager :=
  let rm := ensureRoom roomId rm in
  (room ← room_get roomId rm; mret (Map_values (users room)), rm).

(** A room's log is empty: no operations, nothing to redo, version 0. *)
Definition empty_log (h : heap) (st : DrawingState) : Prop :=
  read h (operations st) = [] ∧ read h (redoStack st) = [] ∧ version st = 0.

(** ** The calls on a log *)

(** [op.userId === u]: the operation's author is [u]. *)
Definition authored_by (u : string) (op : value) : bool :=
  strict_eq_str (field op "userId") u.

(** The operations of a log without those of author [u], in their order. *)
Definition without_author (u : string) (l : list value) : list value :=
  List.filter (fun op => negb (authored_by u op)) l.

Inductive call :=
| Append (op : value)
| Undo
| Redo
| RemoveByAuthor (u : string)
| ClearAll
| Snapshot.

(** The store a call leaves behind. *)
Definition run (c : call) (s : store) : store :=
  match c with
  | Append op => snd (addOperation op s)
  | Undo => snd (undo s)
  | Redo => snd (redo s)
  | RemoveByAuthor u => snd (removeByUser u s)
  | ClearAll => snd (clearAll s)
  | Snapshot => snd (getSnapshot s)
  end.

(** The number a call reports as removed, when it reports one. *)
Definition removed_count (r : outcome removed_result) : Z :=
  match r with Return (Removed n) => n | _ => 0 end.

(** A sequence of calls, one after the other. *)
Fixpoint run_all (cs : list call) (s : store) : store :=
  match cs with
  | [] => s
  | c :: rest => run_all rest (run c s)
  end.

(** A call is a successful mutation: an append of an operation the
    validator lets through, an undo with something to undo, a redo with
    something to redo, a removal that removes something, a clear of a log
    that is not empty. *)
Definition mutates (c : call) (s : store) : bool :=
  match c with
  | Append op => returned (validateOperation op)
  | Undo => negb (bool_decide (ops_of s = []))
  | Redo => negb (bool_decide (redo_of s = []))
  | RemoveByAuthor u => 0 <? removed_count (fst (removeByUser u s))
  | ClearAll => negb (bool_decide (ops_of s = []))
  | Snapshot => false
  end.

(** ** The validation rules as the specification words them

    The rules of the specification's Operation Validator, stated on their
    own, to be compared with [validateOperation].  A candidate is matched to
    a variant by its [type] tag; a shape's kind is its [shape] property. *)
Module Rules.

Inductive candidate :=
| Stroke (points size color composite : value)
| Shape (kind x y size width height color : value)
| ShapeUpdate (targetId x y width height color : value)
| Unmatched.

Definition tagged (tag : string) (op : value) : bool :=
  match field op "type" with VStr t => bool_decide (t = tag) | _ => false end.

Definition candidate_of (op : value) : candidate :=
  if tagged "stroke" op then
    Stroke (field op "points") (field op "size") (field op "color")
           (field op "composite")
  else if tagged "shape" op then
    Shape (field op "shape") (field op "x") (field op "y") (field op "size")
          (field op "width") (field op "height") (field op "color")
  else if tagged "shape:update" op then
    ShapeUpdate (field op "targetId") (field op "x") (field op "y")
                (field op "width") (field op "height") (field op "color")
  else Unmatched.

(** "a positive number" *)
Definition positive_number (v : value) : bool :=
  match v with VNum n => SFltb zero n | _ => false end.

(** "a sequence of at least two points" *)
Definition at_least_two_points (v : value) : bool :=
  match v with VArr l => bool_decide (2 ≤ length l)%nat | _ => false end.

Definition one_of (tokens : list string) (v : value) : bool :=
  match v with VStr t => bool_decide (t ∈ tokens) | _ => false end.

Definition non_empty_string (v : value) : bool :=
  match v with VStr t => negb (bool_decide (t = ""%string)) | _ => false end.

(** "position pair", "dimension pair": present and well-typed. *)
Definition position_pair (x y : value) : bool := is_number x && is_number y.
Definition dimension_pair (w h : value) : bool :=
  positive_number w && positive_number h.

Definition holds (c : candidate) : bool :=
  match c with
  | Stroke points size color composite =>
      at_least_two_points points && positive_number size && is_string color
      && one_of ["source-over"; "destination-out"]%string composite
  | Shape kind x y size width height color =>
      one_of ["circle"; "square"; "triangle"]%string kind
      && position_pair x y
      && (positive_number size || dimension_pair width height)
      && is_string color
  | ShapeUpdate targetId x y width height color =>
      non_empty_string targetId
      && (position_pair x y || dimension_pair width height || is_string color)
  | Unmatched => false
  end.

(** A candidate operation satisfies the rules of its variant. *)
Definition valid (op : value) : bool := holds (candidate_of op).

End Rules.

(** ** Well-formed stores *)

Definition nullish (v : value) : bool :=
  match v with VUndefined | VNull => true | _ => false end.

(** The two arrays of a drawing state are allocated and are two arrays, and
    what they hold are values with properties (the constructor establishes
    this and every method keeps it). *)
Record wf (s : store) : Prop := mkWf {
  wf_ops_alloc : (operations (this s) < length (arrays s))%nat;
  wf_redo_alloc : (redoStack (this s) < length (arrays s))%nat;
  wf_distinct : operations (this s) ≠ redoStack (this s);
  wf_ops_values : Forall (fun v => nullish v = false) (ops_of s);
  wf_redo_values : Forall (fun v => nullish v = false) (redo_of s)
}.

(** A store holding just a log with the given contents. *)
Definition store_of (ops stack : list value) (v : Z) : store :=
  mkStore [ops; stack] (mkDrawingState 0%nat 1%nat v).

(** The store right after [new DrawingState()]. *)
Definition initial_store : store :=
  let '(st, h) := DrawingState_new [] in mkStore h st.

(** The stores a log goes through: the one the constructor leaves, and
    those the calls lead to. *)
Inductive reachable : store → Prop :=
| reachable_initial : reachable initial_store
| reachable_run c s : reachable s → reachable (run c s).

(** The number of successful mutations in a sequence of calls. *)
Fixpoint mutations (cs : list call) (s : store) : Z :=
  match cs with
  | [] => 0
  | c :: rest => (if mutates c s then 1 else 0) + mutations rest (run c s)
  end.

(** ** What an event carries *)

(** socket.io sends the arguments of an event as JSON text, so the data a
    handler of the server is called with is a JSON value: null, a boolean,
    a finite number, a string, an array or an object of such values.  There
    is no NaN among them ([JSON.stringify] writes NaN and the infinities as
    [null]). *)
Definition is_finite (n : spec_float) : bool :=
  match n with
  | S754_zero _ | S754_finite _ _ _ => true
  | S754_infinity _ | S754_nan => false
  end.

Inductive json : value → Prop :=
| json_null : json VNull
| json_bool b : json (VBool b)
| json_num n : is_finite n = true → json (VNum n)
| json_str s : json (VStr s)
| json_arr elems : Forall json elems → json (VArr elems)
| json_obj props : (∀ k v, props !! k = Some v → json v) → json (VObj props).

(** ** Sample operations *)

(** An object literal. *)
Definition obj (l : list (string * value)) : value := VObj (list_to_map l).

Definition point (x y : Z) : value :=
  obj [("x", VNum (js_int x)); ("y", VNum (js_int y))]%string.

(** A committed stroke of two points, as the server stamps it. *)
Definition stroke_of (author : string) (size : spec_float) : value :=
  obj [("type", VStr "stroke"); ("points", VArr [point 0 0; point 1 1]);
       ("size", VNum size); ("color", VStr "#000");
       ("composite", VStr "source-over");
       ("id", VStr "op-1"); ("userId", VStr author)]%string.

Definition sample_stroke : value := stroke_of "alice" (js_int 4).

(** A stroke whose size is NaN. *)
Definition nan_stroke : value := stroke_of "alice" S754_nan.

(** A stroke with one point, a shape of an unknown kind, an update without
    a target, a candidate with an unknown tag. *)
Definition one_point_stroke : value :=
  obj [("type", VStr "stroke"); ("points", VArr [point 0 0]);
       ("size", VNum (js_int 4)); ("color", VStr "#000");
       ("composite", VStr "source-over")]%string.
Definition hexagon : value :=
  obj [("type", VStr "shape"); ("shape", VStr "hexagon");
       ("x", VNum (js_int 0)); ("y", VNum (js_int 0));
       ("width", VNum (js_int 10)); ("height", VNum (js_int 10));
       ("color", VStr "#f00")]%string.
Definition untargeted_update : value :=
  obj [("type", VStr "shape:update"); ("targetId", VStr "")]%string.
Definition unknown_tag : value :=
  obj [("type", VStr "text"); ("color", VStr "#000")]%string.

(** A recolouring of a shape that is nowhere in the log. *)
Definition dangling_update : value :=
  obj [("type", VStr "shape:update"); ("targetId", VStr "no-such-shape");
       ("color", VStr "#0f0"); ("userId", VStr "alice")]%string.

(** ** [server.js]: colours *)

(** [ToInt32]: a number (here an integer) as a signed 32-bit integer. *)
Definition to_int32 (z : Z) : Z := (z + 2 ^ 31) `mod` 2 ^ 32 - 2 ^ 31.

(** [a << n] and [a | b] on integers. *)
Definition js_shl (a n : Z) : Z := to_int32 (Z.shiftl (to_int32 a) (Z.land n 31)).
Definition js_or (a b : Z) : Z := Z.lor (to_int32 a) (to_int32 b).

(** [str.charCodeAt(i)] for each [i] below [str.length], in order.  A string
    is the sequence of its code units, and the code units of a [string] are
    those up to 255 (the alphabet of [nanoid] is within ASCII). *)
Definition char_codes (str : string) : list Z :=
  map (fun a => Z.of_nat (Ascii.nat_of_ascii a)) (String.list_ascii_of_string str).

(** One round of the loop of [hashString]:
    [h = (h << 5) - h + str.charCodeAt(i); h |= 0].  The sum is exact in
    double arithmetic (it is below 2^33 in absolute value). *)
Definition hash_round (h c : Z) : Z := js_or (js_shl h 5 - h + c) 0.

(** [hashString(str)] *)
Definition hashString (str : string) : Z :=
  Z.abs (fold_left hash_round (char_codes str) 0).

Definition USER_COLORS : list string :=
  ["#ff6b6b"; "#f06595"; "#845ef7"; "#5c7cfa"; "#339af0";
   "#22b8cf"; "#12b886"; "#51cf66"; "#ffd43b"; "#ffa94d"]%string.

(** [a[i]] for an array of strings and an integer [i]: undefined out of
    range. *)
Definition array_get (a : list string) (i : Z) : value :=
  if i <? 0 then VUndefined else default VUndefined (VStr <$> a !! Z.to_nat i).

(** [assignColor(index)], with [%] the remainder that has the sign of the
    dividend. *)
Definition assignColor (index : Z) : value :=
  array_get USER_COLORS (Z.rem index (Z.of_nat (length USER_COLORS))).

(** The hash of Java's [String.hashCode], before it is wrapped to 32 bits. *)
Definition poly31 (codes : list Z) : Z := fold_left (fun h c => 31 * h + c) codes 0.

(** ** [server.js]: what goes out *)

(** Whom an emission is for: [socket.emit], [socket.to(roomId).emit] (the
    room but for the sender) and [io.in(roomId).emit] (the whole room). *)
Inductive audience :=
| ToSocket (socket : string)
| ToOthers (roomId : string) (sender : string)
| ToRoom (roomId : string).

(** What an emission carries.  The transport serialises the data when
    [emit] is called, so a snapshot goes out with the operations its array
    holds at that moment. *)
Record wire_snapshot := mkWire {
  wire_version : Z;
  wire_operations : list value
}.

Inductive payload :=
| PInit (u : user) (snap : wire_snapshot) (us : list user)
| PUser (u : user)
| PUserId (userId : string)
| PValue (v : value)
| PSnapshot (snap : wire_snapshot)
| PReaction (id userId emoji : string) (ts : Z)
| PMessage (message : string)
| PResult (ok : bool) (removed : Z) (version : Z).

Inductive sent :=
| Emit (to : audience) (event : string) (data : payload)
| Ack (socket : string) (data : payload).

(** The server: the room manager and what it has sent so far. *)
Record server := mkServer {
  manager : RoomManager;
  outbox : list sent
}.

(** A handler body. *)
Definition G (A : Type) : Type := server → outcome A * server.

#[global] Instance G_ret : MRet G := fun A a srv => (Return a, srv).
#[global] Instance G_bind : MBind G := fun A B f m srv =>
  match m srv with
  | (Return a, srv') => f a srv'
  | (Throw e, srv') => (Throw e, srv')
  end.

(** [try { body } catch (err) { handler(err) }] *)
Definition try_catch {A} (body : G A) (handler : error → G A) : G A := fun srv =>
  match body srv with
  | (Throw e, srv') => handler e srv'
  | r => r
  end.

Definition emit (to : audience) (event : string) (data : payload) : G unit := fun srv =>
  (Return tt, mkServer (manager srv) (outbox srv ++ [Emit to event data])).

(** [if (typeof ack === 'function') ack(data)] *)
Definition acknowledge (ack_is_function : bool) (socket : string) (data : payload) : G unit :=
  fun srv =>
    (Return tt,
     if ack_is_function then mkServer (manager srv) (outbox srv ++ [Ack socket data])
     else srv).

(** A call of a method of [roomManager]. *)
Definition roomManager {A} (method : RoomManager → outcome A * RoomManager) : G A :=
  fun srv =>
    let '(o, rm) := method (manager srv) in (o, mkServer rm (outbox srv)).

(** [roomManager.getState(roomId)]: the drawing state of the room.  The
    object is the one the room record holds, so it is referred to by the
    room's id and a method called on it updates the room's record. *)
Definition the_state (roomId : string) : G string :=
  roomManager (getState roomId);; mret roomId.

(** [state.method(...)] for the drawing state of a room. *)
Definition invoke {A} (state_of_room : string) (method : M A) : G A := fun srv =>
  match room_get state_of_room (manager srv) with
  | Throw e => (Throw e, srv)
  | Return room =>
      let '(o, s) := method (mkStore (room_arrays (manager srv)) (state room)) in
      (o,
       mkServer
         (mkRoomManager (arrays s)
            (<[state_of_room := mkRoom (this s) (users room)]> (rooms (manager srv))))
         (outbox srv))
  end.

(** A snapshot as it goes on the wire. *)
Definition on_wire (sn : snapshot) : G wire_snapshot := fun srv =>
  (Return (mkWire (snap_version sn)
             (read (room_arrays (manager srv)) (snap_operations sn))), srv).

(** [err?.message || "Invalid operation"] *)
Definition message_of (err : error) : string :=
  let message := match err with Error m | TypeError m => m end in
  if bool_decide (message = ""%string) then "Invalid operation"%string else message.

(** ** [server.js]: the handlers of a connection *)

(** [{ ...v }]: the own enumerable properties of a value.  An object has its
    properties, an array and a string have their indices, every other value
    has none. *)
Definition spread (v : value) : gmap string value :=
  match v with
  | VObj props => props
  | VArr elems => list_to_map (imap (fun i x => (pretty i, x)) elems)
  | VStr s =>
      list_to_map (imap (fun i a => (pretty i, VStr (String a EmptyString)))
                     (String.list_ascii_of_string s))
  | _ => ∅
  end.

(** [{ ...op, id, userId, timestamp }] *)
Definition stamp (op : value) (id : string) (author : string) (now : Z) : value :=
  VObj (<["timestamp" := VNum (js_int now)]>
         (<["userId" := VStr author]> (<["id" := VStr id]> (spread op)))).

(** [{ userId, ...payload }] *)
Definition tag_with_sender (sender : string) (data : value) : value :=
  VObj (spread data ∪ {["userId" := VStr sender]}).

(** What the handlers of a connection close over: the socket (its id), the
    room and the identity minted for it. *)
Record connection := mkConnection {
  socket_id : string;
  room_of : string;
  user_of : string
}.

(** [(socket.handshake.query.roomId || "lobby").toString()], for a query
    that has one [roomId] or none. *)
Definition room_of_query (roomId : option string) : string :=
  match roomId with
  | Some r => if truthy (VStr r) then r else "lobby"%string
  | None => "lobby"%string
  end.

(** The colour of a user, a string of the palette
    ([assignColor_hash_in_palette]). *)
Definition color_of (uid : string) : string :=
  match assignColor (Z.abs (hashString uid)) with VStr c => c | _ => ""%string end.

(** [io.on("connection", ...)], up to the registration of the handlers;
    [uid] is what [nanoid(8)] returned. *)
Definition on_connection (socket : string) (query_roomId : option string) (uid : string)
    : G connection :=
  let roomId := room_of_query query_roomId in
  roomManager (fun rm => (Return tt, ensureRoom roomId rm));;
  let displayName := ("Guest-" ++ String.substring 0 4 uid)%string in
  let u := mkUser uid displayName (color_of uid) in
  roomManager (join socket roomId u);;
  st ← the_state roomId;
  sn ← invoke st getSnapshot;
  us ← roomManager (getUsers roomId);
  snap ← on_wire sn;
  emit (ToSocket socket) "init" (PInit u snap us);;
  emit (ToOthers roomId socket) "presence:join" (PUser u);;
  mret (mkConnection socket roomId uid).

(** The requests of a connected client, with what the server draws from
    [nanoid] and [Date.now] when it serves them. *)
Inductive request :=
| CursorMove (data : value)
| DrawProgress (data : value)
| ShapeProgress (data : value)
| DrawCommit (op : value) (id : string) (now : Z)
| OpUndo
| OpRedo
| OpClearUser (ack_is_function : bool)
| OpClearAll (ack_is_function : bool)
| Disconnect
| Reaction (data : value) (id : string) (now : Z).

Section Handlers.
Variable c : connection.

Let socket := socket_id c.
Let roomId := room_of c.
Let uid := user_of c.

(** [socket.on("cursor:move" | "draw:progress" | "shape:progress", ...)] *)
Definition on_ephemeral (event : string) (data : value) : G unit :=
  emit (ToOthers roomId socket) event (PValue (tag_with_sender uid data)).

(** [socket.on("draw:commit", ...)] *)
Definition on_commit (op : value) (id : string) (now : Z) : G unit :=
  try_catch
    (let opWithMeta := stamp op id uid now in
     st ← the_state roomId;
     invoke st (addOperation opWithMeta);;
     emit (ToRoom roomId) "draw:commit" (PValue opWithMeta))
    (fun err => emit (ToSocket socket) "error:message" (PMessage (message_of err))).

(** [io.in(roomId).emit("state:full", state.getSnapshot())] *)
Definition broadcast_state (st : string) : G unit :=
  sn ← invoke st getSnapshot;
  snap ← on_wire sn;
  emit (ToRoom roomId) "state:full" (PSnapshot snap).

(** [socket.on("op:undo", ...)] *)
Definition on_undo : G unit :=
  st ← the_state roomId;
  ok ← invoke st undo;
  if ok : bool then broadcast_state st else mret tt.

(** [socket.on("op:redo", ...)] *)
Definition on_redo : G unit :=
  st ← the_state roomId;
  ok ← invoke st redo;
  if ok : bool then broadcast_state st else mret tt.

(** [removed > 0] for what [removeByUser] returned. *)
Definition gt_zero (r : removed_result) : bool :=
  match r with ReturnedFalse => false | Removed n => 0 <? n end.

(** [removed] as a number in the acknowledgement. *)
Definition removed_number (r : removed_result) : Z :=
  match r with ReturnedFalse => 0 | Removed n => n end.

(** [socket.on("op:clearUser", ...)] *)
Definition on_clearUser (ack_is_function : bool) : G unit :=
  st ← the_state roomId;
  removed ← invoke st (removeByUser uid);
  if gt_zero removed then
    broadcast_state st;;
    v ← invoke st this_version;
    acknowledge ack_is_function socket (PResult true (removed_number removed) v)
  else
    v ← invoke st this_version;
    acknowledge ack_is_function socket (PResult false 0 v).

(** [socket.on("op:clearAll", ...)] *)
Definition on_clearAll (ack_is_function : bool) : G unit :=
  st ← the_state roomId;
  removed ← invoke st clearAll;
  if 0 <? removed then
    broadcast_state st;;
    v ← invoke st this_version;
    acknowledge ack_is_function socket (PResult true removed v)
  else
    v ← invoke st this_version;
    acknowledge ack_is_function socket (PResult false 0 v).

(** [socket.on("disconnect", ...)] *)
Definition on_disconnect : G unit :=
  roomManager (fun rm => (Return tt, leave socket roomId rm));;
  emit (ToOthers roomId socket) "presence:leave" (PUserId uid).

(** [socket.on("reaction", ({ emoji }) => ...)]: the parameter is
    destructured, which throws on undefined and null. *)
Definition on_reaction (data : value) (id : string) (now : Z) : G unit :=
  emoji ← (fun srv => (prop data "emoji", srv));
  match emoji with
  | VStr e =>
      if negb (truthy emoji) then mret tt
      else emit (ToRoom roomId) "reaction" (PReaction id uid e now)
  | _ => mret tt
  end.

(** The handler of each event. *)
Definition handle (req : request) : G unit :=
  match req with
  | CursorMove data => on_ephemeral "cursor:move" data
  | DrawProgress data => on_ephemeral "draw:progress" data
  | ShapeProgress data => on_ephemeral "shape:progress" data
  | DrawCommit op id now => on_commit op id now
  | OpUndo => on_undo
  | OpRedo => on_redo
  | OpClearUser ack => on_clearUser ack
  | OpClearAll ack => on_clearAll ack
  | Disconnect => on_disconnect
  | Reaction data id now => on_reaction data id now
  end.

End Handlers.

(** The server when the process starts. *)
Definition server_start : server := mkServer RoomManager_new [].

(** The log of a room as its clients see it: operations, redo stack,
    version. *)
Definition log_of (rm : RoomManager) (roomId : string) : option (list value * list value * Z) :=
  room ← rooms rm !! roomId;
  Some (read (room_arrays rm) (operations (state room)),
        read (room_arrays rm) (redoStack (state room)),
        version (state room)).

(** The members of a room, in the order of the map. *)
Definition members_of (rm : RoomManager) (roomId : string) : option (list user) :=
  room ← rooms rm !! roomId; Some (Map_values (users room)).

(** The sockets that have an entry in a users map. *)
Definition Map_keys (m : users_map) : list string := fst <$> m.

(** The users map of a room, empty when there is no such room. *)
Definition room_users (rm : RoomManager) (roomId : string) : users_map :=
  default [] (users <$> rooms rm !! roomId).

(** ** The stores of the rooms *)

(** The store a method of a room's drawing state runs on. *)
Definition store_of_room (rm : RoomManager) (room : Room) : store :=
  mkStore (room_arrays rm) (state room).

(** The arrays a drawing state refers to. *)
Definition owns (st : DrawingState) (r : ref) : Prop :=
  r = operations st ∨ r = redoStack st.

(** The rooms of a manager have well-formed stores and share no array. *)
Record manager_wf (rm : RoomManager) : Prop := mkManagerWf {
  rooms_wf : ∀ k room, rooms rm !! k = Some room → wf (store_of_room rm room);
  rooms_apart : ∀ k1 k2 room1 room2 r,
    k1 ≠ k2 → rooms rm !! k1 = Some room1 → rooms rm !! k2 = Some room2 →
    owns (state room1) r → ¬ owns (state room2) r
}.

(** A store after a method ran on it: no array is lost, the arrays of the
    others are as they were, and the state refers to arrays it had or to new
    ones. *)
Record extends (s s' : store) : Prop := mkExtends {
  ext_length : (length (arrays s) ≤ length (arrays s'))%nat;
  ext_frame : ∀ r, (r < length (arrays s))%nat → ¬ owns (this s) r →
                   read (arrays s') r = read (arrays s) r;
  ext_owns : ∀ r, owns (this s') r → owns (this s) r ∨ (length (arrays s) ≤ r)%nat
}.

(** An operation as the server lets it into a log: it went through the
    validator and it carries an [id], a [userId] and a [timestamp]. *)
Definition stamped (v : value) : Prop :=
  validateOperation v = Return tt
  ∧ is_string (field v "id") = true
  ∧ is_string (field v "userId") = true
  ∧ is_number (field v "timestamp") = true.

(** A method body that keeps a store well formed, the other arrays as they
    are, and a log of stamped operations a log of stamped operations. *)
Definition safe {A} (m : M A) : Prop :=
  ∀ s, wf s →
    wf (snd (m s)) ∧ extends s (snd (m s))
    ∧ (Forall stamped (ops_of s) → Forall stamped (redo_of s) →
       Forall stamped (ops_of (snd (m s))) ∧ Forall stamped (redo_of (snd (m s)))).

(** Every operation of every log and redo stack is a stamped one. *)
Definition logs_stamped (rm : RoomManager) : Prop :=
  ∀ k ops stack v, log_of rm k = Some (ops, stack, v) →
    Forall stamped ops ∧ Forall stamped stack.

(** The log of a room, the empty log when the room is not there yet. *)
Definition log_or_empty (rm : RoomManager) (roomId : string) : list value * list value * Z :=
  default ([], [], 0) (log_of rm roomId).

(** The rooms other than [roomId] are as they were: their records and what
    their logs hold. *)
Definition others_kept (roomId : string) (rm rm' : RoomManager) : Prop :=
  ∀ k, k ≠ roomId →
    rooms rm' !! k = rooms rm !! k ∧ log_of rm' k = log_of rm k.

(** The room [roomId] of the server has store [s] and users [us]. *)
Definition room_at (srv : server) (roomId : string) (s : store) (us : users_map) : Prop :=
  rooms (manager srv) !! roomId = Some (mkRoom (this s) us)
  ∧ room_arrays (manager srv) = arrays s.

(** What a step of the server on behalf of room [roomId] keeps: the
    invariants of the manager, the other rooms, the existence of rooms, and
    what was sent before. *)
Record kept (roomId : string) (srv srv' : server) : Prop := mkKept {
  kept_wf : manager_wf (manager srv');
  kept_stamped : logs_stamped (manager srv) → logs_stamped (manager srv');
  kept_others : others_kept roomId (manager srv) (manager srv');
  kept_rooms : ∀ k, is_Some (rooms (manager srv) !! k) → is_Some (rooms (manager srv') !! k);
  kept_outbox : ∃ new, outbox srv' = outbox srv ++ new
}.

Definition preserved {A} (roomId : string) (g : G A) : Prop :=
  ∀ srv, manager_wf (manager srv) → kept roomId srv (snd (g srv)).

(** The servers a run of the process goes through: connections are accepted
    and the requests of the connections are served. *)
Inductive running : server → Prop :=
| running_start : running server_start
| running_connection socket q uid srv :
    running srv → running (snd (on_connection socket q uid srv))
| running_request c req srv :
    running srv → running (snd (handle c req srv)).

(** ** A sample run *)

(** A circle, as a client sends it; the [userId] it claims is not its own. *)
Definition sample_circle : value :=
  obj [("type", VStr "shape"); ("shape", VStr "circle");
       ("x", VNum (js_int 0)); ("y", VNum (js_int 0));
       ("width", VNum (js_int 10)); ("height", VNum (js_int 10));
       ("color", VStr "#f00"); ("userId", VStr "mallory")]%string.

(** Two connections to the lobby. *)
Definition alice : connection := mkConnection "s1" "lobby" "alice".
Definition bob : connection := mkConnection "s2" "lobby" "bob".

(** The server after alice and bob connected and alice committed the
    circle, and the same after an undo. *)
Definition server_one : server :=
  snd (handle alice (DrawCommit sample_circle "op-1" 1700000000000)
         (snd (on_connection "s2" None "bob"
                 (snd (on_connection "s1" None "alice" server_start))))).
Definition server_undone : server := snd (handle bob OpUndo server_one).

(** ** Proof steps *)

(** Running the binds of a computation whose head has returned or thrown. *)
Ltac run_outcome := cbn [mbind outcome_bind mret outcome_ret throw_if].

(** Running a method body down to its reads and writes of the store. *)
Ltac run_M :=
  cbv beta iota zeta delta
    [mbind M_bind mret M_ret pure
     this_operations this_redoStack this_version
     set_operations set_redoStack set_version bump_version
     new_array elements arr_length push pop truncate];
  cbn [arrays this operations redoStack version fst snd].

(** * Properties *)

(** ** Numbers *)

Lemma gt_zero_not_le_zero (n : spec_float) : js_gt n zero = true → js_le n zero = false.
Proof. by destruct n as [[]|[]| |[] m e]. Qed.

(** The two size tests differ at NaN only. *)
Lemma le_zero_or_gt_zero (n : spec_float) :
  n ≠ S754_nan → js_le n zero = negb (js_gt n zero).
Proof. by destruct n as [[]|[]| |[] m e]. Qed.

Lemma nan_neither : js_le S754_nan zero = false ∧ js_gt S754_nan zero = false.
Proof. done. Qed.

(** ** Reading and writing the store *)

Lemma read_write_eq (h : heap) r l : (r < length h)%nat → read (write h r l) r = l.
Proof. intros Hr. unfold read, write. by rewrite list_lookup_insert_eq. Qed.

Lemma read_write_ne (h : heap) r r' l : r ≠ r' → read (write h r l) r' = read h r'.
Proof. intros Hr. unfold read, write. by rewrite list_lookup_insert_ne. Qed.

Lemma length_write (h : heap) r l : length (write h r l) = length h.
Proof. apply length_insert. Qed.

Lemma read_app_l (h h' : heap) r : (r < length h)%nat → read (h ++ h') r = read h r.
Proof. intros Hr. unfold read. by rewrite lookup_app_l. Qed.

Lemma read_app_new (h : heap) l : read (h ++ [l]) (length h) = l.
Proof. unfold read. by rewrite list_lookup_middle. Qed.

(** ** The validator *)

Lemma prop_truthy (op : value) k : truthy op = true → prop op k = Return (field op k).
Proof. by destruct op. Qed.

Lemma prop_not_nullish (op : value) k : nullish op = false → prop op k = Return (field op k).
Proof. by destruct op. Qed.

Lemma truthy_not_nullish (op : value) : truthy op = true → nullish op = false.
Proof. by destruct op. Qed.

(** Only a truthy value gets through the validator. *)
Lemma validateOperation_truthy (op : value) :
  validateOperation op = Return tt → truthy op = true.
Proof. unfold validateOperation. by destruct (truthy op). Qed.

(** The validator on a truthy value, with the property reads done. *)
Lemma validateOperation_fields (op : value) :
  truthy op = true →
  validateOperation op =
    if strict_eq_str (field op "type") "stroke" then validate_stroke op
    else if strict_eq_str (field op "type") "shape" then validate_shape op
    else if strict_eq_str (field op "type") "shape:update" then validate_shape_update op
    else Throw (Error "Unsupported operation type").
Proof.
  intros Ht. unfold validateOperation. rewrite Ht, (prop_truthy _ _ Ht). done.
Qed.

(** The rules and the validator read the same tags and tokens. *)
Lemma tagged_strict_eq tag op : Rules.tagged tag op = strict_eq_str (field op "type") tag.
Proof. done. Qed.

Lemma tagged_truthy tag op : Rules.tagged tag op = true → truthy op = true.
Proof. unfold Rules.tagged. by destruct op. Qed.

Lemma one_of_composite v :
  Rules.one_of ["source-over"; "destination-out"]%string v
  = strict_eq_str v "source-over" || strict_eq_str v "destination-out".
Proof.
  destruct v as [| | | |t| |]; try done. cbn [Rules.one_of strict_eq_str].
  rewrite <- bool_decide_or. apply bool_decide_ext.
  rewrite !elem_of_cons, elem_of_nil. tauto.
Qed.

Lemma one_of_kind v :
  Rules.one_of ["circle"; "square"; "triangle"]%string v = Set_has allowed v.
Proof.
  destruct v as [| | | |t| |]; try done. cbn [Rules.one_of Set_has]. unfold allowed.
  apply bool_decide_ext.
  rewrite !elem_of_union, !elem_of_singleton, !elem_of_cons, elem_of_nil. tauto.
Qed.

Lemma at_least_two_points_spec v :
  Rules.at_least_two_points v = negb (negb (isArray v) || (array_length v <? 2)).
Proof.
  destruct v as [| | | | |l|]; try done. simpl.
  case_bool_decide; destruct (Z.ltb_spec (Z.of_nat (length l)) 2); try done; lia.
Qed.

Lemma non_empty_string_spec v :
  Rules.non_empty_string v = negb (negb (is_string v) || (string_length v =? 0)).
Proof.
  destruct v as [| | | |t| |]; try done. simpl.
  destruct t; by simpl.
Qed.

Lemma positive_number_gt v : Rules.positive_number v = number_gt_zero v.
Proof. done. Qed.

Lemma positive_number_not_le v :
  Rules.positive_number v = true → not_number_or_le_zero v = false.
Proof. destruct v; try done. simpl. apply gt_zero_not_le_zero. Qed.

(** Every candidate that satisfies the rules gets through the validator. *)
Lemma valid_validateOperation (op : value) :
  Rules.valid op = true → validateOperation op = Return tt.
Proof.
  unfold Rules.valid, Rules.candidate_of. intros Hv.
  assert (Ht : truthy op = true).
  { destruct (Rules.tagged "stroke" op) eqn:E1; [by eapply tagged_truthy|].
    destruct (Rules.tagged "shape" op) eqn:E2; [by eapply tagged_truthy|].
    destruct (Rules.tagged "shape:update" op) eqn:E3; [by eapply tagged_truthy|].
    done. }
  rewrite (validateOperation_fields _ Ht), <- !tagged_strict_eq.
  destruct (Rules.tagged "stroke" op).
  { simpl in Hv. unfold validate_stroke. rewrite !(prop_truthy _ _ Ht).
    rewrite at_least_two_points_spec, one_of_composite in Hv.
    repeat (apply andb_prop in Hv as [Hv ?]).
    apply negb_true_iff in Hv. run_outcome. rewrite Hv. run_outcome.
    rewrite positive_number_not_le by done. run_outcome.
    destruct (is_string (field op "color")); [run_outcome|done].
    by destruct (strict_eq_str _ "source-over"), (strict_eq_str _ "destination-out"). }
  destruct (Rules.tagged "shape" op).
  { simpl in Hv. unfold validate_shape. rewrite !(prop_truthy _ _ Ht).
    rewrite one_of_kind in Hv. unfold Rules.position_pair, Rules.dimension_pair in Hv.
    change Rules.positive_number with number_gt_zero in Hv.
    repeat (apply andb_prop in Hv as [Hv ?]).
    run_outcome. rewrite Hv. run_outcome.
    destruct (is_number (field op "x")), (is_number (field op "y")); try done.
    run_outcome.
    destruct (number_gt_zero (field op "size")),
      (number_gt_zero (field op "width")), (number_gt_zero (field op "height")),
      (is_string (field op "color")); simpl in *; done. }
  destruct (Rules.tagged "shape:update" op); [|done].
  simpl in Hv. unfold validate_shape_update. rewrite !(prop_truthy _ _ Ht).
  rewrite non_empty_string_spec in Hv.
  unfold Rules.position_pair, Rules.dimension_pair in Hv.
  change Rules.positive_number with number_gt_zero in Hv.
  apply andb_prop in Hv as [Hv ?]. apply negb_true_iff in Hv.
  run_outcome. rewrite Hv. run_outcome.
  destruct (is_number (field op "x")), (is_number (field op "y")),
    (number_gt_zero (field op "width")), (number_gt_zero (field op "height")),
    (is_string (field op "color")); simpl in *; done.
Qed.

Lemma length_eqb_zero {A} (l : list A) : (Z.of_nat (length l) =? 0) = bool_decide (l = []).
Proof. by destruct l. Qed.

Lemma length_pos {A} (l : list A) : (0 <? Z.of_nat (length l)) = negb (bool_decide (l = [])).
Proof. by destruct l. Qed.

(** ** The methods, as functions on the store *)

Section Methods.
Variable s : store.

Let ops := operations (this s).
Let stack := redoStack (this s).

Lemma addOperation_throws op e :
  validateOperation op = Throw e → addOperation op s = (Throw e, s).
Proof. intros Hv. unfold addOperation. run_M. by rewrite Hv. Qed.

Lemma addOperation_returns op :
  validateOperation op = Return tt →
  addOperation op s =
    (Return tt,
     mkStore (write (write (arrays s) ops (read (arrays s) ops ++ [op])) stack [])
             (mkDrawingState ops stack (version (this s) + 1))).
Proof. intros Hv. unfold addOperation. run_M. by rewrite Hv. Qed.

Lemma undo_empty : read (arrays s) ops = [] → undo s = (Return false, s).
Proof. intros He. unfold undo. run_M. fold ops. by rewrite He. Qed.

Lemma undo_nonempty :
  read (arrays s) ops ≠ [] →
  undo s =
    (Return true,
     let h := write (arrays s) ops (removelast (read (arrays s) ops)) in
     mkStore (write h stack
                (read h stack ++ [default VUndefined (last (read (arrays s) ops))]))
             (mkDrawingState ops stack (version (this s) + 1))).
Proof.
  intros Hne. unfold undo. run_M. fold ops stack.
  by rewrite length_eqb_zero, bool_decide_eq_false_2.
Qed.

Lemma redo_empty : read (arrays s) stack = [] → redo s = (Return false, s).
Proof. intros He. unfold redo. run_M. fold stack. by rewrite He. Qed.

Lemma redo_nonempty :
  read (arrays s) stack ≠ [] →
  redo s =
    (Return true,
     let h := write (arrays s) stack (removelast (read (arrays s) stack)) in
     mkStore (write h ops
                (read h ops ++ [default VUndefined (last (read (arrays s) stack))]))
             (mkDrawingState ops stack (version (this s) + 1))).
Proof.
  intros Hne. unfold redo. run_M. fold ops stack.
  by rewrite length_eqb_zero, bool_decide_eq_false_2.
Qed.

Lemma getSnapshot_returns :
  getSnapshot s = (Return (mkSnapshot (version (this s)) ops), s).
Proof. done. Qed.

Lemma clearAll_returns :
  clearAll s =
    (Return (Z.of_nat (length (read (arrays s) ops))),
     mkStore (arrays s ++ [[]] ++ [[]])
       (mkDrawingState (length (arrays s)) (S (length (arrays s)))
          (if 0 <? Z.of_nat (length (read (arrays s) ops))
           then version (this s) + 1 else version (this s)))).
Proof.
  unfold clearAll. run_M. fold ops.
  rewrite length_app, <- app_assoc. cbn. rewrite Nat.add_1_r.
  by destruct (0 <? _).
Qed.

Lemma removeByUser_falsy : removeByUser "" s = (Return ReturnedFalse, s).
Proof. done. Qed.
End Methods.

Lemma store_eta (s : store) : mkStore (arrays s) (this s) = s.
Proof. by destruct s. Qed.

Lemma write_read_id (h : heap) r : (r < length h)%nat → write h r (read h r) = h.
Proof.
  intros Hr. unfold read, write.
  destruct (lookup_lt_is_Some_2 h r Hr) as [l Hl]. rewrite Hl. by apply list_insert_id.
Qed.

Lemma write_write (h : heap) r l l' : write (write h r l) r l' = write h r l'.
Proof. apply list_insert_insert_eq. Qed.

Lemma for_of_cons x xs (body : value → M unit) s :
  for_of (x :: xs) body s =
    match body x s with
    | (Return _, s') => for_of xs body s'
    | (Throw e, s') => (Throw e, s')
    end.
Proof. done. Qed.

Lemma push_unless_author_run u r x s :
  nullish x = false →
  push_unless_author u r x s =
    (Return tt,
     if authored_by u x then s
     else mkStore (write (arrays s) r (read (arrays s) r ++ [x])) (this s)).
Proof.
  intros Hx. unfold push_unless_author. run_M.
  rewrite (prop_not_nullish _ _ Hx). fold (authored_by u x).
  by destruct (authored_by u x).
Qed.

(** The loop of [removeByUser] pushes onto [remaining], in order, the
    operations whose author is not [u]. *)
Lemma for_of_push_kept u r xs s :
  Forall (λ v, nullish v = false) xs →
  (r < length (arrays s))%nat →
  for_of xs (push_unless_author u r) s
  = (Return tt,
     mkStore (write (arrays s) r (read (arrays s) r ++ without_author u xs)) (this s)).
Proof.
  intros Hxs. revert s. induction Hxs as [|x xs Hx Hxs IH]; intros s Hr.
  - cbn [for_of without_author List.filter]. run_M.
    by rewrite app_nil_r, write_read_id, store_eta.
  - rewrite for_of_cons, (push_unless_author_run _ _ _ _ Hx).
    cbn [without_author List.filter].
    destruct (authored_by u x); cbn [negb].
    + by apply IH.
    + rewrite IH by (cbn; by rewrite length_write).
      cbn [arrays this]. rewrite read_write_eq, write_write, <- app_assoc by done. done.
Qed.

Lemma length_without_author u l : (length (without_author u l) ≤ length l)%nat.
Proof. apply List.filter_length_le. Qed.

Lemma truthy_userId u : u ≠ ""%string → negb (truthy (VStr u)) = false.
Proof. intros Hu. cbn. by rewrite bool_decide_eq_false_2. Qed.

(** [removeByUser] with a userId that is not the empty string. *)
Lemma removeByUser_returns u s :
  u ≠ ""%string → wf s →
  removeByUser u s =
    let h := arrays s in
    let kept := without_author u (ops_of s) in
    let removed := Z.of_nat (length (ops_of s)) - Z.of_nat (length kept) in
    (Return (Removed removed),
     mkStore (write (write (h ++ [[]]) (length h) kept) (redoStack (this s)) [])
       (mkDrawingState (length h) (redoStack (this s))
          (if 0 <? removed then version (this s) + 1 else version (this s)))).
Proof.
  intros Hu [Ho Hr Hd Hov Hrv]. unfold removeByUser. rewrite (truthy_userId _ Hu).
  run_M. rewrite (read_app_l _ _ _ Ho). fold (ops_of s).
  rewrite for_of_push_kept by (done || (cbn; rewrite length_app; cbn; lia)).
  cbn [arrays this]. rewrite read_app_new, app_nil_l.
  rewrite read_write_eq by (rewrite length_app; cbn; lia).
  pose proof (length_without_author u (ops_of s)) as Hle.
  destruct (Z.ltb_spec 0 (Z.of_nat (length (ops_of s))
                          - Z.of_nat (length (without_author u (ops_of s))))) as [Hpos|Hzero].
  - done.
  - cbn zeta. repeat f_equal. lia.
Qed.

(** ** What the callers of a log see after each method *)

Section Views.
Variable s : store.
Hypothesis Hwf : wf s.

Lemma addOperation_view op :
  validateOperation op = Return tt →
  let r := addOperation op s in
  fst r = Return tt ∧ ops_of (snd r) = ops_of s ++ [op] ∧ redo_of (snd r) = []
  ∧ version_of (snd r) = version_of s + 1 ∧ wf (snd r).
Proof.
  intros Hv. destruct Hwf as [Ho Hr Hd Hov Hrv].
  rewrite (addOperation_returns _ _ Hv). cbn zeta. cbn [fst snd].
  assert (Hops : ops_of (mkStore
      (write (write (arrays s) (operations (this s))
                (read (arrays s) (operations (this s)) ++ [op]))
             (redoStack (this s)) [])
      (mkDrawingState (operations (this s)) (redoStack (this s))
         (version (this s) + 1))) = ops_of s ++ [op]).
  { unfold ops_of. cbn [arrays this operations].
    by rewrite read_write_ne, read_write_eq. }
  assert (Hredo : redo_of (mkStore
      (write (write (arrays s) (operations (this s))
                (read (arrays s) (operations (this s)) ++ [op]))
             (redoStack (this s)) [])
      (mkDrawingState (operations (this s)) (redoStack (this s))
         (version (this s) + 1))) = []).
  { unfold redo_of. cbn [arrays this redoStack].
    by rewrite read_write_eq by (by rewrite length_write). }
  split_and!; try done.
  split; cbn [arrays this operations redoStack];
    rewrite ?length_write; try done.
  - rewrite Hops. apply Forall_app. split; [done|].
    constructor; [|done]. by apply truthy_not_nullish, validateOperation_truthy.
  - by rewrite Hredo.
Qed.

Lemma undo_view :
  ops_of s ≠ [] →
  let r := undo s in
  fst r = Return true ∧ ops_of (snd r) = removelast (ops_of s)
  ∧ redo_of (snd r) = redo_of s ++ [default VUndefined (last (ops_of s))]
  ∧ version_of (snd r) = version_of s + 1 ∧ wf (snd r).
Proof.
  intros Hne. destruct Hwf as [Ho Hr Hd Hov Hrv].
  rewrite (undo_nonempty _ Hne). cbn zeta. cbn [fst snd].
  set (s' := mkStore _ _).
  assert (Hops : ops_of s' = removelast (ops_of s)).
  { unfold ops_of, s'. cbn [arrays this operations].
    by rewrite read_write_ne, read_write_eq. }
  assert (Hredo : redo_of s' = redo_of s ++ [default VUndefined (last (ops_of s))]).
  { unfold redo_of, s'. cbn [arrays this redoStack].
    by rewrite read_write_eq, read_write_ne by (by rewrite ?length_write). }
  split_and!; try done.
  destruct (exists_last Hne) as (l & x & Hl).
  subst s'. split; cbn [arrays this operations redoStack];
    rewrite ?length_write; try done.
  - rewrite Hops, Hl, removelast_last. rewrite Hl in Hov.
    by apply Forall_app in Hov as [? _].
  - rewrite Hredo, Hl, last_snoc. rewrite Hl in Hov.
    apply Forall_app in Hov as [_ Hx]. apply Forall_app. split; [done|]. done.
Qed.

Lemma redo_view :
  redo_of s ≠ [] →
  let r := redo s in
  fst r = Return true ∧ redo_of (snd r) = removelast (redo_of s)
  ∧ ops_of (snd r) = ops_of s ++ [default VUndefined (last (redo_of s))]
  ∧ version_of (snd r) = version_of s + 1 ∧ wf (snd r).
Proof.
  intros Hne. destruct Hwf as [Ho Hr Hd Hov Hrv].
  rewrite (redo_nonempty _ Hne). cbn zeta. cbn [fst snd].
  set (s' := mkStore _ _).
  assert (Hredo : redo_of s' = removelast (redo_of s)).
  { unfold redo_of, s'. cbn [arrays this redoStack].
    by rewrite read_write_ne, read_write_eq. }
  assert (Hops : ops_of s' = ops_of s ++ [default VUndefined (last (redo_of s))]).
  { unfold ops_of, s'. cbn [arrays this operations].
    by rewrite read_write_eq, read_write_ne by (by rewrite ?length_write). }
  split_and!; try done.
  destruct (exists_last Hne) as (l & x & Hl).
  subst s'. split; cbn [arrays this operations redoStack];
    rewrite ?length_write; try done.
  - rewrite Hops, Hl, last_snoc. rewrite Hl in Hrv.
    apply Forall_app in Hrv as [_ Hx]. apply Forall_app. split; [done|]. done.
  - rewrite Hredo, Hl, removelast_last. rewrite Hl in Hrv.
    by apply Forall_app in Hrv as [? _].
Qed.
End Views.

Section MoreViews.
Variable s : store.
Hypothesis Hwf : wf s.

Lemma Forall_without_author (P : value → Prop) u l :
  Forall P l → Forall P (without_author u l).
Proof.
  intros Hl. apply List.Forall_forall. intros x Hx.
  apply List.filter_In in Hx as [Hx _]. by eapply List.Forall_forall in Hl.
Qed.

(** [removeByUser] installs a new array; the array [operations] referred
    to before the call keeps its contents. *)
Lemma removeByUser_view u :
  u ≠ ""%string →
  let r := removeByUser u s in
  let removed := Z.of_nat (length (ops_of s))
                 - Z.of_nat (length (without_author u (ops_of s))) in
  fst r = Return (Removed removed)
  ∧ ops_of (snd r) = without_author u (ops_of s)
  ∧ redo_of (snd r) = []
  ∧ version_of (snd r) = (if 0 <? removed then version_of s + 1 else version_of s)
  ∧ read (arrays (snd r)) (operations (this s)) = ops_of s
  ∧ wf (snd r).
Proof.
  intros Hu. rewrite (removeByUser_returns _ _ Hu Hwf).
  destruct Hwf as [Ho Hr Hd Hov Hrv]. cbn zeta. cbn [fst snd].
  set (s' := mkStore _ _).
  assert (Hlen : length (write (arrays s ++ [[]]) (length (arrays s))
                           (without_author u (ops_of s))) = S (length (arrays s))).
  { rewrite length_write, length_app. cbn. lia. }
  assert (Hops : ops_of s' = without_author u (ops_of s)).
  { unfold ops_of at 1, s'. cbn [arrays this operations].
    rewrite read_write_ne by lia.
    apply read_write_eq. rewrite length_app. cbn. lia. }
  assert (Hredo : redo_of s' = []).
  { unfold redo_of, s'. cbn [arrays this redoStack].
    apply read_write_eq. lia. }
  split_and!; try done.
  - unfold s'. cbn [arrays]. rewrite !read_write_ne by lia.
    by rewrite read_app_l.
  - subst s'. split; cbn [arrays this operations redoStack];
      rewrite ?length_write, ?length_app; cbn [length]; try lia.
    + rewrite Hops. by apply Forall_without_author.
    + by rewrite Hredo.
Qed.

(** [clearAll] installs two new arrays; the array [operations] referred
    to before the call keeps its contents. *)
Lemma clearAll_view :
  let r := clearAll s in
  fst r = Return (Z.of_nat (length (ops_of s)))
  ∧ ops_of (snd r) = []
  ∧ redo_of (snd r) = []
  ∧ version_of (snd r)
    = (if bool_decide (ops_of s = []) then version_of s else version_of s + 1)
  ∧ read (arrays (snd r)) (operations (this s)) = ops_of s
  ∧ wf (snd r).
Proof.
  rewrite clearAll_returns. destruct Hwf as [Ho Hr Hd Hov Hrv].
  cbn zeta. cbn [fst snd]. fold (ops_of s).
  set (s' := mkStore _ _).
  assert (Hops : ops_of s' = []).
  { unfold ops_of, s'. cbn [arrays this operations].
    rewrite app_assoc, read_app_l by (rewrite length_app; cbn; lia).
    apply read_app_new. }
  assert (Hredo : redo_of s' = []).
  { unfold redo_of, s'. cbn [arrays this redoStack].
    rewrite app_assoc.
    replace (S (length (arrays s))) with (length (arrays s ++ [[]]))
      by (rewrite length_app; cbn; lia).
    apply read_app_new. }
  split_and!; try done.
  - unfold version_of, s'. cbn [this version]. rewrite length_pos.
    by destruct (bool_decide (ops_of s = [])).
  - unfold s'. cbn [arrays]. by rewrite read_app_l.
  - subst s'. split; cbn [arrays this operations redoStack];
      rewrite ?length_app; cbn [length]; try lia.
    + by rewrite Hops.
    + by rewrite Hredo.
Qed.
End MoreViews.

(** ** Well-formed stores are what the methods produce *)

Lemma wf_store_of ops stack v :
  Forall (λ x, nullish x = false) ops → Forall (λ x, nullish x = false) stack →
  wf (store_of ops stack v).
Proof. intros Ho Hs. split; cbn; try lia; done. Qed.

Lemma wf_initial_store : wf initial_store.
Proof. split; cbn; try lia; done. Qed.

Lemma wf_run c s : wf s → wf (run c s).
Proof.
  intros Hwf. destruct c as [op| | |u| |]; cbn [run].
  - destruct (validateOperation op) as [[]|e] eqn:Hv.
    + by apply addOperation_view.
    + by rewrite (addOperation_throws _ _ _ Hv).
  - destruct (decide (ops_of s = [])) as [He|Hne].
    + by rewrite (undo_empty _ He).
    + by apply undo_view.
  - destruct (decide (redo_of s = [])) as [He|Hne].
    + by rewrite (redo_empty _ He).
    + by apply redo_view.
  - destruct (decide (u = ""%string)) as [->|Hu].
    + by rewrite removeByUser_falsy.
    + by apply removeByUser_view.
  - by apply clearAll_view.
  - done.
Qed.

(** ** The validator against the rules *)

(** What the validator lets through satisfies the rules, but for a stroke
    whose size is NaN: [NaN <= 0] is false, so the size test of a stroke
    does not throw (the tests of a shape, [size > 0], reject NaN). *)
Lemma validateOperation_valid_or_nan (op : value) :
  validateOperation op = Return tt →
  Rules.valid op = true
  ∨ (Rules.tagged "stroke" op = true ∧ field op "size" = VNum S754_nan).
Proof.
  intros Hv. pose proof (validateOperation_truthy _ Hv) as Ht.
  rewrite (validateOperation_fields _ Ht), <- !tagged_strict_eq in Hv.
  unfold Rules.valid, Rules.candidate_of.
  destruct (Rules.tagged "stroke" op) eqn:E1.
  { unfold validate_stroke in Hv. rewrite !(prop_truthy _ _ Ht) in Hv.
    cbn [mbind outcome_bind mret outcome_ret] in Hv.
    cbn [Rules.holds]. rewrite at_least_two_points_spec, one_of_composite.
    destruct (negb (isArray (field op "points")) || _); [done|].
    cbn [throw_if outcome_bind mbind] in Hv.
    destruct (field op "size") as [| | |n| | |]; try done.
    cbn [not_number_or_le_zero] in Hv.
    destruct (js_le n zero) eqn:Hle; [done|].
    assert (Hn : n = S754_nan ∨ Rules.positive_number (VNum n) = true).
    { destruct n as [[]|[]| |[] m e]; try done; by (left + right). }
    cbn [throw_if outcome_bind mbind] in Hv.
    destruct (is_string (field op "color")); [|done].
    cbn [negb throw_if outcome_bind mbind] in Hv.
    destruct (strict_eq_str _ "source-over"), (strict_eq_str _ "destination-out");
      try done; cbn [negb andb orb];
      (destruct Hn as [->|Hn]; [by right|left; by rewrite Hn]). }
  left. destruct (Rules.tagged "shape" op) eqn:E2.
  { unfold validate_shape in Hv. rewrite !(prop_truthy _ _ Ht) in Hv.
    cbn [mbind outcome_bind mret outcome_ret] in Hv.
    cbn [Rules.holds]. rewrite one_of_kind.
    unfold Rules.position_pair, Rules.dimension_pair.
    change Rules.positive_number with number_gt_zero.
    destruct (Set_has allowed _); [|done].
    cbn [negb throw_if outcome_bind mbind] in Hv.
    destruct (is_number (field op "x")), (is_number (field op "y")); try done.
    cbn [negb orb throw_if outcome_bind mbind] in Hv.
    destruct (number_gt_zero (field op "size")),
      (number_gt_zero (field op "width")), (number_gt_zero (field op "height")),
      (is_string (field op "color")); done. }
  destruct (Rules.tagged "shape:update" op) eqn:E3; [|done].
  unfold validate_shape_update in Hv. rewrite !(prop_truthy _ _ Ht) in Hv.
  cbn [mbind outcome_bind mret outcome_ret] in Hv.
  cbn [Rules.holds]. rewrite non_empty_string_spec.
  unfold Rules.position_pair, Rules.dimension_pair.
  change Rules.positive_number with number_gt_zero.
  destruct (negb (is_string (field op "targetId")) || _); [done|].
  cbn [negb throw_if outcome_bind mbind] in Hv.
  destruct (is_number (field op "x")), (is_number (field op "y")),
    (number_gt_zero (field op "width")), (number_gt_zero (field op "height")),
    (is_string (field op "color")); done.
Qed.


(** No property of a JSON value is NaN, and an object literal of JSON
    values is a JSON value. *)
Lemma json_field_not_nan (op : value) (k : string) :
  json op → field op k ≠ VNum S754_nan.
Proof.
  intros Hjson Hk. destruct Hjson as [| | | | |props Hprops]; try discriminate.
  cbn [field] in Hk. destruct (props !! k) as [v|] eqn:Hv; [|discriminate].
  cbn in Hk. subst v. apply Hprops in Hv. inversion Hv. discriminate.
Qed.


(** The candidates the specification lists as invalid are rejected. *)
Example one_point_stroke_rejected :
  validateOperation one_point_stroke
  = Throw (Error "Stroke must contain at least two points").
Proof. vm_compute. reflexivity. Qed.

Example hexagon_rejected :
  validateOperation hexagon = Throw (Error "Invalid shape type").
Proof. vm_compute. reflexivity. Qed.

Example untargeted_update_rejected :
  validateOperation untargeted_update = Throw (Error "Missing targetId").
Proof. vm_compute. reflexivity. Qed.

Example unknown_tag_rejected :
  validateOperation unknown_tag = Throw (Error "Unsupported operation type").
Proof. vm_compute. reflexivity. Qed.

Example undefined_rejected :
  validateOperation VUndefined = Throw (Error "Empty operation").
Proof. vm_compute. reflexivity. Qed.

(** ** The validator guards the log *)

Lemma reachable_wf s : reachable s → wf s.
Proof. induction 1; [apply wf_initial_store|by apply wf_run]. Qed.

(** Whatever is in [operations] or in [redoStack] went through the
    validator. *)
Lemma reachable_validated s :
  reachable s →
  Forall (λ op, validateOperation op = Return tt) (ops_of s)
  ∧ Forall (λ op, validateOperation op = Return tt) (redo_of s).
Proof.
  induction 1 as [|c s Hreach [IHo IHr]]; [by split; vm_compute|].
  pose proof (reachable_wf _ Hreach) as Hwf.
  destruct c as [op| | |u| |]; cbn [run].
  - destruct (validateOperation op) as [[]|e] eqn:Hv.
    + destruct (addOperation_view s Hwf op Hv) as (_ & -> & -> & _).
      split; [|done]. apply Forall_app. by split; [|constructor].
    + by rewrite (addOperation_throws _ _ _ Hv).
  - destruct (decide (ops_of s = [])) as [He|Hne].
    + by rewrite (undo_empty _ He).
    + destruct (undo_view s Hwf Hne) as (_ & -> & -> & _).
      destruct (exists_last Hne) as (l & x & Hl). rewrite Hl in *.
      apply Forall_app in IHo as [Hl' Hx]. rewrite removelast_last, last_snoc.
      split; [done|]. apply Forall_app. by split.
  - destruct (decide (redo_of s = [])) as [He|Hne].
    + by rewrite (redo_empty _ He).
    + destruct (redo_view s Hwf Hne) as (_ & -> & -> & _).
      destruct (exists_last Hne) as (l & x & Hl). rewrite Hl in *.
      apply Forall_app in IHr as [Hl' Hx]. rewrite removelast_last, last_snoc.
      split; [|done]. apply Forall_app. by split.
  - destruct (decide (u = ""%string)) as [->|Hu].
    + by rewrite removeByUser_falsy.
    + destruct (removeByUser_view s Hwf u Hu) as (_ & -> & -> & _).
      split; [|done]. by apply Forall_without_author.
  - by destruct (clearAll_view s Hwf) as (_ & -> & -> & _).
  - done.
Qed.

(** ** The version counter *)

Lemma for_of_this u r xs s :
  this (snd (for_of xs (push_unless_author u r) s)) = this s.
Proof.
  revert s. induction xs as [|x xs IH]; intros s; [done|].
  rewrite for_of_cons.
  destruct (push_unless_author u r x s) as [[[]|e] s1] eqn:E.
  - rewrite IH. unfold push_unless_author in E. revert E. run_M.
    destruct (prop x "userId") as [a|]; [|congruence].
    destruct (negb (strict_eq_str a u)); intros [= <-]; done.
  - unfold push_unless_author in E. revert E. run_M.
    destruct (prop x "userId") as [a|]; [|by intros [= _ <-]].
    destruct (negb (strict_eq_str a u)); done.
Qed.

(** The version after [removeByUser], whatever the store. *)
Lemma removeByUser_version u s :
  version_of (snd (removeByUser u s))
  = if 0 <? removed_count (fst (removeByUser u s))
    then version_of s + 1 else version_of s.
Proof.
  destruct (decide (u = ""%string)) as [->|Hu]; [done|].
  unfold removeByUser. rewrite (truthy_userId _ Hu). run_M.
  set (s1 := mkStore (arrays s ++ [[]]) (this s)).
  pose proof (for_of_this u (length (arrays s))
                (read (arrays s ++ [[]]) (operations (this s))) s1) as Hthis.
  destruct (for_of _ _ s1) as [[[]|e] s2]; cbn [snd] in Hthis.
  - destruct (0 <? _) eqn:Hpos; unfold version_of;
      cbn [fst snd removed_count this version]; rewrite ?Hpos, Hthis; done.
  - unfold version_of. cbn [fst snd removed_count]. by rewrite Hthis.
Qed.

(** One call: the version goes up by one on a successful mutation and stays
    as it is on every other call. *)
Lemma version_run c s :
  version_of (run c s) = if mutates c s then version_of s + 1 else version_of s.
Proof.
  destruct c as [op| | |u| |]; cbn [run mutates].
  - destruct (validateOperation op) as [[]|e] eqn:Hv; cbn [returned].
    + by rewrite (addOperation_returns _ _ Hv).
    + by rewrite (addOperation_throws _ _ _ Hv).
  - case_bool_decide as He; cbn [negb].
    + by rewrite (undo_empty _ He).
    + by rewrite (undo_nonempty _ He).
  - case_bool_decide as He; cbn [negb].
    + by rewrite (redo_empty _ He).
    + by rewrite (redo_nonempty _ He).
  - apply removeByUser_version.
  - rewrite clearAll_returns. unfold version_of at 1. cbn [snd this version].
    by rewrite length_pos.
  - done.
Qed.

(** A sequence of calls: the version counts the successful mutations. *)
Lemma version_run_all cs s :
  version_of (run_all cs s) = version_of s + mutations cs s.
Proof.
  revert s. induction cs as [|c cs IH]; intros s; cbn [run_all mutations]; [lia|].
  rewrite IH, version_run. destruct (mutates c s); lia.
Qed.

(** ** A session in the room "lobby"

    The log starts empty at version 0.  A commits a stroke: one entry,
    version 1.  A asks for an undo: empty log, version 2.  B, who drew
    nothing, asks to clear her operations: zero removed, version 2. *)
Example lobby_session :
  let s1 := run (Append sample_stroke) initial_store in
  let s2 := run Undo s1 in
  version_of initial_store = 0
  ∧ ops_of s1 = [sample_stroke] ∧ version_of s1 = 1
  ∧ ops_of s2 = [] ∧ version_of s2 = 2
  ∧ fst (removeByUser "bob" s2) = Return (Removed 0)
  ∧ version_of (snd (removeByUser "bob" s2)) = 2.
Proof. vm_compute. split_and!; reflexivity. Qed.

(** * The claims *)

(** ** Appending *)

(** C1.  For every candidate operation that satisfies the validation rules
    of its variant, append succeeds: the operation is pushed onto the end of
    [operations], [redoStack] becomes empty and [version] increases by
    exactly 1. *)
Theorem append_valid_candidate (op : value) (s : store) :
  Rules.valid op = true → wf s →
  let r := addOperation op s in
  fst r = Return tt
  ∧ ops_of (snd r) = ops_of s ++ [op]
  ∧ redo_of (snd r) = []
  ∧ version_of (snd r) = version_of s + 1.
Proof.
  intros Hv Hwf.
  destruct (addOperation_view s Hwf op (valid_validateOperation _ Hv))
    as (? & ? & ? & ? & _).
  done.
Qed.

Lemma append_valid_candidate_witness :
  Rules.valid sample_stroke = true
  ∧ wf (store_of [sample_stroke] [sample_stroke] 3)
  ∧ let r := addOperation sample_stroke (store_of [sample_stroke] [sample_stroke] 3) in
    fst r = Return tt
    ∧ ops_of (snd r) = ops_of (store_of [sample_stroke] [sample_stroke] 3) ++ [sample_stroke]
    ∧ redo_of (snd r) = []
    ∧ version_of (snd r) = version_of (store_of [sample_stroke] [sample_stroke] 3) + 1.
Proof.
  assert (Hv : Rules.valid sample_stroke = true) by (vm_compute; reflexivity).
  assert (Hwf : wf (store_of [sample_stroke] [sample_stroke] 3))
    by (apply wf_store_of; repeat constructor).
  split; [exact Hv|]. split; [exact Hwf|].
  exact (append_valid_candidate sample_stroke _ Hv Hwf).
Defined.



(** The size of a stroke is tested with [typeof op.size !== "number" ||
    op.size <= 0], which NaN passes: a caller that hands [addOperation] a
    stroke of size NaN, which no event can carry, has it appended. *)
Example append_nan_stroke_accepted :
  Rules.valid nan_stroke = false
  ∧ fst (addOperation nan_stroke initial_store) = Return tt
  ∧ ops_of (snd (addOperation nan_stroke initial_store)) = [nan_stroke]
  ∧ version_of (snd (addOperation nan_stroke initial_store))
    = version_of initial_store + 1.
Proof. vm_compute. done. Qed.

(** C10.  A [shape:update] is validated without looking at the log: with a
    non-empty string [targetId] and at least one well-typed field (numbers
    [x] and [y], positive [width] and [height], or a string [color]) append
    succeeds in every log state, whether or not an operation of the log has
    the target's id. *)
Theorem append_shape_update_unchecked (op : value) (s : store) :
  strict_eq_str (field op "type") "shape:update" = true →
  is_string (field op "targetId") = true →
  string_length (field op "targetId") ≠ 0 →
  is_number (field op "x") && is_number (field op "y")
  || number_gt_zero (field op "width") && number_gt_zero (field op "height")
  || is_string (field op "color") = true →
  wf s →
  let r := addOperation op s in
  fst r = Return tt
  ∧ ops_of (snd r) = ops_of s ++ [op]
  ∧ redo_of (snd r) = []
  ∧ version_of (snd r) = version_of s + 1.
Proof.
  intros Htag Hid Hlen Hfields Hwf.
  assert (Hv : validateOperation op = Return tt).
  { assert (Ht : truthy op = true) by (by destruct op).
    rewrite (validateOperation_fields _ Ht).
    destruct (field op "type") as [| | | |t| |] eqn:Et; try done.
    cbn [strict_eq_str] in *. apply bool_decide_eq_true in Htag as ->.
    cbn. unfold validate_shape_update. rewrite !(prop_truthy _ _ Ht).
    run_outcome. rewrite Hid. apply Z.eqb_neq in Hlen. rewrite Hlen.
    run_outcome. cbn [negb orb].
    destruct (is_number (field op "x")), (is_number (field op "y")),
      (number_gt_zero (field op "width")), (number_gt_zero (field op "height")),
      (is_string (field op "color")); done. }
  destruct (addOperation_view s Hwf op Hv) as (? & ? & ? & ? & _).
  done.
Qed.

Lemma append_shape_update_unchecked_witness :
  ops_of initial_store = []
  ∧ let r := addOperation dangling_update initial_store in
    fst r = Return tt
    ∧ ops_of (snd r) = ops_of initial_store ++ [dangling_update]
    ∧ redo_of (snd r) = []
    ∧ version_of (snd r) = version_of initial_store + 1.
Proof.
  split; [reflexivity|].
  apply (append_shape_update_unchecked dangling_update initial_store).
  - vm_compute; reflexivity.
  - vm_compute; reflexivity.
  - vm_compute; discriminate.
  - vm_compute; reflexivity.
  - exact wf_initial_store.
Defined.

(** ** Undo and redo *)

(** C6.  With [operations] not empty, [undo()] and then [redo()] both
    succeed, [operations] is back to exactly the sequence it was, and
    [version] is its initial value plus 2. *)
Theorem undo_then_redo (s : store) :
  wf s → ops_of s ≠ [] →
  let r1 := undo s in
  let r2 := redo (snd r1) in
  fst r1 = Return true
  ∧ fst r2 = Return true
  ∧ ops_of (snd r2) = ops_of s
  ∧ version_of (snd r2) = version_of s + 2.
Proof.
  intros Hwf Hne. cbn zeta.
  destruct (undo_view s Hwf Hne) as (Hr1 & Hops1 & Hredo1 & Hv1 & Hwf1).
  assert (Hne1 : redo_of (snd (undo s)) ≠ []).
  { rewrite Hredo1. by destruct (redo_of s). }
  destruct (redo_view _ Hwf1 Hne1) as (Hr2 & _ & Hops2 & Hv2 & _).
  split_and!; try done.
  - rewrite Hops2, Hops1, Hredo1, last_snoc. cbn [default].
    destruct (exists_last Hne) as (l & x & ->).
    by rewrite removelast_last, last_snoc.
  - rewrite Hv2, Hv1. lia.
Qed.

Lemma undo_then_redo_witness :
  let s := store_of [sample_stroke; dangling_update] [] 2 in
  wf s ∧ ops_of s ≠ []
  ∧ let r1 := undo s in
    let r2 := redo (snd r1) in
    fst r1 = Return true
    ∧ fst r2 = Return true
    ∧ ops_of (snd r2) = ops_of s
    ∧ version_of (snd r2) = version_of s + 2.
Proof.
  assert (Hwf : wf (store_of [sample_stroke; dangling_update] [] 2))
    by (apply wf_store_of; repeat constructor).
  assert (Hne : ops_of (store_of [sample_stroke; dangling_update] [] 2) ≠ [])
    by (vm_compute; discriminate).
  cbn zeta. split; [exact Hwf|]. split; [exact Hne|].
  exact (undo_then_redo _ Hwf Hne).
Defined.

(** ** The version counter *)

(** C8.  [version] changes on and only on a successful mutation: an append
    of a candidate the validator lets through, an undo with [operations]
    not empty, a redo with [redoStack] not empty, a removal by author that
    removes something and a clear of a log that is not empty add exactly 1;
    every other call (a rejected append, an undo or redo with nothing to
    do, a removal or clear that removes nothing, a snapshot) leaves it as it
    is; and it never decreases. *)
Theorem version_counts_mutations (c : call) (s : store) :
  version_of (run c s) = (if mutates c s then version_of s + 1 else version_of s)
  ∧ version_of s ≤ version_of (run c s)
  ∧ ∀ cs, version_of s ≤ version_of (run_all cs s).
Proof.
  split_and!.
  - apply version_run.
  - rewrite version_run. destruct (mutates c s); lia.
  - intros cs. revert s. induction cs as [|c' cs IH]; intros s; cbn [run_all]; [lia|].
    etrans; [|apply IH]. rewrite version_run. destruct (mutates c' s); lia.
Qed.

(** A removal by a named author changes the version exactly when the log
    has an operation of that author. *)
Lemma mutates_remove_iff u s :
  u ≠ ""%string → wf s →
  mutates (RemoveByAuthor u) s = true ↔ Exists (λ op, authored_by u op = true) (ops_of s).
Proof.
  intros Hu Hwf. cbn [mutates].
  destruct (removeByUser_view s Hwf u Hu) as (-> & _). cbn [removed_count].
  rewrite Z.ltb_lt. unfold without_author.
  induction (ops_of s) as [|x l IH]; cbn [List.filter length].
  - split; [lia|]. by intros ?%Exists_nil.
  - rewrite Exists_cons. pose proof (length_without_author u l) as Hle.
    unfold without_author in Hle.
    destruct (authored_by u x); cbn [negb length]; [split; [auto|lia]|].
    rewrite <- IH. split; [lia|]. intros [?|?]; [done|lia].
Qed.

(** ** Removal by author *)

(** C7, as stated, fails: [removeByUser] returns [false] at once for a
    falsy userId, so with the empty string as userId nothing is removed,
    not even the operations whose author is the empty string, and no count
    is returned. *)
Lemma remove_by_empty_author_removes_nothing :
  let anonymous := stroke_of "" (js_int 4) in
  let s := run (Append anonymous) initial_store in
  ops_of s = [anonymous]
  ∧ without_author "" (ops_of s) = []
  ∧ fst (removeByUser "" s) = Return ReturnedFalse
  ∧ ops_of (snd (removeByUser "" s)) ≠ without_author "" (ops_of s).
Proof. vm_compute. split_and!; done. Qed.

Lemma length_authored_split u l :
  length l
  = (length (List.filter (authored_by u) l) + length (without_author u l))%nat.
Proof.
  unfold without_author. induction l as [|x l IH]; [done|].
  cbn [List.filter]. destruct (authored_by u x); cbn [negb length]; lia.
Qed.

(** C7, amended.  For every log state and every userId [u] other than the
    empty string, [removeByUser(u)] removes exactly the operations whose
    author is [u]: [operations] becomes the prior sequence without the
    entries of author [u], the others in their order, and the count
    returned is the number of entries dropped. *)
Theorem remove_by_author_filters (u : string) (s : store) :
  u ≠ ""%string → wf s →
  let r := removeByUser u s in
  ops_of (snd r) = without_author u (ops_of s)
  ∧ fst r = Return (Removed (Z.of_nat (length (List.filter (authored_by u) (ops_of s)))))
  ∧ Z.of_nat (length (List.filter (authored_by u) (ops_of s)))
    = Z.of_nat (length (ops_of s)) - Z.of_nat (length (ops_of (snd r))).
Proof.
  intros Hu Hwf.
  destruct (removeByUser_view s Hwf u Hu) as (Hr & Hops & _).
  cbn zeta. rewrite Hr, Hops.
  pose proof (length_authored_split u (ops_of s)) as Hlen.
  split_and!; [done| |lia]. do 2 f_equal. lia.
Qed.

Lemma remove_by_author_filters_witness :
  let s := store_of [stroke_of "alice" (js_int 4); stroke_of "bob" (js_int 2);
                     stroke_of "alice" (js_int 1)] [] 3 in
  "alice"%string ≠ ""%string ∧ wf s
  ∧ let r := removeByUser "alice" s in
    ops_of (snd r) = without_author "alice" (ops_of s)
    ∧ fst r = Return (Removed (Z.of_nat (length (List.filter (authored_by "alice") (ops_of s)))))
    ∧ Z.of_nat (length (List.filter (authored_by "alice") (ops_of s)))
      = Z.of_nat (length (ops_of s)) - Z.of_nat (length (ops_of (snd r))).
Proof.
  assert (Hu : "alice"%string ≠ ""%string) by discriminate.
  assert (Hwf : wf (store_of [stroke_of "alice" (js_int 4); stroke_of "bob" (js_int 2);
                              stroke_of "alice" (js_int 1)] [] 3))
    by (apply wf_store_of; repeat constructor).
  cbn zeta. split; [exact Hu|]. split; [exact Hwf|].
  exact (remove_by_author_filters "alice" _ Hu Hwf).
Defined.

(** What a removal that removes nothing keeps.  For every log state in
    which no operation of [operations] is authored by the given userId,
    [removeByUser] leaves [operations] and [version] as they are.  For the
    empty string it returns [false] at once and [redoStack] too is as it
    was; for every other userId it returns zero and [redoStack] is empty
    afterwards. *)
Lemma remove_nothing_keeps_log (u : string) (s : store) :
  wf s → Forall (λ op, authored_by u op = false) (ops_of s) →
  let r := removeByUser u s in
  fst r = Return (if bool_decide (u = ""%string) then ReturnedFalse else Removed 0)
  ∧ ops_of (snd r) = ops_of s
  ∧ version_of (snd r) = version_of s
  ∧ redo_of (snd r) = (if bool_decide (u = ""%string) then redo_of s else []).
Proof.
  intros Hwf Hnone. case_bool_decide as Hu.
  - subst u. by rewrite removeByUser_falsy.
  - destruct (removeByUser_view s Hwf u Hu) as (Hr & Hops & Hredo & Hv & _).
    assert (Hkept : without_author u (ops_of s) = ops_of s).
    { clear -Hnone. unfold without_author. induction Hnone as [|x l Hx _ IH]; [done|].
      cbn [List.filter]. rewrite Hx. cbn [negb]. by rewrite IH. }
    cbn zeta. rewrite Hr, Hops, Hv, Hredo, Hkept, Z.sub_diag. done.
Qed.

(** C3.  The code at a failing input.  Alice has appended a stroke and a
    recolouring and the recolouring has been undone; bob has authored
    nothing.  [removeByUser("bob")] returns zero and leaves [operations]
    and [version] as they are, and it empties [redoStack]: the statement
    [this.redoStack.length = 0], under the comment "Clear redo stack since
    history changed", runs before the test [removed > 0]. *)
Theorem remove_nothing_clears_redo :
  let s := run Undo (run (Append dangling_update)
                       (run (Append sample_stroke) initial_store)) in
  let r := removeByUser "bob" s in
  Forall (λ op, authored_by "bob" op = false) (ops_of s)
  ∧ ops_of s = [sample_stroke]
  ∧ redo_of s = [dangling_update]
  ∧ fst r = Return (Removed 0)
  ∧ ops_of (snd r) = ops_of s
  ∧ version_of (snd r) = version_of s
  ∧ redo_of (snd r) = []
  ∧ redo_of (snd r) ≠ redo_of s.
Proof. vm_compute. split_and!; try done. repeat constructor. Qed.

(** ** Clearing *)

(** C4, as stated, fails: right after an undo [operations] is empty and
    [redoStack] is not; [clearAll()] returns zero, leaves [version] as it
    is, and replaces [redoStack] by an empty array. *)
Lemma clear_empty_log_clears_redo :
  let s := run Undo (run (Append sample_stroke) initial_store) in
  ops_of s = []
  ∧ redo_of s = [sample_stroke]
  ∧ fst (clearAll s) = Return 0
  ∧ redo_of (snd (clearAll s)) = []
  ∧ redo_of (snd (clearAll s)) ≠ redo_of s.
Proof. vm_compute. split_and!; done. Qed.

(** C4, amended.  For every log state in which [operations] is empty,
    [clearAll()] returns zero and leaves [operations] empty and [version]
    unchanged; [redoStack] is empty afterwards, whatever it held. *)
Theorem clear_empty_log (s : store) :
  wf s → ops_of s = [] →
  let r := clearAll s in
  fst r = Return 0
  ∧ ops_of (snd r) = ops_of s
  ∧ version_of (snd r) = version_of s
  ∧ redo_of (snd r) = [].
Proof.
  intros Hwf He.
  destruct (clearAll_view s Hwf) as (Hr & Hops & Hredo & Hv & _).
  cbn zeta. rewrite Hr, Hops, Hredo, Hv, He. done.
Qed.

Lemma clear_empty_log_witness :
  let s := run Undo (run (Append sample_stroke) initial_store) in
  wf s ∧ ops_of s = []
  ∧ let r := clearAll s in
    fst r = Return 0
    ∧ ops_of (snd r) = ops_of s
    ∧ version_of (snd r) = version_of s
    ∧ redo_of (snd r) = [].
Proof.
  assert (Hwf : wf (run Undo (run (Append sample_stroke) initial_store)))
    by (do 2 apply wf_run; exact wf_initial_store).
  assert (He : ops_of (run Undo (run (Append sample_stroke) initial_store)) = [])
    by (vm_compute; reflexivity).
  cbn zeta. split; [exact Hwf|]. split; [exact He|].
  exact (clear_empty_log _ Hwf He).
Defined.

(** ** Snapshots *)

(** The snapshot a caller holds after [getSnapshot()] on store [s]. *)
Lemma getSnapshot_of s :
  fst (getSnapshot s) = Return (mkSnapshot (version_of s) (operations (this s)))
  ∧ snd (getSnapshot s) = s.
Proof. done. Qed.

(** C5, as stated, fails: the snapshot holds the array [operations] itself,
    and an append pushes onto that array.  A snapshot of the empty log
    shows the appended stroke once the append is done. *)
Lemma snapshot_sees_append :
  let sn := mkSnapshot (version_of initial_store) (operations (this initial_store)) in
  fst (getSnapshot initial_store) = Return sn
  ∧ snapshot_ops sn initial_store = []
  ∧ mutates (Append sample_stroke) initial_store = true
  ∧ snapshot_ops sn (run (Append sample_stroke) initial_store) = [sample_stroke]
  ∧ snapshot_ops sn (run (Append sample_stroke) initial_store)
    ≠ snapshot_ops sn initial_store.
Proof. vm_compute. split_and!; done. Qed.

(** C5, amended.  [getSnapshot()] copies the version and shares the array:
    take a snapshot, then perform a successful mutation.  The snapshot's
    version is the one before the mutation, one less than the log's.  After
    a removal by author or a clear, which install a new array, the
    snapshot's operations are still those before the mutation; after an
    append, an undo or a redo, which update the array in place, they are
    those of the log after the mutation. *)
Theorem snapshot_is_shallow (c : call) (s : store) :
  wf s → mutates c s = true →
  let sn := mkSnapshot (version_of s) (operations (this s)) in
  fst (getSnapshot s) = Return sn
  ∧ snd (getSnapshot s) = s
  ∧ snap_version sn = version_of (run c s) - 1
  ∧ match c with
    | RemoveByAuthor _ | ClearAll => snapshot_ops sn (run c s) = ops_of s
    | Append _ | Undo | Redo | Snapshot => snapshot_ops sn (run c s) = ops_of (run c s)
    end.
Proof.
  intros Hwf Hm. cbn zeta. split_and!; try done.
  - rewrite version_run, Hm. cbn [snap_version]. lia.
  - unfold snapshot_ops. cbn [snap_operations].
    destruct c as [op| | |u| |]; cbn [run mutates] in *.
    + destruct (validateOperation op) as [[]|e] eqn:Hv; [|done].
      by rewrite (addOperation_returns _ _ Hv).
    + apply negb_true_iff, bool_decide_eq_false in Hm.
      by rewrite (undo_nonempty _ Hm).
    + apply negb_true_iff, bool_decide_eq_false in Hm.
      by rewrite (redo_nonempty _ Hm).
    + destruct (decide (u = ""%string)) as [->|Hu]; [done|].
      by destruct (removeByUser_view s Hwf u Hu) as (_ & _ & _ & _ & ? & _).
    + by destruct (clearAll_view s Hwf) as (_ & _ & _ & _ & ? & _).
    + done.
Qed.

Lemma snapshot_is_shallow_witness :
  let s := store_of [stroke_of "alice" (js_int 4); stroke_of "bob" (js_int 2)] [] 2 in
  let c := RemoveByAuthor "alice" in
  wf s ∧ mutates c s = true
  ∧ let sn := mkSnapshot (version_of s) (operations (this s)) in
    fst (getSnapshot s) = Return sn
    ∧ snd (getSnapshot s) = s
    ∧ snap_version sn = version_of (run c s) - 1
    ∧ snapshot_ops sn (run c s) = ops_of s.
Proof.
  assert (Hwf : wf (store_of [stroke_of "alice" (js_int 4); stroke_of "bob" (js_int 2)] [] 2))
    by (apply wf_store_of; repeat constructor).
  assert (Hm : mutates (RemoveByAuthor "alice")
                 (store_of [stroke_of "alice" (js_int 4); stroke_of "bob" (js_int 2)] [] 2)
               = true)
    by (vm_compute; reflexivity).
  cbn zeta. split; [exact Hwf|]. split; [exact Hm|].
  exact (snapshot_is_shallow (RemoveByAuthor "alice") _ Hwf Hm).
Defined.

(** ** The room registry *)

Lemma ensureRoom_known roomId rm :
  is_Some (rooms rm !! roomId) → ensureRoom roomId rm = rm.
Proof. intros Hs. unfold ensureRoom. by rewrite bool_decide_eq_true_2. Qed.

Lemma ensureRoom_unknown roomId rm :
  rooms rm !! roomId = None →
  ensureRoom roomId rm =
    mkRoomManager (room_arrays rm ++ [[]; []])
      (<[roomId := mkRoom (mkDrawingState (length (room_arrays rm))
                             (S (length (room_arrays rm))) 0) []]> (rooms rm)).
Proof.
  intros Hn. unfold ensureRoom. rewrite bool_decide_eq_false_2; [done|].
  rewrite Hn. by intros [? ?].
Qed.

Lemma ensureRoom_is_Some roomId rm : is_Some (rooms (ensureRoom roomId rm) !! roomId).
Proof.
  destruct (rooms rm !! roomId) as [room|] eqn:E.
  - rewrite ensureRoom_known; rewrite E; done.
  - rewrite (ensureRoom_unknown _ _ E). cbn [rooms]. by rewrite lookup_insert_eq.
Qed.

Lemma empty_log_new (h : heap) :
  empty_log (h ++ [[]; []]) (mkDrawingState (length h) (S (length h)) 0).
Proof.
  unfold empty_log. cbn [operations redoStack version]. split_and!; [| |done].
  - change (h ++ [[]; []]) with (h ++ [[]] ++ [[]]).
    rewrite app_assoc, read_app_l by (rewrite length_app; cbn; lia).
    apply read_app_new.
  - change (h ++ [[]; []]) with (h ++ [[]] ++ [[]]). rewrite app_assoc.
    replace (S (length h)) with (length (h ++ [[]])) by (rewrite length_app; cbn; lia).
    apply read_app_new.
Qed.

(** C9.  [ensureRoom(roomId)] creates a room with an empty log and no
    members if and only if there is no room for [roomId] (a room that is
    there is left as it is, and so are the other rooms and the arrays of
    their logs), and it is idempotent.  [getState] and [getUsers] ensure the
    room first: for a [roomId] never referred to before they return an
    empty log (version 0, no operations) and an empty list of users, and do
    not throw. *)
Theorem ensureRoom_creates_once (roomId : string) (rm : RoomManager) :
  (is_Some (rooms rm !! roomId) → ensureRoom roomId rm = rm)
  ∧ ensureRoom roomId (ensureRoom roomId rm) = ensureRoom roomId rm
  ∧ (rooms rm !! roomId = None →
     let rm' := ensureRoom roomId rm in
     (∃ st, rooms rm' !! roomId = Some (mkRoom st [])
            ∧ empty_log (room_arrays rm') st
            ∧ getState roomId rm = (Return st, rm'))
     ∧ getUsers roomId rm = (Return [], rm')
     ∧ (∀ other, other ≠ roomId → rooms rm' !! other = rooms rm !! other)
     ∧ (∀ r, (r < length (room_arrays rm))%nat →
             read (room_arrays rm') r = read (room_arrays rm) r)).
Proof.
  split_and!.
  - apply ensureRoom_known.
  - apply ensureRoom_known, ensureRoom_is_Some.
  - intros Hn. cbn zeta. unfold getState, getUsers, room_get.
    rewrite (ensureRoom_unknown _ _ Hn). cbn [rooms room_arrays].
    rewrite lookup_insert_eq. split_and!.
    + eexists. split_and!; [done|apply empty_log_new|done].
    + done.
    + intros other Ho. by rewrite lookup_insert_ne.
    + intros r Hr. by apply read_app_l.
Qed.

Lemma ensureRoom_creates_once_witness :
  let rm := ensureRoom "lobby" RoomManager_new in
  is_Some (rooms rm !! "lobby"%string)
  ∧ rooms rm !! "r1"%string = None
  ∧ ensureRoom "lobby" rm = rm
  ∧ ∃ st, rooms (ensureRoom "r1" rm) !! "r1"%string = Some (mkRoom st [])
          ∧ empty_log (room_arrays (ensureRoom "r1" rm)) st
          ∧ getState "r1" rm = (Return st, ensureRoom "r1" rm).
Proof.
  assert (Hs : is_Some (rooms (ensureRoom "lobby" RoomManager_new) !! "lobby"%string))
    by (vm_compute; eexists; reflexivity).
  assert (Hn : rooms (ensureRoom "lobby" RoomManager_new) !! "r1"%string = None)
    by (vm_compute; reflexivity).
  cbn zeta. split; [exact Hs|]. split; [exact Hn|].
  split.
  - exact (proj1 (ensureRoom_creates_once "lobby" _) Hs).
  - exact (proj1 (proj2 (proj2 (ensureRoom_creates_once "r1" _)) Hn)).
Defined.

(** * The rest of the server *)

(** ** Colours *)

Lemma to_int32_range z : - 2 ^ 31 ≤ to_int32 z < 2 ^ 31.
Proof. unfold to_int32. pose proof (Z.mod_pos_bound (z + 2 ^ 31) (2 ^ 32)). lia. Qed.

Lemma to_int32_small z : - 2 ^ 31 ≤ z < 2 ^ 31 → to_int32 z = z.
Proof. intros Hz. unfold to_int32. rewrite Z.mod_small; lia. Qed.

Lemma to_int32_add_l a b : to_int32 (to_int32 a + b) = to_int32 (a + b).
Proof.
  unfold to_int32.
  replace ((a + 2 ^ 31) `mod` 2 ^ 32 - 2 ^ 31 + b + 2 ^ 31)
    with ((a + 2 ^ 31) `mod` 2 ^ 32 + b) by lia.
  rewrite Zplus_mod_idemp_l. do 2 f_equal. lia.
Qed.

Lemma to_int32_mul_l a k : to_int32 (to_int32 a * k) = to_int32 (a * k).
Proof.
  unfold to_int32. f_equal.
  rewrite <- (Zplus_mod_idemp_l (_ * k)), <- (Zplus_mod_idemp_l (a * k)).
  f_equal. f_equal.
  rewrite <- Zmult_mod_idemp_l. rewrite <- (Zmult_mod_idemp_l a).
  f_equal. f_equal.
  replace ((a + 2 ^ 31) `mod` 2 ^ 32 - 2 ^ 31) with
    ((a + 2 ^ 31) `mod` 2 ^ 32 + (- 2 ^ 31)) by lia.
  rewrite Zplus_mod_idemp_l. f_equal. lia.
Qed.

Lemma hash_round_poly h c : hash_round h c = to_int32 (31 * h + c).
Proof.
  unfold hash_round, js_or, js_shl.
  change (to_int32 0) with 0. rewrite Z.lor_0_r.
  change (Z.land 5 31) with 5. rewrite Z.shiftl_mul_pow2 by lia.
  rewrite to_int32_mul_l.
  replace (to_int32 (h * 2 ^ 5) - h + c) with (to_int32 (h * 2 ^ 5) + (c - h)) by lia.
  rewrite to_int32_add_l. f_equal. lia.
Qed.

Lemma fold_hash_round codes h :
  fold_left hash_round codes (to_int32 h)
  = to_int32 (fold_left (fun h c => 31 * h + c) codes h).
Proof.
  revert h. induction codes as [|c codes IH]; intros h; cbn [fold_left]; [done|].
  rewrite hash_round_poly, <- IH. f_equal.
  rewrite (Z.mul_comm 31 (to_int32 h)), <- (to_int32_add_l (_ * 31)), to_int32_mul_l.
  rewrite to_int32_add_l. f_equal. lia.
Qed.

Lemma hashString_poly31_steps (str : string) :
  hashString str = Z.abs (to_int32 (poly31 (char_codes str))).
Proof.
  unfold hashString, poly31. f_equal.
  change 0 with (to_int32 0) at 1. apply fold_hash_round.
Qed.

(** X1.  [hashString] is the hash of Java's [String.hashCode], the
    polynomial in 31 over the code units wrapped to a signed 32-bit integer,
    in absolute value. *)
Theorem hashString_poly31 (str : string) :
  hashString str = Z.abs (to_int32 (poly31 (char_codes str))).
Proof. exact (hashString_poly31_steps str). Qed.

(** X2.  [hashString] returns an integer from 0 to 2^31, whatever the
    string; 2^31 itself is what the absolute value of -2^31 gives. *)
Theorem hashString_range (str : string) : 0 ≤ hashString str ≤ 2 ^ 31.
Proof.
  rewrite hashString_poly31_steps.
  pose proof (to_int32_range (poly31 (char_codes str))). lia.
Qed.

Lemma assignColor_nonneg index :
  0 ≤ index → ∃ c, assignColor index = VStr c ∧ c ∈ USER_COLORS.
Proof.
  intros Hi. unfold assignColor, array_get.
  change (Z.of_nat (length USER_COLORS)) with 10.
  pose proof (Z.rem_bound_pos index 10 Hi ltac:(lia)) as [Hlo Hhi].
  destruct (Z.ltb_spec (Z.rem index 10) 0); [lia|].
  destruct (USER_COLORS !! Z.to_nat (Z.rem index 10)) as [c|] eqn:E.
  - exists c. split; [done|]. by eapply list_elem_of_lookup_2.
  - apply lookup_ge_None in E. cbn in E. lia.
Qed.

(** X3.  The colour a connection gets, [assignColor(Math.abs(hashString(userId)))],
    is one of the ten colours of the palette for every userId: the index is
    never out of range and the colour is never undefined. *)
Theorem assignColor_hash_in_palette (uid : string) :
  ∃ c, assignColor (Z.abs (hashString uid)) = VStr c ∧ c ∈ USER_COLORS.
Proof. apply assignColor_nonneg. lia. Qed.

(** ** The users of a room *)

Lemma Map_set_not_member (m : list (string * user)) k u :
  k ∉ Map_keys m → Map_set m k u = m ++ [(k, u)].
Proof.
  induction m as [|[k' u'] m IH]; intros Hk; cbn [Map_set app]; [done|].
  cbn in Hk. apply not_elem_of_cons in Hk as [Hne Hk].
  rewrite bool_decide_eq_false_2 by done. by rewrite IH.
Qed.

Lemma Map_set_member (m : list (string * user)) k u :
  k ∈ Map_keys m →
  ∃ i, Map_keys m !! i = Some k ∧ Map_set m k u = <[i := (k, u)]> m.
Proof.
  induction m as [|[k' u'] m IH]; intros Hk; cbn in Hk.
  - by apply elem_of_nil in Hk.
  - cbn [Map_set]. case_bool_decide as Heq.
    + subst k'. by exists 0%nat.
    + apply elem_of_cons in Hk as [->|Hk]; [done|].
      destruct (IH Hk) as (i & Hi & ->). by exists (S i).
Qed.

Lemma Map_keys_set (m : list (string * user)) k u :
  NoDup (Map_keys m) → NoDup (Map_keys (Map_set m k u)).
Proof.
  intros Hnd. destruct (decide (k ∈ Map_keys m)) as [Hk|Hk].
  - destruct (Map_set_member m k u Hk) as (i & Hi & ->).
    unfold Map_keys in *. rewrite list_fmap_insert. cbn [fst].
    by rewrite list_insert_id.
  - rewrite (Map_set_not_member _ _ _ Hk). unfold Map_keys in *.
    rewrite fmap_app. cbn. apply NoDup_app. split_and!; [done| |apply NoDup_singleton].
    intros x Hx ->%list_elem_of_singleton. done.
Qed.

Lemma Map_delete_filter (m : list (string * user)) k :
  Map_delete m k = filter (λ e : string * user, e.1 ≠ k) m.
Proof. done. Qed.

Lemma Map_delete_not_member (m : list (string * user)) k :
  k ∉ Map_keys m → Map_delete m k = m.
Proof.
  induction m as [|[k' u'] m IH]; intros Hk; [done|].
  cbn in Hk. apply not_elem_of_cons in Hk as [Hne Hk].
  rewrite Map_delete_filter in *. rewrite filter_cons_True by (cbn; congruence).
  by rewrite IH.
Qed.

Lemma Map_delete_set (m : list (string * user)) k u :
  k ∉ Map_keys m → Map_delete (Map_set m k u) k = m.
Proof.
  intros Hk. rewrite (Map_set_not_member _ _ _ Hk), Map_delete_filter.
  rewrite filter_app, filter_cons_False, filter_nil, app_nil_r by (cbn; tauto).
  rewrite <- Map_delete_filter. by apply Map_delete_not_member.
Qed.

Lemma Map_keys_delete (m : list (string * user)) k :
  NoDup (Map_keys m) → NoDup (Map_keys (Map_delete m k)) ∧ k ∉ Map_keys (Map_delete m k).
Proof.
  intros Hnd. unfold Map_keys in *. rewrite Map_delete_filter. split.
  - induction m as [|[k' u'] m IH]; [done|]. cbn in Hnd.
    apply NoDup_cons in Hnd as [Hk' Hnd].
    destruct (decide (k' = k)) as [->|Hne].
    + rewrite filter_cons_False by (cbn; tauto). by apply IH.
    + rewrite filter_cons_True by done. cbn. apply NoDup_cons. split; [|by apply IH].
      intros Hin. apply Hk'. apply list_elem_of_fmap in Hin as (e & -> & He).
      apply list_elem_of_filter in He as [_ He]. by apply list_elem_of_fmap_2.
  - intros Hin. apply list_elem_of_fmap in Hin as (e & -> & He).
    by apply list_elem_of_filter in He as [He _].
Qed.

(** [join] as a function on the manager. *)
Lemma join_returns socket roomId u rm :
  join socket roomId u rm =
    (Return tt,
     let rm' := ensureRoom roomId rm in
     mkRoomManager (room_arrays rm')
       (alter (λ room, mkRoom (state room) (Map_set (users room) socket u))
              roomId (rooms rm'))).
Proof.
  unfold join, room_get. cbn zeta.
  destruct (ensureRoom_is_Some roomId rm) as [room Hroom]. rewrite Hroom.
  do 2 f_equal. apply map_eq. intros k.
  destruct (decide (k = roomId)) as [->|Hne].
  - by rewrite lookup_insert_eq, lookup_alter_eq, Hroom.
  - by rewrite lookup_insert_ne, lookup_alter_ne.
Qed.

Lemma room_users_ensureRoom roomId rm :
  room_users (ensureRoom roomId rm) roomId = room_users rm roomId.
Proof.
  unfold room_users. destruct (rooms rm !! roomId) as [room|] eqn:E.
  - rewrite ensureRoom_known by (by rewrite E). by rewrite E.
  - rewrite (ensureRoom_unknown _ _ E). cbn [rooms]. by rewrite lookup_insert_eq.
Qed.

Lemma getUsers_known roomId rm room :
  rooms rm !! roomId = Some room → getUsers roomId rm = (Return (Map_values (users room)), rm).
Proof.
  intros Hroom. unfold getUsers, room_get. cbn zeta.
  rewrite ensureRoom_known by (by rewrite Hroom). by rewrite Hroom.
Qed.

(** X4.  A socket that joins a room it is not in is added at the end of the
    room's users: [getUsers] then lists the users that were there, in their
    order, and the new one last.  The room is created when it is not
    there. *)
Theorem join_adds_last socket roomId u rm :
  socket ∉ Map_keys (room_users rm roomId) →
  let r := join socket roomId u rm in
  fst r = Return tt
  ∧ fst (getUsers roomId (snd r))
    = Return (Map_values (room_users rm roomId) ++ [u])
  ∧ snd (getUsers roomId (snd r)) = snd r.
Proof.
  intros Hk. rewrite join_returns. cbn zeta. cbn [fst snd].
  destruct (ensureRoom_is_Some roomId rm) as [room Hroom].
  rewrite <- room_users_ensureRoom in Hk |- *.
  unfold room_users in Hk |- *. rewrite Hroom in Hk |- *.
  cbn [fmap option_fmap option_map default] in Hk |- *.
  set (rm' := mkRoomManager _ _).
  assert (Hroom' : rooms rm' !! roomId
                   = Some (mkRoom (state room) (Map_set (users room) socket u))).
  { subst rm'. cbn [rooms]. by rewrite lookup_alter_eq, Hroom. }
  rewrite (getUsers_known _ _ _ Hroom'). cbn [fst snd users].
  rewrite (Map_set_not_member _ _ _ Hk). unfold Map_values. by rewrite map_app.
Qed.

Lemma join_adds_last_witness :
  let rm := snd (join "s1" "lobby" (mkUser "u1" "Guest-u1" "#ff6b6b") RoomManager_new) in
  let u2 := mkUser "u2" "Guest-u2" "#f06595" in
  (("s2"%string) ∉ Map_keys (room_users rm "lobby"))
  ∧ fst (getUsers "lobby" (snd (join "s2" "lobby" u2 rm)))
    = Return (Map_values (room_users rm "lobby") ++ [u2]).
Proof.
  cbn zeta.
  assert (Hk : ("s2"%string) ∉ Map_keys (room_users
            (snd (join "s1" "lobby" (mkUser "u1" "Guest-u1" "#ff6b6b") RoomManager_new))
            "lobby")).
  { vm_compute. intros Hin. apply elem_of_cons in Hin as [Hin|Hin]; [discriminate|].
    by apply elem_of_nil in Hin. }
  split; [exact Hk|].
  exact (proj1 (proj2 (join_adds_last "s2" "lobby" _ _ Hk))).
Defined.

(** X5.  A socket that joins a room it is already in takes the place it
    has: its user is replaced where it stands in the room's users, and no
    entry is added. *)
Theorem join_again_replaces socket roomId u rm :
  socket ∈ Map_keys (room_users rm roomId) →
  ∃ i, Map_keys (room_users rm roomId) !! i = Some socket
       ∧ room_users (snd (join socket roomId u rm)) roomId
         = <[i := (socket, u)]> (room_users rm roomId)
       ∧ length (room_users (snd (join socket roomId u rm)) roomId)
         = length (room_users rm roomId).
Proof.
  intros Hk. rewrite join_returns. cbn zeta. cbn [fst snd].
  destruct (ensureRoom_is_Some roomId rm) as [room Hroom].
  rewrite <- (room_users_ensureRoom roomId rm) in Hk |- *.
  unfold room_users in Hk |- *. cbn [rooms]. rewrite lookup_alter_eq, Hroom in *.
  cbn [fmap option_fmap option_map default users] in Hk |- *.
  destruct (Map_set_member (users room) socket u Hk) as (i & Hi & ->).
  exists i. split_and!; [done|done|]. apply length_insert.
Qed.

Lemma join_again_replaces_witness :
  let u1 := mkUser "u1" "Guest-u1" "#ff6b6b" in
  let u1' := mkUser "u9" "Guest-u9" "#ffa94d" in
  let rm := snd (join "s2" "lobby" (mkUser "u2" "Guest-u2" "#f06595")
                   (snd (join "s1" "lobby" u1 RoomManager_new))) in
  ("s1"%string) ∈ Map_keys (room_users rm "lobby")
  ∧ ∃ i, Map_keys (room_users rm "lobby") !! i = Some "s1"%string
         ∧ room_users (snd (join "s1" "lobby" u1' rm)) "lobby"
           = <[i := ("s1"%string, u1')]> (room_users rm "lobby")
         ∧ length (room_users (snd (join "s1" "lobby" u1' rm)) "lobby")
           = length (room_users rm "lobby").
Proof.
  cbn zeta.
  assert (Hk : ("s1"%string) ∈ Map_keys (room_users
     (snd (join "s2" "lobby" (mkUser "u2" "Guest-u2" "#f06595")
             (snd (join "s1" "lobby" (mkUser "u1" "Guest-u1" "#ff6b6b") RoomManager_new))))
     "lobby")).
  { vm_compute. apply elem_of_cons. by left. }
  split; [exact Hk|].
  exact (join_again_replaces "s1" "lobby" _ _ Hk).
Defined.

(** [leave] of a socket with no entry in the room, or in a room that is not
    there, changes nothing. *)
Lemma leave_not_member socket roomId rm :
  socket ∉ Map_keys (room_users rm roomId) → leave socket roomId rm = rm.
Proof.
  intros Hk. unfold leave, room_users in *.
  destruct (rooms rm !! roomId) as [room|] eqn:Hroom; [|done].
  cbn in Hk. rewrite (Map_delete_not_member _ _ Hk).
  destruct rm as [h rs]. cbn [rooms room_arrays] in *. f_equal.
  apply insert_id. rewrite Hroom. by destruct room.
Qed.

(** X6.  [leave] of a socket that has no entry in the room leaves the
    manager exactly as it is; so does [leave] for a room that is not there,
    which is not created. *)
Theorem leave_stranger_is_noop socket roomId rm :
  socket ∉ Map_keys (room_users rm roomId) →
  leave socket roomId rm = rm
  ∧ (rooms rm !! roomId = None → rooms (leave socket roomId rm) !! roomId = None).
Proof.
  intros Hk. rewrite (leave_not_member _ _ _ Hk). by split.
Qed.

Lemma leave_stranger_is_noop_witness :
  (("s1"%string) ∉ Map_keys (room_users RoomManager_new "lobby"))
  ∧ leave "s1" "lobby" RoomManager_new = RoomManager_new
  ∧ (rooms RoomManager_new !! "lobby"%string = None →
     rooms (leave "s1" "lobby" RoomManager_new) !! "lobby"%string = None).
Proof.
  assert (Hk : ("s1"%string) ∉ Map_keys (room_users RoomManager_new "lobby"))
    by (vm_compute; apply not_elem_of_nil).
  split; [exact Hk|].
  exact (leave_stranger_is_noop "s1" "lobby" RoomManager_new Hk).
Defined.

(** X7.  After [leave] the socket has no entry in the room, and every other
    socket is in the room exactly if it was: [leave] removes the socket's
    own entry and nothing else. *)
Theorem leave_removes_only_socket socket roomId rm :
  (socket ∉ Map_keys (room_users (leave socket roomId rm) roomId))
  ∧ ∀ other, other ≠ socket →
      other ∈ Map_keys (room_users rm roomId)
      ↔ other ∈ Map_keys (room_users (leave socket roomId rm) roomId).
Proof.
  split.
  - unfold leave, room_users.
    destruct (rooms rm !! roomId) as [room|] eqn:Hroom.
    + cbn [rooms]. rewrite lookup_insert_eq.
      cbn [fmap option_fmap option_map default users].
      unfold Map_keys. rewrite Map_delete_filter, list_elem_of_fmap.
      intros ([k v] & -> & Hin). by apply list_elem_of_filter in Hin as [Hin _].
    + rewrite Hroom. apply not_elem_of_nil.
  - intros other Hne. unfold leave, room_users.
    destruct (rooms rm !! roomId) as [room|] eqn:Hroom; [|by rewrite Hroom].
    cbn [rooms]. rewrite lookup_insert_eq.
    cbn [fmap option_fmap option_map default users].
    unfold Map_keys. rewrite Map_delete_filter, !list_elem_of_fmap.
    split; intros ([k v] & -> & Hin); exists (k, v); (split; [done|]).
    + apply list_elem_of_filter. by split.
    + by apply list_elem_of_filter in Hin as [_ ?].
Qed.

(** X8.  A socket that joins a room it was not in and then leaves it: the
    manager is the one [ensureRoom] gives, so the room stays (with its log
    and its other users) and the socket is gone. *)
Theorem join_then_leave socket roomId u rm :
  socket ∉ Map_keys (room_users rm roomId) →
  leave socket roomId (snd (join socket roomId u rm)) = ensureRoom roomId rm.
Proof.
  intros Hk. rewrite join_returns. cbn zeta. cbn [snd].
  destruct (ensureRoom_is_Some roomId rm) as [room Hroom].
  rewrite <- room_users_ensureRoom in Hk. unfold room_users in Hk.
  rewrite Hroom in Hk. cbn in Hk.
  unfold leave. cbn [rooms room_arrays]. rewrite lookup_alter_eq, Hroom.
  cbn [fmap option_fmap option_map users state].
  rewrite (Map_delete_set _ _ _ Hk).
  destruct (ensureRoom roomId rm) as [h rs]. cbn [rooms room_arrays] in *. f_equal.
  apply map_eq. intros k. destruct (decide (k = roomId)) as [->|Hne].
  - rewrite lookup_insert_eq, Hroom. by destruct room.
  - by rewrite lookup_insert_ne, lookup_alter_ne.
Qed.

Lemma join_then_leave_witness :
  let rm := snd (join "s1" "lobby" (mkUser "u1" "Guest-u1" "#ff6b6b") RoomManager_new) in
  (("s2"%string) ∉ Map_keys (room_users rm "r1"))
  ∧ leave "s2" "r1" (snd (join "s2" "r1" (mkUser "u2" "Guest-u2" "#f06595") rm))
    = ensureRoom "r1" rm.
Proof.
  cbn zeta.
  assert (Hk : ("s2"%string) ∉ Map_keys (room_users
            (snd (join "s1" "lobby" (mkUser "u1" "Guest-u1" "#ff6b6b") RoomManager_new))
            "r1")).
  { vm_compute. apply not_elem_of_nil. }
  split; [exact Hk|].
  exact (join_then_leave "s2" "r1" _ _ Hk).
Defined.

(** ** Stamping a committed operation *)

Lemma pretty_N_go_not_letter x s (a : Ascii.ascii) :
  (∀ d, pretty_N_char d ≠ a) →
  (∀ s', s ≠ String a s') → ∀ s', pretty_N_go x s ≠ String a s'.
Proof.
  intros Ha. revert s. induction (N.lt_wf_0 x) as [x _ IH]; intros s Hs s'.
  destruct (decide (x = 0)%N) as [->|Hx].
  - rewrite pretty_N_go_0. apply Hs.
  - rewrite pretty_N_go_step by lia. apply IH.
    + apply N.div_lt; lia.
    + intros s'' [= Hd _]. by apply Ha in Hd.
Qed.

(** The key of an index is a numeral; it is not the name [type]. *)
Lemma index_key_not_type (i : nat) : pretty i ≠ "type"%string.
Proof.
  unfold pretty, pretty_nat, pretty, pretty_N.
  case_decide; [done|].
  apply pretty_N_go_not_letter; [|done].
  intros d. unfold pretty_N_char. by repeat case_match.
Qed.

Lemma spread_no_type (v : value) :
  match v with VObj _ => True | _ => spread v !! "type"%string = None end.
Proof.
  destruct v as [| | | |s|elems|props]; try done; cbn [spread].
  - apply not_elem_of_list_to_map. rewrite list_elem_of_fmap.
    intros ([k x] & Hk & Hin). cbn in Hk. subst k.
    apply elem_of_lookup_imap_1 in Hin as (i & a & [= Hi _] & _).
    by apply (index_key_not_type i).
  - apply not_elem_of_list_to_map. rewrite list_elem_of_fmap.
    intros ([k x] & Hk & Hin). cbn in Hk. subst k.
    apply elem_of_lookup_imap_1 in Hin as (i & a & [= Hi _] & _).
    by apply (index_key_not_type i).
Qed.

Lemma field_stamp_other op id author now k :
  k ≠ "id"%string → k ≠ "userId"%string → k ≠ "timestamp"%string →
  field (stamp op id author now) k = default VUndefined (spread op !! k).
Proof.
  intros H1 H2 H3. unfold stamp. cbn [field].
  by rewrite !lookup_insert_ne.
Qed.

(** The properties the validator reads. *)
Lemma validateOperation_ext (a b : value) :
  truthy a = true → truthy b = true →
  (∀ k, k ∈ ["type"; "points"; "size"; "color"; "composite"; "shape";
             "x"; "y"; "width"; "height"; "targetId"]%string →
        field a k = field b k) →
  validateOperation a = validateOperation b.
Proof.
  intros Ha Hb Hf.
  rewrite (validateOperation_fields _ Ha), (validateOperation_fields _ Hb).
  unfold validate_stroke, validate_shape, validate_shape_update.
  rewrite !(prop_truthy a _ Ha), !(prop_truthy b _ Hb).
  rewrite !(Hf _) by (repeat (apply elem_of_cons; (by left) || right);
                        by apply elem_of_nil).
  done.
Qed.

Lemma stamp_overrides_steps (op : value) (id author : string) (now : Z) :
  field (stamp op id author now) "id" = VStr id
  ∧ field (stamp op id author now) "userId" = VStr author
  ∧ field (stamp op id author now) "timestamp" = VNum (js_int now)
  ∧ (∀ u, authored_by u (stamp op id author now) = bool_decide (author = u))
  ∧ (∀ props, op = VObj props →
       validateOperation (stamp op id author now) = validateOperation op).
Proof.
  split_and!.
  - unfold stamp. cbn [field].
    by rewrite lookup_insert_ne, lookup_insert_ne, lookup_insert_eq.
  - unfold stamp. cbn [field]. by rewrite lookup_insert_ne, lookup_insert_eq.
  - unfold stamp. cbn [field]. by rewrite lookup_insert_eq.
  - intros u. unfold authored_by, stamp. cbn [field].
    by rewrite lookup_insert_ne, lookup_insert_eq.
  - intros props ->. apply validateOperation_ext; [done..|].
    intros k Hk. rewrite field_stamp_other; [done|..];
      intros ->; repeat (apply elem_of_cons in Hk as [Hk|Hk]; [discriminate|]);
      by apply elem_of_nil in Hk.
Qed.

(** X9.  The operation the server appends is the client's candidate with
    the server's [id], [userId] and [timestamp] written over whatever the
    candidate carries under these names.  So its author is the connection's
    own userId and no other, and an object candidate is validated as it was
    sent: the stamps do not change the verdict of the validator. *)
Theorem stamp_overrides (op : value) (id author : string) (now : Z) :
  field (stamp op id author now) "id" = VStr id
  ∧ field (stamp op id author now) "userId" = VStr author
  ∧ field (stamp op id author now) "timestamp" = VNum (js_int now)
  ∧ (∀ u, authored_by u (stamp op id author now) = bool_decide (author = u))
  ∧ (∀ props, op = VObj props →
       validateOperation (stamp op id author now) = validateOperation op).
Proof. exact (stamp_overrides_steps op id author now). Qed.

(** X10.  A candidate that is not an object (nothing at all, null, a
    number, a string, an array) becomes an object without a [type] once it
    is stamped: the validator rejects it as of an unsupported type, and
    never as an empty operation. *)
Theorem stamp_not_object_rejected (op : value) (id author : string) (now : Z) :
  (∀ props, op ≠ VObj props) →
  validateOperation (stamp op id author now)
  = Throw (Error "Unsupported operation type").
Proof.
  intros Hno.
  rewrite validateOperation_fields by done.
  rewrite field_stamp_other by done.
  pose proof (spread_no_type op) as Hs.
  destruct op; try (by rewrite Hs); try done. by destruct (Hno props).
Qed.

Lemma stamp_not_object_rejected_witness :
  (∀ props, VNull ≠ VObj props)
  ∧ validateOperation (stamp VNull "op-1" "alice" 1700000000000)
    = Throw (Error "Unsupported operation type").
Proof.
  assert (Hno : ∀ props, VNull ≠ VObj props) by discriminate.
  split; [exact Hno|].
  exact (stamp_not_object_rejected VNull "op-1" "alice" 1700000000000 Hno).
Defined.

(** ** Methods and the arrays of the others *)

Lemma extends_refl s : extends s s.
Proof. split; [done|done|by left]. Qed.

Lemma extends_trans s1 s2 s3 : extends s1 s2 → extends s2 s3 → extends s1 s3.
Proof.
  intros [Hl1 Hf1 Ho1] [Hl2 Hf2 Ho2]. split.
  - lia.
  - intros r Hr Hno. rewrite Hf2, Hf1; [done..|lia|].
    intros Ho. destruct (Ho1 r Ho); [done|lia].
  - intros r Ho. destruct (Ho2 r Ho) as [Ho'|?]; [|right; lia].
    destruct (Ho1 r Ho'); [by left|by right].
Qed.

Lemma run_extends c s : wf s → extends s (run c s).
Proof.
  intros Hwf. pose proof Hwf as [Ho Hr Hd _ _].
  destruct c as [op| | |u| |]; cbn [run].
  - destruct (validateOperation op) as [[]|e] eqn:Hv.
    + rewrite (addOperation_returns _ _ Hv). cbn [snd]. split; cbn [arrays this].
      * by rewrite !length_write.
      * intros r _ Hno. rewrite !read_write_ne; [done|..];
          intros <-; apply Hno; unfold owns; auto.
      * intros r. unfold owns. cbn. by left.
    + rewrite (addOperation_throws _ _ _ Hv). apply extends_refl.
  - destruct (decide (ops_of s = [])) as [He|Hne].
    + rewrite (undo_empty _ He). apply extends_refl.
    + rewrite (undo_nonempty _ Hne). cbn zeta. cbn [snd]. split; cbn [arrays this].
      * by rewrite !length_write.
      * intros r _ Hno. rewrite !read_write_ne; [done|..];
          intros <-; apply Hno; unfold owns; auto.
      * intros r. unfold owns. cbn. by left.
  - destruct (decide (redo_of s = [])) as [He|Hne].
    + rewrite (redo_empty _ He). apply extends_refl.
    + rewrite (redo_nonempty _ Hne). cbn zeta. cbn [snd]. split; cbn [arrays this].
      * by rewrite !length_write.
      * intros r _ Hno. rewrite !read_write_ne; [done|..];
          intros <-; apply Hno; unfold owns; auto.
      * intros r. unfold owns. cbn. by left.
  - destruct (decide (u = ""%string)) as [->|Hu].
    + rewrite removeByUser_falsy. apply extends_refl.
    + rewrite (removeByUser_returns _ _ Hu Hwf). cbn zeta. cbn [snd].
      split; cbn [arrays this].
      * rewrite !length_write, length_app. lia.
      * intros r Hlt Hno. rewrite !read_write_ne; [by apply read_app_l|lia|].
        intros <-. apply Hno. unfold owns; auto.
      * intros r. unfold owns. cbn. intros [->| ->]; [right; lia|left; by right].
  - rewrite clearAll_returns. cbn [snd]. split; cbn [arrays this].
    + rewrite length_app. lia.
    + intros r Hlt _. by apply read_app_l.
    + intros r. unfold owns. cbn. intros [->| ->]; right; lia.
  - apply extends_refl.
Qed.

(** What holds of every operation of a log holds of every operation of the
    log after a call, if it holds of the operation an append lets in. *)
Lemma run_Forall (P : value → Prop) c s :
  wf s →
  (∀ op, c = Append op → validateOperation op = Return tt → P op) →
  Forall P (ops_of s) → Forall P (redo_of s) →
  Forall P (ops_of (run c s)) ∧ Forall P (redo_of (run c s)).
Proof.
  intros Hwf Hnew IHo IHr.
  destruct c as [op| | |u| |]; cbn [run].
  - destruct (validateOperation op) as [[]|e] eqn:Hv.
    + destruct (addOperation_view s Hwf op Hv) as (_ & -> & -> & _).
      split; [|done]. apply Forall_app. split; [done|]. constructor; [|done].
      by apply Hnew.
    + by rewrite (addOperation_throws _ _ _ Hv).
  - destruct (decide (ops_of s = [])) as [He|Hne].
    + by rewrite (undo_empty _ He).
    + destruct (undo_view s Hwf Hne) as (_ & -> & -> & _).
      destruct (exists_last Hne) as (l & x & Hl). rewrite Hl in *.
      apply Forall_app in IHo as [Hl' Hx]. rewrite removelast_last, last_snoc.
      split; [done|]. apply Forall_app. by split.
  - destruct (decide (redo_of s = [])) as [He|Hne].
    + by rewrite (redo_empty _ He).
    + destruct (redo_view s Hwf Hne) as (_ & -> & -> & _).
      destruct (exists_last Hne) as (l & x & Hl). rewrite Hl in *.
      apply Forall_app in IHr as [Hl' Hx]. rewrite removelast_last, last_snoc.
      split; [|done]. apply Forall_app. by split.
  - destruct (decide (u = ""%string)) as [->|Hu].
    + by rewrite removeByUser_falsy.
    + destruct (removeByUser_view s Hwf u Hu) as (_ & -> & -> & _).
      split; [|done]. by apply Forall_without_author.
  - by destruct (clearAll_view s Hwf) as (_ & -> & -> & _).
  - done.
Qed.

Lemma safe_run_of {A} (m : M A) c :
  (∀ s, snd (m s) = run c s) →
  (∀ op, c = Append op → validateOperation op = Return tt → stamped op) →
  safe m.
Proof.
  intros Hm Hnew s Hwf. rewrite Hm.
  split_and!; [by apply wf_run|by apply run_extends|].
  intros Ho Hr. by apply run_Forall.
Qed.

Lemma safe_addOperation op :
  (validateOperation op = Return tt → stamped op) → safe (addOperation op).
Proof. intros Hs. apply (safe_run_of _ (Append op)); [done|]. by intros ? [= <-]. Qed.
Lemma safe_undo : safe undo.
Proof. by apply (safe_run_of _ Undo). Qed.
Lemma safe_redo : safe redo.
Proof. by apply (safe_run_of _ Redo). Qed.
Lemma safe_removeByUser u : safe (removeByUser u).
Proof. by apply (safe_run_of _ (RemoveByAuthor u)). Qed.
Lemma safe_clearAll : safe clearAll.
Proof. by apply (safe_run_of _ ClearAll). Qed.
Lemma safe_getSnapshot : safe getSnapshot.
Proof. by apply (safe_run_of _ Snapshot). Qed.
Lemma safe_this_version : safe this_version.
Proof. intros s Hwf. split_and!; [done|apply extends_refl|done]. Qed.

(** ** Rooms do not touch each other *)

Lemma manager_wf_new : manager_wf RoomManager_new.
Proof. split; intros *; cbn; by rewrite ?lookup_empty. Qed.

Lemma log_of_ensureRoom_other roomId rm k :
  manager_wf rm → is_Some (rooms rm !! k) ∨ k ≠ roomId →
  rooms (ensureRoom roomId rm) !! k = rooms rm !! k
  ∧ log_of (ensureRoom roomId rm) k = log_of rm k.
Proof.
  intros Hwf Hk. destruct (rooms rm !! roomId) as [room|] eqn:E.
  { rewrite ensureRoom_known; [done|by rewrite E]. }
  rewrite (ensureRoom_unknown _ _ E).
  assert (Hne : k ≠ roomId).
  { destruct Hk as [[room Hk]|?]; [|done]. intros ->. congruence. }
  unfold log_of. cbn [rooms room_arrays]. rewrite lookup_insert_ne by done.
  split; [done|]. destruct (rooms rm !! k) as [room|] eqn:Hroom; [|done].
  cbn. destruct (rooms_wf _ Hwf _ _ Hroom) as [Ho Hr _ _ _].
  cbn in Ho, Hr. by rewrite !read_app_l.
Qed.

Lemma log_of_ensureRoom roomId rm :
  manager_wf rm →
  log_of (ensureRoom roomId rm) roomId = Some (log_or_empty rm roomId).
Proof.
  intros Hwf. unfold log_or_empty.
  destruct (rooms rm !! roomId) as [room|] eqn:E.
  - destruct (log_of_ensureRoom_other roomId rm roomId Hwf) as [_ ->].
    + left. by rewrite E.
    + unfold log_of. rewrite E. by cbn.
  - unfold log_of at 2. rewrite E. cbn [mbind option_bind default].
    rewrite (ensureRoom_unknown _ _ E). unfold log_of. cbn [rooms room_arrays].
    rewrite lookup_insert_eq. cbn [mbind option_bind state].
    destruct (empty_log_new (room_arrays rm)) as (-> & -> & Hv). by cbn.
Qed.

Lemma manager_wf_ensureRoom roomId rm :
  manager_wf rm → manager_wf (ensureRoom roomId rm).
Proof.
  intros Hwf. destruct (rooms rm !! roomId) as [room|] eqn:E.
  { rewrite ensureRoom_known; [done|by rewrite E]. }
  rewrite (ensureRoom_unknown _ _ E). destruct Hwf as [Hrooms Hapart]. split.
  - intros k room'. cbn [rooms]. destruct (decide (k = roomId)) as [->|Hne].
    + rewrite lookup_insert_eq. intros [= <-].
      destruct (empty_log_new (room_arrays rm)) as (Ho & Hr & _).
      cbn [operations redoStack] in Ho, Hr.
      split; unfold store_of_room, ops_of, redo_of;
        cbn [arrays this operations redoStack state room_arrays];
        rewrite ?length_app; cbn [length]; try lia.
      * by rewrite Ho.
      * by rewrite Hr.
    + rewrite lookup_insert_ne by done. intros Hroom.
      destruct (Hrooms _ _ Hroom) as [Ho Hr Hd Hov Hrv].
      unfold store_of_room, ops_of, redo_of in *.
      cbn [arrays this operations redoStack state room_arrays] in *.
      split; unfold ops_of, redo_of; cbn [arrays this operations redoStack];
        rewrite ?length_app, ?read_app_l by done; try done; lia.
  - intros k1 k2 room1 room2 r Hne. cbn [rooms].
    destruct (decide (k1 = roomId)) as [->|Hne1];
      [|destruct (decide (k2 = roomId)) as [->|Hne2]].
    + rewrite lookup_insert_eq, lookup_insert_ne by done. intros [= <-] Hroom2.
      destruct (Hrooms _ _ Hroom2) as [Ho Hr _ _ _]. cbn in Ho, Hr.
      unfold owns. cbn. lia.
    + rewrite lookup_insert_eq, lookup_insert_ne by done. intros Hroom1 [= <-].
      destruct (Hrooms _ _ Hroom1) as [Ho Hr _ _ _]. cbn in Ho, Hr.
      unfold owns. cbn. lia.
    + rewrite !lookup_insert_ne by done. by apply Hapart.
Qed.

Lemma others_kept_refl roomId rm : others_kept roomId rm rm.
Proof. by intros k _. Qed.

Lemma others_kept_trans roomId rm1 rm2 rm3 :
  others_kept roomId rm1 rm2 → others_kept roomId rm2 rm3 → others_kept roomId rm1 rm3.
Proof.
  intros H1 H2 k Hk. destruct (H1 k Hk) as [<- <-]. by apply H2.
Qed.

Lemma kept_refl roomId srv : manager_wf (manager srv) → kept roomId srv srv.
Proof.
  intros Hwf. split; [done|done|apply others_kept_refl|done|].
  exists []. by rewrite app_nil_r.
Qed.

Lemma kept_trans roomId srv1 srv2 srv3 :
  kept roomId srv1 srv2 → kept roomId srv2 srv3 → kept roomId srv1 srv3.
Proof.
  intros [Hw1 Hs1 Ho1 Hr1 [n1 Hb1]] [Hw2 Hs2 Ho2 Hr2 [n2 Hb2]]. split.
  - done.
  - auto.
  - by eapply others_kept_trans.
  - auto.
  - exists (n1 ++ n2). by rewrite Hb2, Hb1, app_assoc.
Qed.

Lemma preserved_ret {A} roomId (a : A) : preserved roomId (mret a).
Proof. intros srv Hwf. by apply kept_refl. Qed.

Lemma preserved_bind {A B} roomId (g : G A) (f : A → G B) :
  preserved roomId g → (∀ a, preserved roomId (f a)) → preserved roomId (g ≫= f).
Proof.
  intros Hg Hf srv Hwf. specialize (Hg srv Hwf).
  unfold mbind, G_bind. destruct (g srv) as [[a|e] srv1]; cbn [snd] in *; [|done].
  eapply kept_trans; [done|]. apply Hf. by destruct Hg.
Qed.

Lemma preserved_try_catch {A} roomId (g : G A) (h : error → G A) :
  preserved roomId g → (∀ e, preserved roomId (h e)) → preserved roomId (try_catch g h).
Proof.
  intros Hg Hh srv Hwf. specialize (Hg srv Hwf).
  unfold try_catch. destruct (g srv) as [[a|e] srv1]; cbn [snd] in *; [done|].
  eapply kept_trans; [done|]. apply Hh. by destruct Hg.
Qed.

Lemma preserved_emit roomId to event data : preserved roomId (emit to event data).
Proof.
  intros srv Hwf. unfold emit. cbn [snd].
  split; cbn [manager outbox]; [done|done|apply others_kept_refl|done|by eexists].
Qed.

Lemma preserved_acknowledge roomId ack socket data :
  preserved roomId (acknowledge ack socket data).
Proof.
  intros srv Hwf. unfold acknowledge. cbn [snd]. destruct ack.
  - split; cbn [manager outbox]; [done|done|apply others_kept_refl|done|by eexists].
  - by apply kept_refl.
Qed.

Lemma preserved_on_wire roomId sn : preserved roomId (on_wire sn).
Proof. intros srv Hwf. by apply kept_refl. Qed.

Lemma preserved_prop roomId data k :
  preserved roomId (λ srv : server, (prop data k, srv)).
Proof. intros srv Hwf. by apply kept_refl. Qed.

(** A change of the users of rooms, or none, keeps everything about logs. *)
Lemma kept_same_states roomId srv rm' :
  room_arrays rm' = room_arrays (manager srv) →
  (∀ k, state <$> rooms rm' !! k = state <$> rooms (manager srv) !! k) →
  (∀ k, k ≠ roomId → rooms rm' !! k = rooms (manager srv) !! k) →
  manager_wf (manager srv) →
  kept roomId srv (mkServer rm' (outbox srv)).
Proof.
  intros Harr Hst Hothers [Hrooms Hapart].
  assert (Hroom_of : ∀ k room', rooms rm' !! k = Some room' →
            ∃ room, rooms (manager srv) !! k = Some room ∧ state room = state room').
  { intros k room' Hk. specialize (Hst k). rewrite Hk in Hst. cbn in Hst.
    destruct (rooms (manager srv) !! k) as [room|]; [|done].
    exists room. split; [done|]. by injection Hst. }
  assert (Hlog : ∀ k, log_of rm' k = log_of (manager srv) k).
  { intros k. unfold log_of. specialize (Hst k). rewrite Harr.
    destruct (rooms rm' !! k) as [room'|], (rooms (manager srv) !! k) as [room|];
      try done. cbn in *. injection Hst as ->. done. }
  split; cbn [manager outbox].
  - split.
    + intros k room' Hk. destruct (Hroom_of _ _ Hk) as (room & Hroom & Hs).
      unfold store_of_room. rewrite Harr, <- Hs. by eapply Hrooms.
    + intros k1 k2 room1 room2 r Hne Hk1 Hk2.
      destruct (Hroom_of _ _ Hk1) as (room1' & Hroom1 & <-).
      destruct (Hroom_of _ _ Hk2) as (room2' & Hroom2 & <-).
      by eapply Hapart.
  - intros Hs k ops stack v. rewrite Hlog. apply Hs.
  - intros k Hk. split; [by apply Hothers|apply Hlog].
  - intros k [room Hroom]. specialize (Hst k). rewrite Hroom in Hst.
    destruct (rooms rm' !! k); [done|discriminate].
  - exists []. by rewrite app_nil_r.
Qed.

Lemma kept_ensureRoom roomId srv :
  manager_wf (manager srv) →
  kept roomId srv (mkServer (ensureRoom roomId (manager srv)) (outbox srv)).
Proof.
  intros Hwf. split; cbn [manager outbox].
  - by apply manager_wf_ensureRoom.
  - intros Hs k ops stack v. destruct (decide (k = roomId)) as [->|Hne].
    + rewrite log_of_ensureRoom by done. unfold log_or_empty.
      destruct (log_of (manager srv) roomId) as [[[o r] w]|] eqn:E.
      * cbn. intros [= <- <- <-]. by eapply Hs.
      * cbn. by intros [= <- <- <-].
    + destruct (log_of_ensureRoom_other roomId (manager srv) k Hwf) as [_ ->]; [by right|].
      apply Hs.
  - intros k Hk. apply log_of_ensureRoom_other; [done|by right].
  - intros k Hk. destruct (log_of_ensureRoom_other roomId (manager srv) k Hwf) as [-> _];
      [by left|done].
  - exists []. by rewrite app_nil_r.
Qed.

Lemma preserved_ensureRoom roomId :
  preserved roomId (roomManager (λ rm, (Return tt, ensureRoom roomId rm))).
Proof. intros srv Hwf. by apply kept_ensureRoom. Qed.

Lemma preserved_getState roomId : preserved roomId (roomManager (getState roomId)).
Proof. intros srv Hwf. unfold roomManager, getState. cbn. by apply kept_ensureRoom. Qed.

Lemma preserved_getUsers roomId : preserved roomId (roomManager (getUsers roomId)).
Proof. intros srv Hwf. unfold roomManager, getUsers. cbn. by apply kept_ensureRoom. Qed.

Lemma preserved_the_state roomId : preserved roomId (the_state roomId).
Proof.
  unfold the_state. apply preserved_bind; [apply preserved_getState|].
  intros _. apply preserved_ret.
Qed.

Lemma preserved_join socket roomId u : preserved roomId (roomManager (join socket roomId u)).
Proof.
  intros srv Hwf. unfold roomManager. rewrite join_returns. cbn zeta. cbn [snd].
  eapply kept_trans; [by apply kept_ensureRoom|].
  set (srv1 := mkServer (ensureRoom roomId (manager srv)) (outbox srv)).
  apply (kept_same_states roomId srv1); cbn [manager room_arrays rooms].
  - done.
  - intros k. destruct (decide (k = roomId)) as [->|Hne].
    + rewrite lookup_alter_eq. by destruct (rooms _ !! roomId).
    + by rewrite lookup_alter_ne.
  - intros k Hne. by rewrite lookup_alter_ne.
  - by apply manager_wf_ensureRoom.
Qed.

Lemma preserved_leave socket roomId :
  preserved roomId (roomManager (λ rm, (Return tt, leave socket roomId rm))).
Proof.
  intros srv Hwf. unfold roomManager. cbn [snd]. unfold leave.
  destruct (rooms (manager srv) !! roomId) as [room|] eqn:Hroom.
  - apply (kept_same_states roomId srv); cbn [manager room_arrays rooms]; [done| |  |done].
    + intros k. destruct (decide (k = roomId)) as [->|Hne].
      * by rewrite lookup_insert_eq, Hroom.
      * by rewrite lookup_insert_ne.
    + intros k Hne. by rewrite lookup_insert_ne.
  - destruct srv. by apply kept_refl.
Qed.

(** A method called on the drawing state of a room. *)
Lemma invoke_known {A} roomId (m : M A) srv room :
  rooms (manager srv) !! roomId = Some room →
  invoke roomId m srv =
    (fst (m (store_of_room (manager srv) room)),
     mkServer
       (mkRoomManager (arrays (snd (m (store_of_room (manager srv) room))))
          (<[roomId := mkRoom (this (snd (m (store_of_room (manager srv) room))))
                         (users room)]> (rooms (manager srv))))
       (outbox srv)).
Proof.
  intros Hroom. unfold invoke, room_get. rewrite Hroom.
  fold (store_of_room (manager srv) room).
  by destruct (m (store_of_room (manager srv) room)).
Qed.

Lemma invoke_unknown {A} roomId (m : M A) srv :
  rooms (manager srv) !! roomId = None →
  invoke roomId m srv = (Throw (TypeError "Cannot read properties of undefined"), srv).
Proof. intros Hroom. unfold invoke, room_get. by rewrite Hroom. Qed.

Lemma preserved_invoke {A} roomId (m : M A) : safe m → preserved roomId (invoke roomId m).
Proof.
  intros Hm srv Hwf.
  destruct (rooms (manager srv) !! roomId) as [room|] eqn:Hroom;
    [|rewrite (invoke_unknown _ _ _ Hroom); by apply kept_refl].
  rewrite (invoke_known _ _ _ _ Hroom). cbn [snd].
  pose proof Hwf as [Hrooms Hapart].
  destruct (Hm _ (Hrooms _ _ Hroom)) as (Hwf' & [Hlen Hframe Howns] & Hst).
  set (s' := snd (m (store_of_room (manager srv) room))) in *.
  assert (Hread : ∀ k room', k ≠ roomId → rooms (manager srv) !! k = Some room' →
            read (arrays s') (operations (state room'))
              = read (room_arrays (manager srv)) (operations (state room'))
            ∧ read (arrays s') (redoStack (state room'))
              = read (room_arrays (manager srv)) (redoStack (state room'))).
  { intros k room' Hne Hk. destruct (Hrooms _ _ Hk) as [Ho Hr _ _ _].
    cbn in Ho, Hr. split; apply Hframe; cbn; try done.
    - intros Hown. eapply (Hapart roomId k); [done..|]. by left.
    - intros Hown. eapply (Hapart roomId k); [done..|]. by right. }
  assert (Hlog : ∀ k, k ≠ roomId →
            log_of (mkRoomManager (arrays s')
                      (<[roomId := mkRoom (this s') (users room)]> (rooms (manager srv)))) k
            = log_of (manager srv) k).
  { intros k Hne. unfold log_of. cbn [rooms room_arrays].
    rewrite lookup_insert_ne by done.
    destruct (rooms (manager srv) !! k) as [room'|] eqn:Hk; [|done]. cbn.
    by destruct (Hread _ _ Hne Hk) as [-> ->]. }
  split; cbn [manager outbox].
  - split.
    + intros k room'. cbn [rooms]. destruct (decide (k = roomId)) as [->|Hne].
      * rewrite lookup_insert_eq. intros [= <-]. unfold store_of_room. cbn.
        by destruct s'.
      * rewrite lookup_insert_ne by done. intros Hk.
        destruct (Hrooms _ _ Hk) as [Ho Hr Hd Hov Hrv].
        destruct (Hread _ _ Hne Hk) as [Hro Hrr].
        unfold store_of_room, ops_of, redo_of in *.
        cbn [arrays this room_arrays] in *.
        split; unfold ops_of, redo_of; cbn [arrays this]; try done; try lia.
        -- by rewrite Hro.
        -- by rewrite Hrr.
    + intros k1 k2 room1 room2 r Hne. cbn [rooms].
      destruct (decide (k1 = roomId)) as [->|Hne1];
        [|destruct (decide (k2 = roomId)) as [->|Hne2]].
      * rewrite lookup_insert_eq, lookup_insert_ne by done. intros [= <-] Hk2.
        cbn [state]. intros Hown. destruct (Howns _ Hown) as [Hold|Hnew].
        -- by eapply (Hapart roomId k2).
        -- destruct (Hrooms _ _ Hk2) as [Ho Hr _ _ _]. cbn in Ho, Hr, Hnew.
           unfold owns. lia.
      * rewrite lookup_insert_eq, lookup_insert_ne by done. intros Hk1 [= <-].
        cbn [state]. intros Hown1 Hown. destruct (Howns _ Hown) as [Hold|Hnew].
        -- by eapply (Hapart k1 roomId).
        -- destruct (Hrooms _ _ Hk1) as [Ho Hr _ _ _]. cbn in Ho, Hr, Hnew.
           unfold owns in Hown1. lia.
      * rewrite !lookup_insert_ne by done. by apply Hapart.
  - intros Hs k ops stack v. destruct (decide (k = roomId)) as [->|Hne].
    + unfold log_of. cbn [rooms room_arrays]. rewrite lookup_insert_eq. cbn.
      intros [= <- <- <-].
      assert (Hlogroom : log_of (manager srv) roomId
                = Some (ops_of (store_of_room (manager srv) room),
                        redo_of (store_of_room (manager srv) room),
                        version (state room))).
      { unfold log_of. by rewrite Hroom. }
      destruct (Hs _ _ _ _ Hlogroom) as [Hso Hsr]. by apply Hst.
    + rewrite Hlog by done. apply Hs.
  - intros k Hne. split; [|by apply Hlog]. cbn [rooms]. by rewrite lookup_insert_ne.
  - intros k Hk. cbn [rooms]. destruct (decide (k = roomId)) as [->|Hne].
    + by rewrite lookup_insert_eq.
    + by rewrite lookup_insert_ne.
  - exists []. by rewrite app_nil_r.
Qed.

Lemma stamped_stamp op id author now :
  validateOperation (stamp op id author now) = Return tt → stamped (stamp op id author now).
Proof.
  intros Hv. destruct (stamp_overrides_steps op id author now) as (Hid & Hu & Ht & _).
  split_and!; [done|..]; by rewrite ?Hid, ?Hu, ?Ht.
Qed.

Lemma getState_returns roomId rm :
  ∃ room, rooms (ensureRoom roomId rm) !! roomId = Some room
          ∧ getState roomId rm = (Return (state room), ensureRoom roomId rm).
Proof.
  destruct (ensureRoom_is_Some roomId rm) as [room Hroom]. exists room.
  split; [done|]. unfold getState, room_get. cbn zeta. by rewrite Hroom.
Qed.

Lemma the_state_run roomId srv :
  the_state roomId srv
  = (Return roomId, mkServer (ensureRoom roomId (manager srv)) (outbox srv)).
Proof.
  unfold the_state, roomManager, mbind, G_bind.
  destruct (getState_returns roomId (manager srv)) as (room & _ & ->). done.
Qed.

Lemma preserved_with_state {A} roomId (f : string → G A) :
  preserved roomId (f roomId) → preserved roomId (the_state roomId ≫= f).
Proof.
  intros Hf srv Hwf. unfold mbind, G_bind. rewrite the_state_run.
  eapply kept_trans; [by apply kept_ensureRoom|].
  apply Hf. by apply manager_wf_ensureRoom.
Qed.

Lemma preserved_broadcast_state c st : preserved st (broadcast_state c st).
Proof.
  unfold broadcast_state.
  apply preserved_bind; [apply preserved_invoke, safe_getSnapshot|]. intros sn.
  apply preserved_bind; [apply preserved_on_wire|]. intros snap.
  apply preserved_emit.
Qed.

Lemma preserved_handle c req : preserved (room_of c) (handle c req).
Proof.
  destruct req as [data|data|data|op id now| | |ack|ack| |data id now]; cbn [handle].
  - apply preserved_emit.
  - apply preserved_emit.
  - apply preserved_emit.
  - unfold on_commit. apply preserved_try_catch; [|intros e; apply preserved_emit].
    apply preserved_with_state.
    apply preserved_bind; [|intros _; apply preserved_emit].
    apply preserved_invoke, safe_addOperation, stamped_stamp.
  - unfold on_undo. apply preserved_with_state.
    apply preserved_bind; [apply preserved_invoke, safe_undo|].
    intros [|]; [apply preserved_broadcast_state|apply preserved_ret].
  - unfold on_redo. apply preserved_with_state.
    apply preserved_bind; [apply preserved_invoke, safe_redo|].
    intros [|]; [apply preserved_broadcast_state|apply preserved_ret].
  - unfold on_clearUser. apply preserved_with_state.
    apply preserved_bind; [apply preserved_invoke, safe_removeByUser|].
    intros removed. destruct (gt_zero removed).
    + apply preserved_bind; [apply preserved_broadcast_state|]. intros _.
      apply preserved_bind; [apply preserved_invoke, safe_this_version|]. intros v.
      apply preserved_acknowledge.
    + apply preserved_bind; [apply preserved_invoke, safe_this_version|]. intros v.
      apply preserved_acknowledge.
  - unfold on_clearAll. apply preserved_with_state.
    apply preserved_bind; [apply preserved_invoke, safe_clearAll|].
    intros removed. destruct (0 <? removed).
    + apply preserved_bind; [apply preserved_broadcast_state|]. intros _.
      apply preserved_bind; [apply preserved_invoke, safe_this_version|]. intros v.
      apply preserved_acknowledge.
    + apply preserved_bind; [apply preserved_invoke, safe_this_version|]. intros v.
      apply preserved_acknowledge.
  - unfold on_disconnect.
    apply preserved_bind; [apply preserved_leave|]. intros _. apply preserved_emit.
  - unfold on_reaction. apply preserved_bind; [apply preserved_prop|].
    intros emoji. destruct emoji; try apply preserved_ret.
    destruct (negb _); [apply preserved_ret|apply preserved_emit].
Qed.

Lemma preserved_on_connection socket q uid :
  preserved (room_of_query q) (on_connection socket q uid).
Proof.
  unfold on_connection. cbn zeta.
  apply preserved_bind; [apply preserved_ensureRoom|]. intros _.
  apply preserved_bind; [apply preserved_join|]. intros _.
  apply preserved_with_state.
  apply preserved_bind; [apply preserved_invoke, safe_getSnapshot|]. intros sn.
  apply preserved_bind; [apply preserved_getUsers|]. intros us.
  apply preserved_bind; [apply preserved_on_wire|]. intros snap.
  apply preserved_bind; [apply preserved_emit|]. intros _.
  apply preserved_bind; [apply preserved_emit|]. intros _.
  apply preserved_ret.
Qed.

Lemma logs_stamped_new : logs_stamped RoomManager_new.
Proof. intros k ops stack v. unfold log_of. cbn. by rewrite lookup_empty. Qed.

Lemma running_invariant_steps (srv : server) :
  running srv → manager_wf (manager srv) ∧ logs_stamped (manager srv).
Proof.
  induction 1 as [|socket q uid srv _ [IHw IHs]|c req srv _ [IHw IHs]].
  - split; [apply manager_wf_new|apply logs_stamped_new].
  - destruct (preserved_on_connection socket q uid srv IHw) as [Hw Hs _ _ _]. auto.
  - destruct (preserved_handle c req srv IHw) as [Hw Hs _ _ _]. auto.
Qed.

(** X11.  Whatever connections and requests the server has served, its
    rooms have well-formed stores that share no array, and every operation
    in every log and redo stack went through the validator and carries the
    [id], [userId] and [timestamp] of the server. *)
Theorem running_invariant (srv : server) :
  running srv → manager_wf (manager srv) ∧ logs_stamped (manager srv).
Proof. exact (running_invariant_steps srv). Qed.

(** ** The handlers, step by step *)

Lemma bind_run {A B} (g : G A) (f : A → G B) srv a srv1 :
  g srv = (Return a, srv1) → (g ≫= f) srv = f a srv1.
Proof. intros Hg. unfold mbind, G_bind. by rewrite Hg. Qed.

Lemma bind_throw {A B} (g : G A) (f : A → G B) srv e srv1 :
  g srv = (Throw e, srv1) → (g ≫= f) srv = (Throw e, srv1).
Proof. intros Hg. unfold mbind, G_bind. by rewrite Hg. Qed.

Lemma try_catch_throw {A} (g : G A) (h : error → G A) srv e srv1 :
  g srv = (Throw e, srv1) → try_catch g h srv = h e srv1.
Proof. intros Hg. unfold try_catch. by rewrite Hg. Qed.

Lemma try_catch_return {A} (g : G A) (h : error → G A) srv a srv1 :
  g srv = (Return a, srv1) → try_catch g h srv = (Return a, srv1).
Proof. intros Hg. unfold try_catch. by rewrite Hg. Qed.

Lemma log_of_at srv roomId s us :
  room_at srv roomId s us →
  log_of (manager srv) roomId = Some (ops_of s, redo_of s, version_of s).
Proof. intros [Hroom Harr]. unfold log_of. rewrite Hroom, Harr. done. Qed.

Lemma the_state_at roomId srv :
  manager_wf (manager srv) →
  ∃ s us,
    room_at (mkServer (ensureRoom roomId (manager srv)) (outbox srv)) roomId s us
    ∧ wf s
    ∧ (ops_of s, redo_of s, version_of s) = log_or_empty (manager srv) roomId
    ∧ us = room_users (manager srv) roomId.
Proof.
  intros Hwf. destruct (ensureRoom_is_Some roomId (manager srv)) as [room Hroom].
  exists (store_of_room (ensureRoom roomId (manager srv)) room), (users room).
  split_and!.
  - split; cbn [manager]; [|done]. rewrite Hroom. by destruct room.
  - eapply rooms_wf; [by apply manager_wf_ensureRoom|done].
  - pose proof (log_of_ensureRoom roomId _ Hwf) as Hlog.
    unfold log_of in Hlog. rewrite Hroom in Hlog. cbn in Hlog. by injection Hlog.
  - rewrite <- room_users_ensureRoom. unfold room_users. by rewrite Hroom.
Qed.

Lemma invoke_at {A} roomId (m : M A) srv s us :
  room_at srv roomId s us →
  ∃ srv', invoke roomId m srv = (fst (m s), srv')
          ∧ room_at srv' roomId (snd (m s)) us
          ∧ outbox srv' = outbox srv.
Proof.
  intros [Hroom Harr]. rewrite (invoke_known _ _ _ _ Hroom).
  unfold store_of_room. rewrite Harr. cbn [state].
  replace (mkStore (arrays s) (this s)) with s by (by destruct s).
  eexists. split; [done|]. split; [|done].
  split; cbn [manager rooms room_arrays]; [|done]. by rewrite lookup_insert_eq.
Qed.

Lemma emit_at to event data srv roomId s us :
  room_at srv roomId s us →
  ∃ srv', emit to event data srv = (Return tt, srv')
          ∧ room_at srv' roomId s us
          ∧ outbox srv' = outbox srv ++ [Emit to event data].
Proof. intros Hat. eexists. split; [done|]. by split. Qed.

Lemma on_wire_at v srv roomId s us :
  room_at srv roomId s us →
  on_wire (mkSnapshot v (operations (this s))) srv = (Return (mkWire v (ops_of s)), srv).
Proof. intros [_ Harr]. unfold on_wire. cbn [snap_version snap_operations]. by rewrite Harr. Qed.

(** [broadcast_state] sends the log as it is. *)
Lemma broadcast_state_at c srv s us :
  room_at srv (room_of c) s us →
  ∃ srv', broadcast_state c (room_of c) srv = (Return tt, srv')
          ∧ room_at srv' (room_of c) s us
          ∧ outbox srv' = outbox srv
              ++ [Emit (ToRoom (room_of c)) "state:full"
                    (PSnapshot (mkWire (version_of s) (ops_of s)))].
Proof.
  intros Hat. unfold broadcast_state.
  destruct (invoke_at (room_of c) getSnapshot srv s us Hat) as (srv1 & Hrun & Hat1 & Hout1).
  change (snd (getSnapshot s)) with s in Hat1.
  change (fst (getSnapshot s))
    with (Return (mkSnapshot (version (this s)) (operations (this s)))) in Hrun.
  rewrite (bind_run _ _ _ _ _ Hrun).
  rewrite (bind_run _ _ _ _ _ (on_wire_at _ _ _ _ _ Hat1)).
  destruct (emit_at (ToRoom (room_of c)) "state:full"
              (PSnapshot (mkWire (version (this s)) (ops_of s))) srv1 _ _ _ Hat1)
    as (srv2 & Hemit & Hat2 & Hout2).
  exists srv2. split; [done|]. split; [done|]. by rewrite Hout2, Hout1.
Qed.

(** ** Commits *)

Lemma commit_accepted_steps (c : connection) (op : value) (id : string) (now : Z) (srv : server) :
  manager_wf (manager srv) →
  validateOperation (stamp op id (user_of c) now) = Return tt →
  let op' := stamp op id (user_of c) now in
  let r := on_commit c op id now srv in
  fst r = Return tt
  ∧ outbox (snd r)
    = outbox srv ++ [Emit (ToRoom (room_of c)) "draw:commit" (PValue op')]
  ∧ log_of (manager (snd r)) (room_of c)
    = Some (let '(ops, _, v) := log_or_empty (manager srv) (room_of c) in
            (ops ++ [op'], [], v + 1)).
Proof.
  intros Hwf Hv. cbn zeta.
  destruct (the_state_at (room_of c) srv Hwf) as (s & us & Hat & Hwfs & Hlog & _).
  destruct (invoke_at (room_of c) (addOperation (stamp op id (user_of c) now)) _ s us Hat)
    as (srv1 & Hrun & Hat1 & Hout1).
  destruct (addOperation_view s Hwfs _ Hv) as (Hret & Hops & Hredo & Hver & _).
  rewrite Hret in Hrun.
  destruct (emit_at (ToRoom (room_of c)) "draw:commit"
              (PValue (stamp op id (user_of c) now)) srv1 _ _ _ Hat1)
    as (srv2 & Hemit & Hat2 & Hout2).
  unfold on_commit, try_catch.
  rewrite (bind_run _ _ _ _ _ (the_state_run _ _)), (bind_run _ _ _ _ _ Hrun), Hemit.
  cbn [fst snd]. split_and!; [done|by rewrite Hout2, Hout1|].
  rewrite (log_of_at _ _ _ _ Hat2), Hops, Hredo, Hver, <- Hlog. done.
Qed.

(** X12.  A commit the validator lets through: the stamped operation is at
    the end of the room's log, the redo stack is empty, the version is one
    more, and exactly one thing is sent, the stamped operation to the whole
    room, the sender included.  The room is created if it is not there. *)
Theorem commit_accepted (c : connection) (op : value) (id : string) (now : Z) (srv : server) :
  manager_wf (manager srv) →
  validateOperation (stamp op id (user_of c) now) = Return tt →
  let op' := stamp op id (user_of c) now in
  let r := on_commit c op id now srv in
  fst r = Return tt
  ∧ outbox (snd r)
    = outbox srv ++ [Emit (ToRoom (room_of c)) "draw:commit" (PValue op')]
  ∧ log_of (manager (snd r)) (room_of c)
    = Some (let '(ops, _, v) := log_or_empty (manager srv) (room_of c) in
            (ops ++ [op'], [], v + 1)).
Proof. exact (commit_accepted_steps c op id now srv). Qed.

Lemma commit_accepted_witness :
  let c := mkConnection "s1" "lobby" "alice" in
  let op := obj [("type", VStr "shape"); ("shape", VStr "circle");
                 ("x", VNum (js_int 0)); ("y", VNum (js_int 0));
                 ("width", VNum (js_int 10)); ("height", VNum (js_int 10));
                 ("color", VStr "#f00"); ("userId", VStr "mallory")]%string in
  manager_wf (manager server_start)
  ∧ validateOperation (stamp op "op-1" (user_of c) 1700000000000) = Return tt
  ∧ let op' := stamp op "op-1" (user_of c) 1700000000000 in
    let r := on_commit c op "op-1" 1700000000000 server_start in
    fst r = Return tt
    ∧ outbox (snd r)
      = outbox server_start ++ [Emit (ToRoom (room_of c)) "draw:commit" (PValue op')]
    ∧ log_of (manager (snd r)) (room_of c)
      = Some (let '(ops, _, v) := log_or_empty (manager server_start) (room_of c) in
              (ops ++ [op'], [], v + 1)).
Proof.
  cbn zeta. split; [exact manager_wf_new|].
  assert (Hv : validateOperation
                 (stamp (obj [("type", VStr "shape"); ("shape", VStr "circle");
                              ("x", VNum (js_int 0)); ("y", VNum (js_int 0));
                              ("width", VNum (js_int 10)); ("height", VNum (js_int 10));
                              ("color", VStr "#f00"); ("userId", VStr "mallory")]%string)
                    "op-1" (user_of (mkConnection "s1" "lobby" "alice")) 1700000000000)
               = Return tt) by (vm_compute; reflexivity).
  split; [exact Hv|].
  exact (commit_accepted (mkConnection "s1" "lobby" "alice") _ "op-1" 1700000000000
           server_start manager_wf_new Hv).
Defined.

Lemma commit_rejected_steps (c : connection) (op : value) (id : string) (now : Z) (srv : server) e :
  manager_wf (manager srv) →
  validateOperation (stamp op id (user_of c) now) = Throw e →
  let r := on_commit c op id now srv in
  fst r = Return tt
  ∧ outbox (snd r)
    = outbox srv ++ [Emit (ToSocket (socket_id c)) "error:message" (PMessage (message_of e))]
  ∧ log_of (manager (snd r)) (room_of c) = Some (log_or_empty (manager srv) (room_of c)).
Proof.
  intros Hwf Hv. cbn zeta.
  destruct (the_state_at (room_of c) srv Hwf) as (s & us & Hat & Hwfs & Hlog & _).
  destruct (invoke_at (room_of c) (addOperation (stamp op id (user_of c) now)) _ s us Hat)
    as (srv1 & Hrun & Hat1 & Hout1).
  rewrite (addOperation_throws _ _ _ Hv) in Hrun, Hat1. cbn [fst snd] in Hrun, Hat1.
  destruct (emit_at (ToSocket (socket_id c)) "error:message"
              (PMessage (message_of e)) srv1 _ _ _ Hat1)
    as (srv2 & Hemit & Hat2 & Hout2).
  unfold on_commit. erewrite try_catch_throw; last first.
  { rewrite (bind_run _ _ _ _ _ (the_state_run _ _)). by apply bind_throw. }
  rewrite Hemit.
  cbn [fst snd]. split_and!; [done|by rewrite Hout2, Hout1|].
  by rewrite (log_of_at _ _ _ _ Hat2), Hlog.
Qed.

(** X13.  A commit the validator rejects: nothing is added to any log, the
    room's log is as it was (the empty log if the room was not there), and
    exactly one thing is sent, the validator's message, to the sender
    alone.  The handler itself does not throw. *)
Theorem commit_rejected (c : connection) (op : value) (id : string) (now : Z) (srv : server) e :
  manager_wf (manager srv) →
  validateOperation (stamp op id (user_of c) now) = Throw e →
  let r := on_commit c op id now srv in
  fst r = Return tt
  ∧ outbox (snd r)
    = outbox srv ++ [Emit (ToSocket (socket_id c)) "error:message" (PMessage (message_of e))]
  ∧ log_of (manager (snd r)) (room_of c) = Some (log_or_empty (manager srv) (room_of c)).
Proof. exact (commit_rejected_steps c op id now srv e). Qed.

Lemma commit_rejected_witness :
  let c := mkConnection "s1" "lobby" "alice" in
  manager_wf (manager server_start)
  ∧ validateOperation (stamp one_point_stroke "op-1" (user_of c) 1700000000000)
    = Throw (Error "Stroke must contain at least two points")
  ∧ let r := on_commit c one_point_stroke "op-1" 1700000000000 server_start in
    fst r = Return tt
    ∧ outbox (snd r)
      = outbox server_start
        ++ [Emit (ToSocket (socket_id c)) "error:message"
              (PMessage (message_of (Error "Stroke must contain at least two points")))]
    ∧ log_of (manager (snd r)) (room_of c)
      = Some (log_or_empty (manager server_start) (room_of c)).
Proof.
  cbn zeta. split; [exact manager_wf_new|].
  assert (Hv : validateOperation
                 (stamp one_point_stroke "op-1"
                    (user_of (mkConnection "s1" "lobby" "alice")) 1700000000000)
               = Throw (Error "Stroke must contain at least two points"))
    by (vm_compute; reflexivity).
  split; [exact Hv|].
  exact (commit_rejected (mkConnection "s1" "lobby" "alice") one_point_stroke "op-1"
           1700000000000 server_start _ manager_wf_new Hv).
Defined.

(** What [draw:commit] hands to [addOperation] is a JSON value when the
    data of the event is one (the number the clock gives is finite). *)
Lemma json_stamp (op : value) (id author : string) (now : Z) :
  json op → is_finite (js_int now) = true → json (stamp op id author now).
Proof.
  intros Hop Hnow. apply json_obj. intros k v.
  rewrite !lookup_insert_Some.
  intros [[_ <-]|[_ [[_ <-]|[_ [[_ <-]|[_ Hk]]]]]];
    [by apply json_num|apply json_str|apply json_str|].
  destruct Hop as [| | |s|elems Helems|props Hprops]; cbn [spread] in Hk;
    try (by rewrite lookup_empty in Hk).
  - apply elem_of_list_to_map_2, elem_of_lookup_imap in Hk.
    destruct Hk as (i & a & [= _ ->] & _). apply json_str.
  - apply elem_of_list_to_map_2, elem_of_lookup_imap in Hk.
    destruct Hk as (i & x & [= _ ->] & Hx).
    exact (Forall_lookup_1 _ _ _ _ Helems Hx).
  - exact (Hprops _ _ Hk).
Qed.

(** So a commit whose stamped data violates the rules never reaches a log:
    the sender alone gets the validator's message. *)
Lemma commit_invalid_refused (c : connection) (op : value) (id : string) (now : Z)
    (srv : server) :
  manager_wf (manager srv) →
  json op → is_finite (js_int now) = true →
  Rules.valid (stamp op id (user_of c) now) = false →
  let r := on_commit c op id now srv in
  fst r = Return tt
  ∧ (∃ e, outbox (snd r)
          = outbox srv
            ++ [Emit (ToSocket (socket_id c)) "error:message" (PMessage (message_of e))])
  ∧ log_of (manager (snd r)) (room_of c) = Some (log_or_empty (manager srv) (room_of c)).
Proof.
  intros Hwf Hop Hnow Hinv. cbn zeta.
  destruct (validateOperation (stamp op id (user_of c) now)) as [[]|e] eqn:Hv.
  - destruct (validateOperation_valid_or_nan _ Hv) as [Hvalid|[_ Hnan]].
    + by rewrite Hvalid in Hinv.
    + by destruct (json_field_not_nan _ "size" (json_stamp op id (user_of c) now Hop Hnow)).
  - destruct (commit_rejected_steps c op id now srv e Hwf Hv) as (Hr & Hout & Hlog).
    split_and!; [done|by exists e|done].
Qed.

(** ** Undo and redo requests *)

Lemma undo_request_steps (c : connection) (srv : server) ops stack v :
  manager_wf (manager srv) →
  log_or_empty (manager srv) (room_of c) = (ops, stack, v) →
  let r := on_undo c srv in
  fst r = Return tt
  ∧ if bool_decide (ops = []) then
      outbox (snd r) = outbox srv
      ∧ log_of (manager (snd r)) (room_of c) = Some (ops, stack, v)
    else
      outbox (snd r)
      = outbox srv ++ [Emit (ToRoom (room_of c)) "state:full"
                         (PSnapshot (mkWire (v + 1) (removelast ops)))]
      ∧ log_of (manager (snd r)) (room_of c)
        = Some (removelast ops, stack ++ [default VUndefined (last ops)], v + 1).
Proof.
  intros Hwf Hlog0. cbn zeta.
  destruct (the_state_at (room_of c) srv Hwf) as (s & us & Hat & Hwfs & Hlog & _).
  rewrite Hlog0 in Hlog. injection Hlog as Hops Hstack Hv.
  destruct (invoke_at (room_of c) undo _ s us Hat) as (srv1 & Hrun & Hat1 & Hout1).
  unfold on_undo. rewrite (bind_run _ _ _ _ _ (the_state_run _ _)).
  case_bool_decide as He.
  - assert (Hs : ops_of s = []) by congruence.
    rewrite (undo_empty s Hs) in Hrun, Hat1. cbn [fst snd] in Hrun, Hat1.
    rewrite (bind_run _ _ _ _ _ Hrun). cbn [fst snd mret G_ret].
    split_and!; [done|done|].
    by rewrite (log_of_at _ _ _ _ Hat1), Hops, Hstack, Hv.
  - rewrite <- Hops in He.
    destruct (undo_view s Hwfs He) as (Hret & Hops' & Hredo' & Hver' & _).
    rewrite Hret in Hrun. rewrite (bind_run _ _ _ _ _ Hrun).
    destruct (broadcast_state_at c srv1 _ _ Hat1) as (srv2 & Hb & Hat2 & Hout2).
    rewrite Hb. cbn [fst snd]. split_and!; [done| |].
    + by rewrite Hout2, Hout1, Hver', Hops', Hops, Hv.
    + by rewrite (log_of_at _ _ _ _ Hat2), Hops', Hredo', Hver', Hops, Hstack, Hv.
Qed.

(** X14.  An undo request on a room whose log is not empty moves the last
    operation to the redo stack, adds one to the version and sends the
    whole room one [state:full] with the log as it is after the undo.  On
    an empty log nothing is sent and the log is as it was. *)
Theorem undo_request (c : connection) (srv : server) ops stack v :
  manager_wf (manager srv) →
  log_or_empty (manager srv) (room_of c) = (ops, stack, v) →
  let r := on_undo c srv in
  fst r = Return tt
  ∧ if bool_decide (ops = []) then
      outbox (snd r) = outbox srv
      ∧ log_of (manager (snd r)) (room_of c) = Some (ops, stack, v)
    else
      outbox (snd r)
      = outbox srv ++ [Emit (ToRoom (room_of c)) "state:full"
                         (PSnapshot (mkWire (v + 1) (removelast ops)))]
      ∧ log_of (manager (snd r)) (room_of c)
        = Some (removelast ops, stack ++ [default VUndefined (last ops)], v + 1).
Proof. exact (undo_request_steps c srv ops stack v). Qed.

Lemma redo_request_steps (c : connection) (srv : server) ops stack v :
  manager_wf (manager srv) →
  log_or_empty (manager srv) (room_of c) = (ops, stack, v) →
  let r := on_redo c srv in
  fst r = Return tt
  ∧ if bool_decide (stack = []) then
      outbox (snd r) = outbox srv
      ∧ log_of (manager (snd r)) (room_of c) = Some (ops, stack, v)
    else
      outbox (snd r)
      = outbox srv
        ++ [Emit (ToRoom (room_of c)) "state:full"
              (PSnapshot (mkWire (v + 1) (ops ++ [default VUndefined (last stack)])))]
      ∧ log_of (manager (snd r)) (room_of c)
        = Some (ops ++ [default VUndefined (last stack)], removelast stack, v + 1).
Proof.
  intros Hwf Hlog0. cbn zeta.
  destruct (the_state_at (room_of c) srv Hwf) as (s & us & Hat & Hwfs & Hlog & _).
  rewrite Hlog0 in Hlog. injection Hlog as Hops Hstack Hv.
  destruct (invoke_at (room_of c) redo _ s us Hat) as (srv1 & Hrun & Hat1 & Hout1).
  unfold on_redo. rewrite (bind_run _ _ _ _ _ (the_state_run _ _)).
  case_bool_decide as He.
  - assert (Hs : redo_of s = []) by congruence.
    rewrite (redo_empty s Hs) in Hrun, Hat1. cbn [fst snd] in Hrun, Hat1.
    rewrite (bind_run _ _ _ _ _ Hrun). cbn [fst snd mret G_ret].
    split_and!; [done|done|].
    by rewrite (log_of_at _ _ _ _ Hat1), Hops, Hstack, Hv.
  - rewrite <- Hstack in He.
    destruct (redo_view s Hwfs He) as (Hret & Hredo' & Hops' & Hver' & _).
    rewrite Hret in Hrun. rewrite (bind_run _ _ _ _ _ Hrun).
    destruct (broadcast_state_at c srv1 _ _ Hat1) as (srv2 & Hb & Hat2 & Hout2).
    rewrite Hb. cbn [fst snd]. split_and!; [done| |].
    + by rewrite Hout2, Hout1, Hver', Hops', Hops, Hstack, Hv.
    + by rewrite (log_of_at _ _ _ _ Hat2), Hops', Hredo', Hver', Hops, Hstack, Hv.
Qed.

(** X15.  A redo request on a room with something to redo moves the last
    undone operation back to the end of the log, adds one to the version
    and sends the whole room one [state:full] with the log as it is after
    the redo.  With nothing to redo nothing is sent and the log is as it
    was. *)
Theorem redo_request (c : connection) (srv : server) ops stack v :
  manager_wf (manager srv) →
  log_or_empty (manager srv) (room_of c) = (ops, stack, v) →
  let r := on_redo c srv in
  fst r = Return tt
  ∧ if bool_decide (stack = []) then
      outbox (snd r) = outbox srv
      ∧ log_of (manager (snd r)) (room_of c) = Some (ops, stack, v)
    else
      outbox (snd r)
      = outbox srv
        ++ [Emit (ToRoom (room_of c)) "state:full"
              (PSnapshot (mkWire (v + 1) (ops ++ [default VUndefined (last stack)])))]
      ∧ log_of (manager (snd r)) (room_of c)
        = Some (ops ++ [default VUndefined (last stack)], removelast stack, v + 1).
Proof. exact (redo_request_steps c srv ops stack v). Qed.

(** ** Clear requests *)

Lemma acknowledge_at ack socket data srv roomId s us :
  room_at srv roomId s us →
  ∃ srv', acknowledge ack socket data srv = (Return tt, srv')
          ∧ room_at srv' roomId s us
          ∧ outbox srv' = outbox srv ++ (if ack : bool then [Ack socket data] else []).
Proof.
  intros Hat. unfold acknowledge. destruct ack.
  - eexists. split; [done|]. by split.
  - eexists. split; [done|]. split; [done|]. by rewrite app_nil_r.
Qed.

(** The end of both clear handlers: the broadcast, if something was
    removed, and the acknowledgement. *)
Lemma clear_tail_at c (ack removed_something : bool) (n : Z) srv s us :
  room_at srv (room_of c) s us →
  ∃ srv',
    (if removed_something then
       broadcast_state c (room_of c);;
       v ← invoke (room_of c) this_version;
       acknowledge ack (socket_id c) (PResult true n v)
     else
       v ← invoke (room_of c) this_version;
       acknowledge ack (socket_id c) (PResult false 0 v)) srv = (Return tt, srv')
    ∧ room_at srv' (room_of c) s us
    ∧ outbox srv'
      = outbox srv
        ++ (if removed_something
            then [Emit (ToRoom (room_of c)) "state:full"
                    (PSnapshot (mkWire (version_of s) (ops_of s)))]
            else [])
        ++ (if ack
            then [Ack (socket_id c)
                    (PResult removed_something (if removed_something then n else 0)
                       (version_of s))]
            else []).
Proof.
  intros Hat. destruct removed_something.
  - destruct (broadcast_state_at c srv _ _ Hat) as (srv1 & Hb & Hat1 & Hout1).
    destruct (invoke_at (room_of c) this_version srv1 s us Hat1)
      as (srv2 & Hrun & Hat2 & Hout2).
    destruct (acknowledge_at ack (socket_id c) (PResult true n (version_of s)) srv2 _ _ _ Hat2)
      as (srv3 & Hack & Hat3 & Hout3).
    exists srv3. rewrite (bind_run _ _ _ _ _ Hb), (bind_run _ _ _ _ _ Hrun).
    split; [done|]. split; [done|]. by rewrite Hout3, Hout2, Hout1, <- app_assoc.
  - destruct (invoke_at (room_of c) this_version srv s us Hat)
      as (srv2 & Hrun & Hat2 & Hout2).
    destruct (acknowledge_at ack (socket_id c) (PResult false 0 (version_of s)) srv2 _ _ _ Hat2)
      as (srv3 & Hack & Hat3 & Hout3).
    exists srv3. rewrite (bind_run _ _ _ _ _ Hrun).
    split; [done|]. split; [done|]. by rewrite Hout3, Hout2.
Qed.

Lemma clear_user_request_steps (c : connection) (ack : bool) (srv : server) ops stack v :
  manager_wf (manager srv) →
  log_or_empty (manager srv) (room_of c) = (ops, stack, v) →
  user_of c ≠ ""%string →
  let left := without_author (user_of c) ops in
  let n := Z.of_nat (length ops) - Z.of_nat (length left) in
  let v' := if 0 <? n then v + 1 else v in
  let r := on_clearUser c ack srv in
  fst r = Return tt
  ∧ log_of (manager (snd r)) (room_of c) = Some (left, [], v')
  ∧ outbox (snd r)
    = outbox srv
      ++ (if 0 <? n
          then [Emit (ToRoom (room_of c)) "state:full" (PSnapshot (mkWire v' left))]
          else [])
      ++ (if ack then [Ack (socket_id c) (PResult (0 <? n) (if 0 <? n then n else 0) v')]
          else []).
Proof.
  intros Hwf Hlog0 Hu. cbn zeta.
  destruct (the_state_at (room_of c) srv Hwf) as (s & us & Hat & Hwfs & Hlog & _).
  rewrite Hlog0 in Hlog. injection Hlog as Hops Hstack Hv.
  destruct (invoke_at (room_of c) (removeByUser (user_of c)) _ s us Hat)
    as (srv1 & Hrun & Hat1 & Hout1).
  destruct (removeByUser_view s Hwfs _ Hu) as (Hret & Hops' & Hredo' & Hver' & _).
  rewrite Hret in Hrun. rewrite Hops in *.
  unfold on_clearUser.
  rewrite (bind_run _ _ _ _ _ (the_state_run _ _)), (bind_run _ _ _ _ _ Hrun).
  cbn [gt_zero removed_number].
  destruct (clear_tail_at c ack
              (0 <? Z.of_nat (length ops) - Z.of_nat (length (without_author (user_of c) ops)))
              (Z.of_nat (length ops) - Z.of_nat (length (without_author (user_of c) ops)))
              srv1 _ _ Hat1) as (srv2 & Htail & Hat2 & Hout2).
  rewrite Htail. cbn [fst snd]. split_and!; [done| |].
  - by rewrite (log_of_at _ _ _ _ Hat2), Hops', Hredo', Hver', Hv.
  - by rewrite Hout2, Hout1, Hver', Hops', Hv.
Qed.

(** X16.  A request to clear the sender's operations removes from the
    room's log exactly the operations stamped with the connection's userId
    and empties the redo stack.  If one was removed at least, the version
    goes up by one, the whole room is sent the new log, and the sender is
    acknowledged with the count and the new version; if none was, nothing
    is sent to the room, the version stays, and the acknowledgement says
    [ok: false, removed: 0].  The acknowledgement is made only when the
    client gave a function for it. *)
Theorem clear_user_request (c : connection) (ack : bool) (srv : server) ops stack v :
  manager_wf (manager srv) →
  log_or_empty (manager srv) (room_of c) = (ops, stack, v) →
  user_of c ≠ ""%string →
  let left := without_author (user_of c) ops in
  let n := Z.of_nat (length ops) - Z.of_nat (length left) in
  let v' := if 0 <? n then v + 1 else v in
  let r := on_clearUser c ack srv in
  fst r = Return tt
  ∧ log_of (manager (snd r)) (room_of c) = Some (left, [], v')
  ∧ outbox (snd r)
    = outbox srv
      ++ (if 0 <? n
          then [Emit (ToRoom (room_of c)) "state:full" (PSnapshot (mkWire v' left))]
          else [])
      ++ (if ack then [Ack (socket_id c) (PResult (0 <? n) (if 0 <? n then n else 0) v')]
          else []).
Proof. exact (clear_user_request_steps c ack srv ops stack v). Qed.

Lemma clear_all_request_steps (c : connection) (ack : bool) (srv : server) ops stack v :
  manager_wf (manager srv) →
  log_or_empty (manager srv) (room_of c) = (ops, stack, v) →
  let n := Z.of_nat (length ops) in
  let v' := if 0 <? n then v + 1 else v in
  let r := on_clearAll c ack srv in
  fst r = Return tt
  ∧ log_of (manager (snd r)) (room_of c) = Some ([], [], v')
  ∧ outbox (snd r)
    = outbox srv
      ++ (if 0 <? n
          then [Emit (ToRoom (room_of c)) "state:full" (PSnapshot (mkWire v' []))]
          else [])
      ++ (if ack then [Ack (socket_id c) (PResult (0 <? n) (if 0 <? n then n else 0) v')]
          else []).
Proof.
  intros Hwf Hlog0. cbn zeta.
  destruct (the_state_at (room_of c) srv Hwf) as (s & us & Hat & Hwfs & Hlog & _).
  rewrite Hlog0 in Hlog. injection Hlog as Hops Hstack Hv.
  destruct (invoke_at (room_of c) clearAll _ s us Hat) as (srv1 & Hrun & Hat1 & Hout1).
  destruct (clearAll_view s Hwfs) as (Hret & Hops' & Hredo' & Hver' & _).
  rewrite Hret in Hrun. rewrite Hops in *.
  unfold on_clearAll.
  rewrite (bind_run _ _ _ _ _ (the_state_run _ _)), (bind_run _ _ _ _ _ Hrun).
  destruct (clear_tail_at c ack (0 <? Z.of_nat (length ops)) (Z.of_nat (length ops))
              srv1 _ _ Hat1) as (srv2 & Htail & Hat2 & Hout2).
  rewrite Htail. cbn [fst snd].
  assert (Hv' : version_of (snd (clearAll s))
                = if 0 <? Z.of_nat (length ops) then v + 1 else v).
  { rewrite Hver', length_pos, Hv. by destruct (bool_decide (ops = [])). }
  split_and!; [done| |].
  - by rewrite (log_of_at _ _ _ _ Hat2), Hops', Hredo', Hv'.
  - by rewrite Hout2, Hout1, Hv', Hops'.
Qed.

(** X17.  A request to clear the board empties the room's log and its redo
    stack.  If the log held something, the version goes up by one, the
    whole room is sent the empty log, and the sender is acknowledged with
    the count and the new version; if it was empty already, nothing is sent
    to the room, the version stays, and the acknowledgement says
    [ok: false, removed: 0]. *)
Theorem clear_all_request (c : connection) (ack : bool) (srv : server) ops stack v :
  manager_wf (manager srv) →
  log_or_empty (manager srv) (room_of c) = (ops, stack, v) →
  let n := Z.of_nat (length ops) in
  let v' := if 0 <? n then v + 1 else v in
  let r := on_clearAll c ack srv in
  fst r = Return tt
  ∧ log_of (manager (snd r)) (room_of c) = Some ([], [], v')
  ∧ outbox (snd r)
    = outbox srv
      ++ (if 0 <? n
          then [Emit (ToRoom (room_of c)) "state:full" (PSnapshot (mkWire v' []))]
          else [])
      ++ (if ack then [Ack (socket_id c) (PResult (0 <? n) (if 0 <? n then n else 0) v')]
          else []).
Proof. exact (clear_all_request_steps c ack srv ops stack v). Qed.

(** ** Ephemeral events and reactions *)

(** X18.  A cursor, stroke-progress or shape-progress event is sent on to
    the others in the room and changes nothing in the manager: no log is
    touched and no room is created.  What is sent on has the properties of
    the client's data; its [userId] is the sender's only if the data has no
    [userId] of its own, which otherwise stands. *)
Theorem ephemeral_forwarded (c : connection) (event : string) (data : value) (srv : server) :
  let r := on_ephemeral c event data srv in
  fst r = Return tt
  ∧ manager (snd r) = manager srv
  ∧ ∃ v, outbox (snd r)
         = outbox srv ++ [Emit (ToOthers (room_of c) (socket_id c)) event (PValue v)]
       ∧ field v "userId" = default (VStr (user_of c)) (spread data !! "userId"%string)
       ∧ ∀ k, k ≠ "userId"%string → field v k = default VUndefined (spread data !! k).
Proof.
  cbn zeta. unfold on_ephemeral, emit. cbn [fst snd manager outbox].
  split_and!; [done|done|]. eexists. split; [done|].
  unfold tag_with_sender. cbn [field]. split.
  - rewrite lookup_union. destruct (spread data !! "userId"%string) as [x|].
    + by rewrite lookup_singleton_eq.
    + by rewrite lookup_singleton_eq.
  - intros k Hk. rewrite lookup_union, lookup_singleton_ne by done.
    by destruct (spread data !! k).
Qed.

Lemma reaction_request_steps (c : connection) (data : value) (id : string) (now : Z) (srv : server) :
  let r := on_reaction c data id now srv in
  if nullish data then
    (∃ e, fst r = Throw (TypeError e)) ∧ snd r = srv
  else
    fst r = Return tt
    ∧ manager (snd r) = manager srv
    ∧ outbox (snd r)
      = outbox srv
        ++ match field data "emoji" with
           | VStr e =>
               if bool_decide (e = ""%string) then []
               else [Emit (ToRoom (room_of c)) "reaction" (PReaction id (user_of c) e now)]
           | _ => []
           end.
Proof.
  cbn zeta. unfold on_reaction, mbind, G_bind.
  destruct (nullish data) eqn:Hn.
  - destruct data; try discriminate; cbn; by eauto.
  - rewrite (prop_not_nullish _ _ Hn).
    destruct (field data "emoji") as [| | | |e| |]; cbn [fst snd mret G_ret];
      try (split_and!; [done|done|by rewrite app_nil_r]).
    cbn [truthy]. case_bool_decide; cbn [negb fst snd mret G_ret].
    + split_and!; [done|done|by rewrite app_nil_r].
    + unfold emit. cbn [fst snd manager outbox]. done.
Qed.

(** X19.  A reaction without data (undefined or null) makes the handler
    throw a TypeError, with nothing sent.  With any other data the handler
    returns, leaves the manager as it is, and sends the whole room one
    reaction exactly when [emoji] is a string that is not empty. *)
Theorem reaction_request (c : connection) (data : value) (id : string) (now : Z) (srv : server) :
  let r := on_reaction c data id now srv in
  if nullish data then
    (∃ e, fst r = Throw (TypeError e)) ∧ snd r = srv
  else
    fst r = Return tt
    ∧ manager (snd r) = manager srv
    ∧ outbox (snd r)
      = outbox srv
        ++ match field data "emoji" with
           | VStr e =>
               if bool_decide (e = ""%string) then []
               else [Emit (ToRoom (room_of c)) "reaction" (PReaction id (user_of c) e now)]
           | _ => []
           end.
Proof. exact (reaction_request_steps c data id now srv). Qed.

Lemma clear_user_falsy c ack srv :
  user_of c = ""%string → fst (on_clearUser c ack srv) = Return tt.
Proof.
  intros Hu. unfold on_clearUser. rewrite (bind_run _ _ _ _ _ (the_state_run _ _)).
  destruct (ensureRoom_is_Some (room_of c) (manager srv)) as [room Hroom].
  assert (Hat : room_at (mkServer (ensureRoom (room_of c) (manager srv)) (outbox srv))
                  (room_of c)
                  (store_of_room (ensureRoom (room_of c) (manager srv)) room) (users room)).
  { split; cbn [manager]; [|done]. cbn [this store_of_room]. rewrite Hroom. by destruct room. }
  destruct (invoke_at (room_of c) (removeByUser (user_of c)) _ _ _ Hat)
    as (srv1 & Hrun & Hat1 & _).
  rewrite Hu, removeByUser_falsy in Hrun, Hat1. cbn [fst snd] in Hrun, Hat1.
  rewrite Hu, (bind_run _ _ _ _ _ Hrun). cbn [gt_zero].
  destruct (invoke_at (room_of c) this_version srv1 _ _ Hat1) as (srv2 & Hrun2 & _).
  rewrite (bind_run _ _ _ _ _ Hrun2). unfold acknowledge. by destruct ack.
Qed.

(** X20.  Serving a request never throws, whatever the client sent, with
    one exception: a reaction whose data is undefined or null. *)
Theorem only_reaction_throws (c : connection) (req : request) (srv : server) e :
  manager_wf (manager srv) →
  fst (handle c req srv) = Throw e →
  ∃ data id now, req = Reaction data id now ∧ nullish data = true.
Proof.
  intros Hwf Hthrow.
  destruct (log_or_empty (manager srv) (room_of c)) as [[ops stack] v] eqn:Hlog.
  destruct req as [data|data|data|op id now| | |ack|ack| |data id now];
    cbn [handle] in Hthrow.
  - done.
  - done.
  - done.
  - destruct (validateOperation (stamp op id (user_of c) now)) as [[]|e'] eqn:Hv.
    + destruct (commit_accepted_steps c op id now srv Hwf Hv) as [Hr _]. congruence.
    + destruct (commit_rejected_steps c op id now srv e' Hwf Hv) as [Hr _]. congruence.
  - destruct (undo_request_steps c srv _ _ _ Hwf Hlog) as [Hr _]. congruence.
  - destruct (redo_request_steps c srv _ _ _ Hwf Hlog) as [Hr _]. congruence.
  - destruct (decide (user_of c = ""%string)) as [Hu|Hu].
    + rewrite (clear_user_falsy c ack srv Hu) in Hthrow. done.
    + destruct (clear_user_request_steps c ack srv _ _ _ Hwf Hlog Hu) as [Hr _]. congruence.
  - destruct (clear_all_request_steps c ack srv _ _ _ Hwf Hlog) as [Hr _]. congruence.
  - done.
  - exists data, id, now. split; [done|].
    pose proof (reaction_request_steps c data id now srv) as Hr. cbn zeta in Hr.
    destruct (nullish data); [done|]. destruct Hr as [Hr _]. congruence.
Qed.

(** ** Connections *)

Lemma server_eta srv : mkServer (manager srv) (outbox srv) = srv.
Proof. by destruct srv. Qed.

Lemma ensureRoom_at srv roomId s us :
  room_at srv roomId s us → ensureRoom roomId (manager srv) = manager srv.
Proof. intros [Hroom _]. apply ensureRoom_known. by rewrite Hroom. Qed.

Lemma the_state_known srv roomId s us :
  room_at srv roomId s us → the_state roomId srv = (Return roomId, srv).
Proof.
  intros Hat. rewrite the_state_run, (ensureRoom_at _ _ _ _ Hat). by rewrite server_eta.
Qed.

Lemma getUsers_at srv roomId s us :
  room_at srv roomId s us →
  roomManager (getUsers roomId) srv = (Return (Map_values us), srv).
Proof.
  intros Hat. pose proof Hat as [Hroom _]. unfold roomManager.
  rewrite (getUsers_known _ _ _ Hroom). cbn [users]. by rewrite server_eta.
Qed.

Lemma join_at socket u srv roomId s us :
  room_at srv roomId s us →
  ∃ srv', roomManager (join socket roomId u) srv = (Return tt, srv')
          ∧ room_at srv' roomId s (Map_set us socket u)
          ∧ outbox srv' = outbox srv
          ∧ manager srv'
            = mkRoomManager (room_arrays (manager srv))
                (<[roomId := mkRoom (this s) (Map_set us socket u)]> (rooms (manager srv))).
Proof.
  intros Hat. pose proof Hat as [Hroom Harr]. unfold roomManager.
  rewrite join_returns. cbn zeta. rewrite (ensureRoom_at _ _ _ _ Hat).
  eexists. split; [done|]. cbn [manager outbox rooms room_arrays].
  assert (Halter : alter (λ room, mkRoom (state room) (Map_set (users room) socket u))
                     roomId (rooms (manager srv))
                   = <[roomId := mkRoom (this s) (Map_set us socket u)]> (rooms (manager srv))).
  { apply map_eq. intros k. destruct (decide (k = roomId)) as [->|Hne].
    - by rewrite lookup_alter_eq, lookup_insert_eq, Hroom.
    - by rewrite lookup_alter_ne, lookup_insert_ne. }
  rewrite Halter. split_and!; [|done|done].
  split; cbn [manager rooms room_arrays]; [by rewrite lookup_insert_eq|done].
Qed.

Lemma color_of_in_palette uid : color_of uid ∈ USER_COLORS.
Proof.
  unfold color_of.
  destruct (assignColor_nonneg (Z.abs (hashString uid)) ltac:(lia)) as (col & -> & Hcol).
  done.
Qed.

(** What [on_connection] does, step by step. *)
Lemma on_connection_run socket q uid srv ops stack v :
  manager_wf (manager srv) →
  log_or_empty (manager srv) (room_of_query q) = (ops, stack, v) →
  let roomId := room_of_query q in
  let u := mkUser uid ("Guest-" ++ String.substring 0 4 uid) (color_of uid) in
  let us := Map_set (room_users (manager srv) roomId) socket u in
  ∃ s srv',
    on_connection socket q uid srv = (Return (mkConnection socket roomId uid), srv')
    ∧ room_at srv' roomId s us
    ∧ (ops_of s, redo_of s, version_of s) = (ops, stack, v)
    ∧ outbox srv'
      = outbox srv
        ++ [Emit (ToSocket socket) "init" (PInit u (mkWire v ops) (Map_values us));
            Emit (ToOthers roomId socket) "presence:join" (PUser u)].
Proof.
  intros Hwf Hlog0. cbn zeta.
  destruct (the_state_at (room_of_query q) srv Hwf) as (s & us & Hat & Hwfs & Hlog & ->).
  rewrite Hlog0 in Hlog. injection Hlog as Hops Hstack Hv.
  set (u := mkUser uid _ _).
  destruct (join_at socket u _ _ _ _ Hat) as (srv1 & Hjoin & Hat1 & Hout1 & _).
  destruct (invoke_at (room_of_query q) getSnapshot srv1 _ _ Hat1)
    as (srv2 & Hsnap & Hat2 & Hout2).
  change (snd (getSnapshot s)) with s in Hat2.
  change (fst (getSnapshot s))
    with (Return (mkSnapshot (version (this s)) (operations (this s)))) in Hsnap.
  destruct (emit_at (ToSocket socket) "init"
              (PInit u (mkWire (version (this s)) (ops_of s))
                 (Map_values (Map_set (room_users (manager srv) (room_of_query q)) socket u)))
              srv2 _ _ _ Hat2) as (srv3 & Hemit3 & Hat3 & Hout3).
  destruct (emit_at (ToOthers (room_of_query q) socket) "presence:join" (PUser u)
              srv3 _ _ _ Hat3) as (srv4 & Hemit4 & Hat4 & Hout4).
  exists s, srv4. unfold on_connection. cbn zeta. fold u.
  erewrite bind_run; [|reflexivity].
  rewrite (bind_run _ _ _ _ _ Hjoin).
  rewrite (bind_run _ _ _ _ _ (the_state_known _ _ _ _ Hat1)).
  rewrite (bind_run _ _ _ _ _ Hsnap).
  rewrite (bind_run _ _ _ _ _ (getUsers_at _ _ _ _ Hat2)).
  rewrite (bind_run _ _ _ _ _ (on_wire_at _ _ _ _ _ Hat2)).
  rewrite (bind_run _ _ _ _ _ Hemit3), (bind_run _ _ _ _ _ Hemit4).
  split_and!; [done|done|by rewrite Hops, Hstack, Hv|].
  rewrite Hout4, Hout3, Hout2, Hout1. cbn [outbox].
  unfold version_of in Hv. rewrite Hops, Hv. by rewrite <- app_assoc.
Qed.

Lemma room_users_at srv roomId s us :
  room_at srv roomId s us → room_users (manager srv) roomId = us.
Proof. intros [Hroom _]. unfold room_users. by rewrite Hroom. Qed.

(** X21.  A new connection gets one [init], which carries its own user, the
    log of its room as it is (the room is created if need be, the log is
    not touched) and the users of the room with the new one last; the
    others in the room get one [presence:join].  The user's colour is one
    of the palette. *)
Theorem connection_init socket q uid (srv : server) ops stack v :
  manager_wf (manager srv) →
  log_or_empty (manager srv) (room_of_query q) = (ops, stack, v) →
  socket ∉ Map_keys (room_users (manager srv) (room_of_query q)) →
  let roomId := room_of_query q in
  let u := mkUser uid ("Guest-" ++ String.substring 0 4 uid) (color_of uid) in
  let members := Map_values (room_users (manager srv) roomId) ++ [u] in
  let r := on_connection socket q uid srv in
  fst r = Return (mkConnection socket roomId uid)
  ∧ color_of uid ∈ USER_COLORS
  ∧ outbox (snd r)
    = outbox srv
      ++ [Emit (ToSocket socket) "init" (PInit u (mkWire v ops) members);
          Emit (ToOthers roomId socket) "presence:join" (PUser u)]
  ∧ log_of (manager (snd r)) roomId = Some (ops, stack, v)
  ∧ members_of (manager (snd r)) roomId = Some members.
Proof.
  intros Hwf Hlog Hk. cbn zeta.
  destruct (on_connection_run socket q uid srv _ _ _ Hwf Hlog)
    as (s & srv' & -> & Hat & Hs & Hout).
  cbn [fst snd]. rewrite (Map_set_not_member _ _ _ Hk) in Hat, Hout.
  unfold Map_values in *. rewrite map_app in Hout. cbn [map snd] in Hout.
  split_and!; [done|apply color_of_in_palette|done| |].
  - by rewrite (log_of_at _ _ _ _ Hat), <- Hs.
  - destruct Hat as [Hroom _]. unfold members_of. rewrite Hroom. cbn.
    unfold Map_values. by rewrite map_app.
Qed.

Lemma leave_at socket srv roomId s us :
  room_at srv roomId s us →
  room_at (mkServer (leave socket roomId (manager srv)) (outbox srv)) roomId s
    (Map_delete us socket).
Proof.
  intros [Hroom Harr]. unfold leave. rewrite Hroom.
  split; cbn [manager rooms room_arrays state users]; [|done].
  by rewrite lookup_insert_eq.
Qed.

(** X22.  A socket connects and then disconnects: the room it was in is
    there, with the log and the users it had before (the empty log and no
    users if it was created for the connection), and what was sent is the
    [init], the [presence:join] and then the [presence:leave] with the
    userId of the connection. *)
Theorem connect_then_disconnect socket q uid (srv : server) ops stack v :
  manager_wf (manager srv) →
  log_or_empty (manager srv) (room_of_query q) = (ops, stack, v) →
  socket ∉ Map_keys (room_users (manager srv) (room_of_query q)) →
  let roomId := room_of_query q in
  let c := mkConnection socket roomId uid in
  let srv1 := snd (on_connection socket q uid srv) in
  let r := on_disconnect c srv1 in
  fst r = Return tt
  ∧ log_of (manager (snd r)) roomId = Some (ops, stack, v)
  ∧ members_of (manager (snd r)) roomId
    = Some (Map_values (room_users (manager srv) roomId))
  ∧ outbox (snd r)
    = outbox srv1 ++ [Emit (ToOthers roomId socket) "presence:leave" (PUserId uid)].
Proof.
  intros Hwf Hlog Hk. cbn zeta.
  destruct (on_connection_run socket q uid srv _ _ _ Hwf Hlog)
    as (s & srv' & -> & Hat & Hs & Hout).
  cbn [snd]. unfold on_disconnect. cbn [socket_id room_of user_of].
  erewrite bind_run; [|reflexivity].
  pose proof (leave_at socket _ _ _ _ Hat) as Hat'.
  rewrite (Map_delete_set _ _ _ Hk) in Hat'.
  unfold emit. cbn [fst snd manager outbox].
  split_and!; [done| | |done].
  - pose proof (log_of_at _ _ _ _ Hat') as Hl. cbn [manager] in Hl. by rewrite Hl, <- Hs.
  - destruct Hat' as [Hroom _]. unfold members_of. cbn [manager] in Hroom.
    by rewrite Hroom.
Qed.

(** ** The sample run *)

Lemma running_server_one : running server_one.
Proof. repeat constructor. Qed.

Lemma running_server_undone : running server_undone.
Proof. constructor. apply running_server_one. Qed.

Lemma manager_wf_server_one : manager_wf (manager server_one).
Proof. apply running_invariant_steps, running_server_one. Qed.

Lemma manager_wf_server_undone : manager_wf (manager server_undone).
Proof. apply running_invariant_steps, running_server_undone. Qed.

Lemma log_server_one :
  log_or_empty (manager server_one) "lobby"
  = ([stamp sample_circle "op-1" "alice" 1700000000000], [], 1).
Proof. vm_compute. reflexivity. Qed.

Lemma log_server_undone :
  log_or_empty (manager server_undone) "lobby"
  = ([], [stamp sample_circle "op-1" "alice" 1700000000000], 2).
Proof. vm_compute. reflexivity. Qed.

(** A removal that removes nothing is reached through [op:clearUser]: after
    the undo the circle of alice waits in the redo stack; bob, who has no
    operation in the log, asks for his operations to be cleared, and the
    circle can no longer be redone. *)
Example clear_user_of_nobody_drops_redo :
  log_or_empty (manager (snd (handle bob (OpClearUser true) server_undone))) "lobby"
  = ([], [], 2).
Proof. vm_compute. reflexivity. Qed.

Lemma running_invariant_witness :
  running server_one
  ∧ manager_wf (manager server_one) ∧ logs_stamped (manager server_one).
Proof.
  split; [exact running_server_one|].
  exact (running_invariant server_one running_server_one).
Defined.

Lemma undo_request_witness :
  manager_wf (manager server_one)
  ∧ log_or_empty (manager server_one) (room_of bob)
    = ([stamp sample_circle "op-1" "alice" 1700000000000], [], 1)
  ∧ let r := on_undo bob server_one in
    fst r = Return tt
    ∧ if bool_decide ([stamp sample_circle "op-1" "alice" 1700000000000] = []) then
        outbox (snd r) = outbox server_one
        ∧ log_of (manager (snd r)) (room_of bob)
          = Some ([stamp sample_circle "op-1" "alice" 1700000000000], [], 1)
      else
        outbox (snd r)
        = outbox server_one
          ++ [Emit (ToRoom (room_of bob)) "state:full"
                (PSnapshot (mkWire (1 + 1)
                   (removelast [stamp sample_circle "op-1" "alice" 1700000000000])))]
        ∧ log_of (manager (snd r)) (room_of bob)
          = Some (removelast [stamp sample_circle "op-1" "alice" 1700000000000],
                  [] ++ [default VUndefined
                           (last [stamp sample_circle "op-1" "alice" 1700000000000])],
                  1 + 1).
Proof.
  split; [exact manager_wf_server_one|]. split; [exact log_server_one|].
  exact (undo_request bob server_one _ _ _ manager_wf_server_one log_server_one).
Defined.

Lemma redo_request_witness :
  manager_wf (manager server_undone)
  ∧ log_or_empty (manager server_undone) (room_of alice)
    = ([], [stamp sample_circle "op-1" "alice" 1700000000000], 2)
  ∧ let r := on_redo alice server_undone in
    fst r = Return tt
    ∧ if bool_decide ([stamp sample_circle "op-1" "alice" 1700000000000] = []) then
        outbox (snd r) = outbox server_undone
        ∧ log_of (manager (snd r)) (room_of alice)
          = Some ([], [stamp sample_circle "op-1" "alice" 1700000000000], 2)
      else
        outbox (snd r)
        = outbox server_undone
          ++ [Emit (ToRoom (room_of alice)) "state:full"
                (PSnapshot (mkWire (2 + 1)
                   ([] ++ [default VUndefined
                             (last [stamp sample_circle "op-1" "alice" 1700000000000])])))]
        ∧ log_of (manager (snd r)) (room_of alice)
          = Some ([] ++ [default VUndefined
                           (last [stamp sample_circle "op-1" "alice" 1700000000000])],
                  removelast [stamp sample_circle "op-1" "alice" 1700000000000],
                  2 + 1).
Proof.
  split; [exact manager_wf_server_undone|]. split; [exact log_server_undone|].
  exact (redo_request alice server_undone _ _ _ manager_wf_server_undone log_server_undone).
Defined.

Lemma clear_user_request_witness :
  manager_wf (manager server_one)
  ∧ log_or_empty (manager server_one) (room_of alice)
    = ([stamp sample_circle "op-1" "alice" 1700000000000], [], 1)
  ∧ user_of alice ≠ ""%string
  ∧ let ops := [stamp sample_circle "op-1" "alice" 1700000000000] in
    let left := without_author (user_of alice) ops in
    let n := Z.of_nat (length ops) - Z.of_nat (length left) in
    let v' := if 0 <? n then 1 + 1 else 1 in
    let r := on_clearUser alice true server_one in
    fst r = Return tt
    ∧ log_of (manager (snd r)) (room_of alice) = Some (left, [], v')
    ∧ outbox (snd r)
      = outbox server_one
        ++ (if 0 <? n
            then [Emit (ToRoom (room_of alice)) "state:full" (PSnapshot (mkWire v' left))]
            else [])
        ++ [Ack (socket_id alice) (PResult (0 <? n) (if 0 <? n then n else 0) v')].
Proof.
  assert (Hu : user_of alice ≠ ""%string) by discriminate.
  split; [exact manager_wf_server_one|]. split; [exact log_server_one|].
  split; [exact Hu|].
  exact (clear_user_request alice true server_one _ _ _
           manager_wf_server_one log_server_one Hu).
Defined.

Lemma clear_all_request_witness :
  manager_wf (manager server_undone)
  ∧ log_or_empty (manager server_undone) (room_of bob)
    = ([], [stamp sample_circle "op-1" "alice" 1700000000000], 2)
  ∧ let n := Z.of_nat (length (@nil value)) in
    let v' := if 0 <? n then 2 + 1 else 2 in
    let r := on_clearAll bob true server_undone in
    fst r = Return tt
    ∧ log_of (manager (snd r)) (room_of bob) = Some ([], [], v')
    ∧ outbox (snd r)
      = outbox server_undone
        ++ (if 0 <? n
            then [Emit (ToRoom (room_of bob)) "state:full" (PSnapshot (mkWire v' []))]
            else [])
        ++ [Ack (socket_id bob) (PResult (0 <? n) (if 0 <? n then n else 0) v')].
Proof.
  split; [exact manager_wf_server_undone|]. split; [exact log_server_undone|].
  exact (clear_all_request bob true server_undone _ _ _
           manager_wf_server_undone log_server_undone).
Defined.

Lemma only_reaction_throws_witness :
  manager_wf (manager server_one)
  ∧ fst (handle alice (Reaction VUndefined "r-1" 1700000000000) server_one)
    = Throw (TypeError "Cannot read properties of undefined or null")
  ∧ ∃ data id now,
      Reaction VUndefined "r-1" 1700000000000 = Reaction data id now
      ∧ nullish data = true.
Proof.
  assert (Hthrow : fst (handle alice (Reaction VUndefined "r-1" 1700000000000) server_one)
                   = Throw (TypeError "Cannot read properties of undefined or null"))
    by reflexivity.
  split; [exact manager_wf_server_one|]. split; [exact Hthrow|].
  exact (only_reaction_throws alice _ server_one _ manager_wf_server_one Hthrow).
Defined.

(** ** Rooms *)

(** X23.  Serving a request of a connection, or accepting a connection,
    leaves every room other than the connection's as it is: its record
    (drawing state and users) and what its log, its redo stack and its
    version hold. *)
Theorem other_rooms_untouched (srv : server) (k : string) :
  manager_wf (manager srv) →
  (∀ c req, k ≠ room_of c →
     rooms (manager (snd (handle c req srv))) !! k = rooms (manager srv) !! k
     ∧ log_of (manager (snd (handle c req srv))) k = log_of (manager srv) k)
  ∧ (∀ socket q uid, k ≠ room_of_query q →
       rooms (manager (snd (on_connection socket q uid srv))) !! k = rooms (manager srv) !! k
       ∧ log_of (manager (snd (on_connection socket q uid srv))) k = log_of (manager srv) k).
Proof.
  intros Hwf. split.
  - intros c req Hk. by apply (preserved_handle c req srv Hwf).
  - intros socket q uid Hk. by apply (preserved_on_connection socket q uid srv Hwf).
Qed.

Lemma other_rooms_untouched_witness :
  manager_wf (manager server_one)
  ∧ ∀ req, rooms (manager (snd (handle (mkConnection "s3" "r1" "carol") req server_one)))
             !! "lobby"%string
           = rooms (manager server_one) !! "lobby"%string
         ∧ log_of (manager (snd (handle (mkConnection "s3" "r1" "carol") req server_one)))
             "lobby"
           = log_of (manager server_one) "lobby".
Proof.
  split; [exact manager_wf_server_one|].
  intros req.
  exact (proj1 (other_rooms_untouched server_one "lobby" manager_wf_server_one)
           (mkConnection "s3" "r1" "carol") req ltac:(discriminate)).
Defined.

(** X24.  A room is never removed: a room that is there is there after any
    request, a disconnect included, and after any connection. *)
Theorem rooms_stay (srv : server) (k : string) :
  manager_wf (manager srv) →
  is_Some (rooms (manager srv) !! k) →
  (∀ c req, is_Some (rooms (manager (snd (handle c req srv))) !! k))
  ∧ (∀ socket q uid, is_Some (rooms (manager (snd (on_connection socket q uid srv))) !! k)).
Proof.
  intros Hwf Hk. split.
  - intros c req. by apply (preserved_handle c req srv Hwf).
  - intros socket q uid. by apply (preserved_on_connection socket q uid srv Hwf).
Qed.

Lemma rooms_stay_witness :
  manager_wf (manager server_one)
  ∧ is_Some (rooms (manager server_one) !! "lobby"%string)
  ∧ (∀ c req, is_Some (rooms (manager (snd (handle c req server_one))) !! "lobby"%string))
  ∧ (∀ socket q uid,
       is_Some (rooms (manager (snd (on_connection socket q uid server_one)))
                  !! "lobby"%string)).
Proof.
  assert (Hk : is_Some (rooms (manager server_one) !! "lobby"%string))
    by (vm_compute; eexists; reflexivity).
  split; [exact manager_wf_server_one|]. split; [exact Hk|].
  exact (rooms_stay server_one "lobby" manager_wf_server_one Hk).
Defined.

Lemma connection_init_witness :
  let roomId := room_of_query (Some ""%string) in
  let u := mkUser "carol" ("Guest-" ++ String.substring 0 4 "carol") (color_of "carol") in
  let members := Map_values (room_users (manager server_one) roomId) ++ [u] in
  let r := on_connection "s3" (Some ""%string) "carol" server_one in
  manager_wf (manager server_one)
  ∧ log_or_empty (manager server_one) roomId
    = ([stamp sample_circle "op-1" "alice" 1700000000000], [], 1)
  ∧ (("s3"%string) ∉ Map_keys (room_users (manager server_one) roomId))
  ∧ fst r = Return (mkConnection "s3" roomId "carol")
  ∧ color_of "carol" ∈ USER_COLORS
  ∧ outbox (snd r)
    = outbox server_one
      ++ [Emit (ToSocket "s3") "init"
            (PInit u (mkWire 1 [stamp sample_circle "op-1" "alice" 1700000000000]) members);
          Emit (ToOthers roomId "s3") "presence:join" (PUser u)]
  ∧ log_of (manager (snd r)) roomId
    = Some ([stamp sample_circle "op-1" "alice" 1700000000000], [], 1)
  ∧ members_of (manager (snd r)) roomId = Some members.
Proof.
  cbn zeta.
  assert (Hk : ("s3"%string) ∉ Map_keys (room_users (manager server_one)
                                           (room_of_query (Some ""%string)))).
  { vm_compute. intros Hin.
    repeat (apply elem_of_cons in Hin as [Hin|Hin]; [discriminate|]).
    by apply elem_of_nil in Hin. }
  split; [exact manager_wf_server_one|]. split; [exact log_server_one|].
  split; [exact Hk|].
  exact (connection_init "s3" (Some ""%string) "carol" server_one _ _ _
           manager_wf_server_one log_server_one Hk).
Defined.

Lemma connect_then_disconnect_witness :
  let roomId := room_of_query None in
  let c := mkConnection "s3" roomId "carol" in
  let srv1 := snd (on_connection "s3" None "carol" server_one) in
  let r := on_disconnect c srv1 in
  manager_wf (manager server_one)
  ∧ log_or_empty (manager server_one) roomId
    = ([stamp sample_circle "op-1" "alice" 1700000000000], [], 1)
  ∧ (("s3"%string) ∉ Map_keys (room_users (manager server_one) roomId))
  ∧ fst r = Return tt
  ∧ log_of (manager (snd r)) roomId
    = Some ([stamp sample_circle "op-1" "alice" 1700000000000], [], 1)
  ∧ members_of (manager (snd r)) roomId
    = Some (Map_values (room_users (manager server_one) roomId))
  ∧ outbox (snd r)
    = outbox srv1 ++ [Emit (ToOthers roomId "s3") "presence:leave" (PUserId "carol")].
Proof.
  cbn zeta.
  assert (Hk : ("s3"%string) ∉ Map_keys (room_users (manager server_one)
                                           (room_of_query None))).
  { vm_compute. intros Hin.
    repeat (apply elem_of_cons in Hin as [Hin|Hin]; [discriminate|]).
    by apply elem_of_nil in Hin. }
  split; [exact manager_wf_server_one|]. split; [exact log_server_one|].
  split; [exact Hk|].
  exact (connect_then_disconnect "s3" None "carol" server_one _ _ _
           manager_wf_server_one log_server_one Hk).
Defined.

(** ** Clearing one's own *)

Lemma elem_of_without_author u x l :
  x ∈ without_author u l ↔ x ∈ l ∧ authored_by u x = false.
Proof.
  unfold without_author. rewrite !list_elem_of_In, List.filter_In.
  by rewrite negb_true_iff.
Qed.

(** X25.  An operation a connection committed is removed by that
    connection's own request to clear its operations, and is not removed by
    the request of a connection with another userId; the userId the
    committed data claimed plays no part. *)
Theorem clear_user_removes_own (c c' : connection) (op : value) (id : string) (now : Z)
    (ack : bool) (srv : server) :
  manager_wf (manager srv) →
  validateOperation (stamp op id (user_of c) now) = Return tt →
  room_of c' = room_of c →
  user_of c' ≠ ""%string →
  let op' := stamp op id (user_of c) now in
  let srv1 := snd (on_commit c op id now srv) in
  let srv2 := snd (on_clearUser c' ack srv1) in
  ∃ ops v,
    log_of (manager srv2) (room_of c) = Some (ops, [], v)
    ∧ (op' ∈ ops ↔ user_of c' ≠ user_of c).
Proof.
  intros Hwf Hv Hroom Hu. cbn zeta.
  destruct (commit_accepted_steps c op id now srv Hwf Hv) as (_ & _ & Hlog1).
  assert (Hwf1 : manager_wf (manager (snd (on_commit c op id now srv)))).
  { apply (preserved_handle c (DrawCommit op id now) srv Hwf). }
  destruct (log_or_empty (manager srv) (room_of c)) as [[ops0 stack0] v0].
  assert (Hlog1' : log_or_empty (manager (snd (on_commit c op id now srv))) (room_of c')
                   = (ops0 ++ [stamp op id (user_of c) now], [], v0 + 1)).
  { unfold log_or_empty. by rewrite Hroom, Hlog1. }
  destruct (clear_user_request_steps c' ack _ _ _ _ Hwf1 Hlog1' Hu) as (_ & Hlog2 & _).
  rewrite Hroom in Hlog2. eexists _, _. split; [exact Hlog2|].
  rewrite elem_of_without_author.
  destruct (stamp_overrides_steps op id (user_of c) now) as (_ & _ & _ & Hauth & _).
  rewrite Hauth. split.
  - intros [_ Hne%bool_decide_eq_false]. congruence.
  - intros Hne. split.
    + apply elem_of_app. right. by apply list_elem_of_singleton.
    + apply bool_decide_eq_false. congruence.
Qed.

Lemma clear_user_removes_own_witness :
  manager_wf (manager server_start)
  ∧ validateOperation (stamp sample_circle "op-1" (user_of alice) 1700000000000) = Return tt
  ∧ room_of alice = room_of alice
  ∧ user_of alice ≠ ""%string
  ∧ let op' := stamp sample_circle "op-1" (user_of alice) 1700000000000 in
    let srv1 := snd (on_commit alice sample_circle "op-1" 1700000000000 server_start) in
    let srv2 := snd (on_clearUser alice false srv1) in
    ∃ ops v,
      log_of (manager srv2) (room_of alice) = Some (ops, [], v)
      ∧ (op' ∈ ops ↔ user_of alice ≠ user_of alice).
Proof.
  assert (Hv : validateOperation (stamp sample_circle "op-1" (user_of alice) 1700000000000)
               = Return tt) by (vm_compute; reflexivity).
  assert (Hu : user_of alice ≠ ""%string) by discriminate.
  split; [exact manager_wf_new|]. split; [exact Hv|]. split; [reflexivity|].
  split; [exact Hu|].
  exact (clear_user_removes_own alice alice sample_circle "op-1" 1700000000000 false
           server_start manager_wf_new Hv eq_refl Hu).
Defined.

(** * More on the log *)

(** X26.  Undo and redo move one operation between the end of the log and
    the top of the redo stack and do nothing else: the log followed by the
    redo stack read from its top is the same sequence before and after. *)
Theorem undo_redo_keep_timeline (c : call) (s : store) :
  wf s → c = Undo ∨ c = Redo →
  ops_of (run c s) ++ rev (redo_of (run c s)) = ops_of s ++ rev (redo_of s).
Proof.
  intros Hwf [-> | ->]; cbn [run].
  - destruct (decide (ops_of s = [])) as [He|Hne].
    + by rewrite (undo_empty _ He).
    + destruct (undo_view s Hwf Hne) as (_ & -> & -> & _).
      destruct (exists_last Hne) as (l & x & ->).
      rewrite removelast_last, last_snoc, rev_app_distr. cbn.
      by rewrite <- app_assoc.
  - destruct (decide (redo_of s = [])) as [He|Hne].
    + by rewrite (redo_empty _ He).
    + destruct (redo_view s Hwf Hne) as (_ & -> & -> & _).
      destruct (exists_last Hne) as (l & x & ->).
      rewrite removelast_last, last_snoc, rev_app_distr. cbn.
      by rewrite <- app_assoc.
Qed.

Lemma undo_redo_keep_timeline_witness :
  let s := store_of [sample_stroke; dangling_update] [hexagon] 5 in
  wf s ∧ (Undo = Undo ∨ Undo = Redo)
  ∧ ops_of (run Undo s) ++ rev (redo_of (run Undo s)) = ops_of s ++ rev (redo_of s).
Proof.
  cbn zeta.
  assert (Hwf : wf (store_of [sample_stroke; dangling_update] [hexagon] 5))
    by (apply wf_store_of; repeat constructor).
  split; [exact Hwf|]. split; [by left|].
  exact (undo_redo_keep_timeline Undo _ Hwf (or_introl eq_refl)).
Defined.

Lemma run_all_app cs1 cs2 s : run_all (cs1 ++ cs2) s = run_all cs2 (run_all cs1 s).
Proof. revert s. induction cs1 as [|c cs1 IH]; intros s; [done|]. cbn. apply IH. Qed.

(** X27.  [k] undos and then [k] redos, with at least [k] operations in the
    log: the log and the redo stack are back to what they were, and the
    version has gone up by [2k]. *)
Theorem undos_then_redos (k : nat) (s : store) :
  wf s → (k ≤ length (ops_of s))%nat →
  let s' := run_all (replicate k Undo ++ replicate k Redo) s in
  ops_of s' = ops_of s
  ∧ redo_of s' = redo_of s
  ∧ version_of s' = version_of s + 2 * Z.of_nat k.
Proof.
  revert s. induction k as [|k IH]; intros s Hwf Hk; cbn zeta.
  { cbn. split_and!; [done|done|lia]. }
  assert (Hne : ops_of s ≠ []) by (destruct (ops_of s); [cbn in Hk; lia|done]).
  destruct (undo_view s Hwf Hne) as (_ & Hops1 & Hredo1 & Hv1 & Hwf1).
  destruct (exists_last Hne) as (l & x & Hl).
  replace (replicate (S k) Redo) with (replicate k Redo ++ [Redo])
    by (by rewrite <- replicate_S_end).
  cbn [replicate app run_all]. rewrite app_assoc, run_all_app. cbn [run_all].
  change (snd (undo s)) with (run Undo s) in *.
  destruct (IH (run Undo s) Hwf1) as (Hops2 & Hredo2 & Hv2).
  { rewrite Hops1, Hl, removelast_last. rewrite Hl, length_app in Hk. cbn in Hk. lia. }
  set (s2 := run_all (replicate k Undo ++ replicate k Redo) (run Undo s)) in *.
  assert (Hwf2 : wf s2).
  { subst s2. clear -Hwf1. generalize (replicate k Undo ++ replicate k Redo).
    intros cs. revert Hwf1. generalize (run Undo s). clear.
    induction cs as [|c cs IHcs]; intros s0 Hs0; [done|]. cbn. by apply IHcs, wf_run. }
  assert (Hne2 : redo_of s2 ≠ []).
  { rewrite Hredo2, Hredo1. by destruct (redo_of s). }
  destruct (redo_view s2 Hwf2 Hne2) as (_ & Hredo3 & Hops3 & Hv3 & _).
  change (snd (redo s2)) with (run Redo s2) in *.
  rewrite Hops3, Hredo3, Hv3, Hops2, Hredo2, Hv2, Hops1, Hredo1, Hv1, Hl.
  rewrite !removelast_last, !last_snoc. cbn [default].
  split_and!; [done|done|lia].
Qed.

Lemma undos_then_redos_witness :
  let s := store_of [sample_stroke; dangling_update; sample_stroke] [hexagon] 5 in
  wf s ∧ (2 ≤ length (ops_of s))%nat
  ∧ let s' := run_all (replicate 2 Undo ++ replicate 2 Redo) s in
    ops_of s' = ops_of s
    ∧ redo_of s' = redo_of s
    ∧ version_of s' = version_of s + 2 * Z.of_nat 2.
Proof.
  cbn zeta.
  assert (Hwf : wf (store_of [sample_stroke; dangling_update; sample_stroke] [hexagon] 5))
    by (apply wf_store_of; repeat constructor).
  assert (Hk : (2 ≤ length (ops_of (store_of [sample_stroke; dangling_update; sample_stroke]
                                      [hexagon] 5)))%nat) by (vm_compute; lia).
  split; [exact Hwf|]. split; [exact Hk|].
  exact (undos_then_redos 2 _ Hwf Hk).
Defined.

(** X28.  After an operation is appended there is nothing to redo: a redo
    returns false and leaves the log, with the operation at its end, as it
    is, whatever had been undone before. *)
Theorem redo_after_append (op : value) (s : store) :
  wf s → validateOperation op = Return tt →
  let s1 := snd (addOperation op s) in
  redo s1 = (Return false, s1) ∧ ops_of s1 = ops_of s ++ [op].
Proof.
  intros Hwf Hv. cbn zeta.
  destruct (addOperation_view s Hwf op Hv) as (_ & Hops & Hredo & _).
  split; [|done]. by apply redo_empty.
Qed.

Lemma redo_after_append_witness :
  let s := store_of [sample_stroke] [dangling_update] 3 in
  wf s ∧ validateOperation sample_stroke = Return tt
  ∧ let s1 := snd (addOperation sample_stroke s) in
    redo s1 = (Return false, s1) ∧ ops_of s1 = ops_of s ++ [sample_stroke].
Proof.
  cbn zeta.
  assert (Hwf : wf (store_of [sample_stroke] [dangling_update] 3))
    by (apply wf_store_of; repeat constructor).
  assert (Hv : validateOperation sample_stroke = Return tt) by (vm_compute; reflexivity).
  split; [exact Hwf|]. split; [exact Hv|].
  exact (redo_after_append sample_stroke _ Hwf Hv).
Defined.

(** X29.  [clearAll()] returns the number of operations the log held and
    leaves both the log and the redo stack empty; the version goes up by
    one exactly when that number is not zero. *)
Theorem clearAll_counts (s : store) :
  wf s →
  let r := clearAll s in
  fst r = Return (Z.of_nat (length (ops_of s)))
  ∧ ops_of (snd r) = []
  ∧ redo_of (snd r) = []
  ∧ version_of (snd r) = version_of s + (if bool_decide (ops_of s = []) then 0 else 1).
Proof.
  intros Hwf. destruct (clearAll_view s Hwf) as (Hr & Hops & Hredo & Hv & _).
  cbn zeta. rewrite Hr, Hops, Hredo, Hv.
  split_and!; [done..|]. case_bool_decide; lia.
Qed.

Lemma clearAll_counts_witness :
  let s := store_of [sample_stroke; dangling_update] [hexagon] 5 in
  wf s
  ∧ let r := clearAll s in
    fst r = Return (Z.of_nat (length (ops_of s)))
    ∧ ops_of (snd r) = []
    ∧ redo_of (snd r) = []
    ∧ version_of (snd r) = version_of s + (if bool_decide (ops_of s = []) then 0 else 1).
Proof.
  cbn zeta.
  assert (Hwf : wf (store_of [sample_stroke; dangling_update] [hexagon] 5))
    by (apply wf_store_of; repeat constructor).
  split; [exact Hwf|].
  exact (clearAll_counts _ Hwf).
Defined.
